(** * Risk decision engine of the smart-ambulance early-warning system

    A shallow embedding of [src/enhanced_risk_score.py] (the temporal alert
    buffer and the seven-stage scoring cascade) and of the safety override of
    [api/app.py], together with the properties stated about them.  The code
    around them is embedded as well: the rest of [predict], the window
    extraction of [src/features.py], [apply_enhanced_risk_scoring], the alert
    columns of [src/risk_score.py], and the counts and episodes of
    [evaluation/metrics.py].

    Numbers.  Python [float] is IEEE-754 binary64; it is modelled by
    [spec_float] of the standard library at precision 53 and maximal exponent
    1024, with round-to-nearest-even arithmetic ([SFmul], [SFadd]) and the
    IEEE comparisons ([SFltb], [SFleb]: every comparison with NaN is false).
    Python [int] is [Z].  Where the source mixes an [int] with a [float]
    (thresholds, literals such as [95] or [100]) the integer is converted
    with [Z2SF]; all such integers are below [2^53], so the conversion is
    exact and coincides with Python's exact mixed comparison. *)

From Stdlib Require Import ZArith Lia Bool List SpecFloat.
From stdpp Require Import gmap strings list finite sorting.

Local Open Scope Z_scope.

(* ===================================================================== *)
(** ** Binary64 values *)
(* ===================================================================== *)

Definition prec : Z := 53.
Definition emax : Z := 1024.

Abbreviation float := spec_float (only parsing).

Definition fmul : float -> float -> float := SFmul prec emax.
Definition fadd : float -> float -> float := SFadd prec emax.
Definition fdiv : float -> float -> float := SFdiv prec emax.
Definition flt : float -> float -> bool := SFltb.
Definition fle : float -> float -> bool := SFleb.

(** [x > y] of Python is the swapped comparison. *)
Definition fgt (x y : float) : bool := flt y x.

(** A well-formed binary64 datum: canonical mantissa, exponent in range. *)
Definition is_float (x : float) : Prop := valid_binary prec emax x = true.

#[global] Instance spec_float_eq_dec : EqDecision spec_float.
Proof. solve_decision. Defined.

(** Conversion of a Python [int] to [float] (round to nearest even). *)
Definition Z2SF (z : Z) : float := binary_normalize prec emax z 0 false.

(** The decimal literals of the source.  A literal [n/10] denotes the double
    nearest to that rational, which is what a correctly rounded division of
    the two (exact) integers returns. *)
Definition lit_0_5 : float := Eval vm_compute in fdiv (Z2SF 5) (Z2SF 10).
Definition lit_0_7 : float := Eval vm_compute in fdiv (Z2SF 7) (Z2SF 10).
Definition lit_0_8 : float := Eval vm_compute in fdiv (Z2SF 8) (Z2SF 10).
Definition lit_neg_0_5 : float := Eval vm_compute in SFopp lit_0_5.
Definition lit_1_0 : float := Eval vm_compute in Z2SF 1.

(** Python's builtin [min(a, b)] and [max(a, b)] on two arguments: the first
    argument is kept unless the second is strictly smaller (resp. larger). *)
Definition py_min (a b : float) : float := if flt b a then b else a.
Definition py_max (a b : float) : float := if fgt b a then b else a.

(* ===================================================================== *)
(** ** Rounding, specified arithmetically *)
(* ===================================================================== *)

(** The operations of [SpecFloat] round by shifting a mantissa bit by bit.
    The definitions below state the same rounding with integer division;
    the two are proved equal further down ([binary_round_spec]), and the
    order properties of the arithmetic are proved on this form. *)

(** Round to nearest, ties to even, of [m / 2^k]. *)
Definition rne_div (m k : Z) : Z :=
  let q := m / 2 ^ k in
  let r := m mod 2 ^ k in
  if 2 * r <? 2 ^ k then q
  else if 2 * r =? 2 ^ k then (if Z.even q then q else q + 1)
  else q + 1.

(** The result of rounding, given the rounded mantissa [q] on the grid of
    exponent [E]: a mantissa that reached [2^prec] is renormalised. *)
Definition pack (prec emax : Z) (s : bool) (q E : Z) : spec_float :=
  if q =? 0 then S754_zero s
  else if q =? 2 ^ prec then
    (if E + 1 <=? emax - prec
     then S754_finite s (Z.to_pos (2 ^ (prec - 1))) (E + 1)
     else S754_infinity s)
  else
    (if E <=? emax - prec then S754_finite s (Z.to_pos q) E
     else S754_infinity s).

(** The mantissa of [m * 2^e] on the grid of exponent [E], rounded to
    nearest even when the grid is coarser than [2^e]. *)
Definition round_mant (m e E : Z) : Z :=
  if e <=? E then rne_div m (E - e) else m * 2 ^ (e - E).

(** Rounding of the positive number [m * 2^e] to nearest even. *)
Definition round_pos (prec emax : Z) (s : bool) (m e : Z) : spec_float :=
  let E := SpecFloat.fexp prec emax (Zdigits2 m + e) in
  pack prec emax s (round_mant m e E) E.

(** A positive normal number: a full mantissa of [prec] bits. *)
Definition is_normal_pos (c : spec_float) : bool :=
  match c with
  | S754_finite false m e => (Zdigits2 (Z.pos m) =? prec) && bounded prec emax m e
  | _ => false
  end.

(** What a Python call does: it returns a value or raises an exception. *)
Inductive Outcome (A : Type) : Type :=
| Returns (a : A)
| Raises (exception : string).
Arguments Returns {A} a.
Arguments Raises {A} exception.

(* ===================================================================== *)
(** ** [TemporalAlertBuffer] *)
(* ===================================================================== *)

Module TemporalAlertBuffer.

Record t := mk {
  buffer_size : Z;
  recent_alerts : list bool
}.

(** [__init__]: plain attribute assignments, no validation. *)
Definition init (buffer_size : Z) : t :=
  {| buffer_size := buffer_size; recent_alerts := [] |}.

(** The constructor call [TemporalAlertBuffer(buffer_size)]: the body of
    [__init__] has no [raise] and no operation that can fail. *)
Definition new (buffer_size : Z) : Outcome t := Returns (init buffer_size).

(** [list.pop(0)] on a list known to be non-empty. *)
Definition pop0 (l : list bool) : list bool := tail l.

(** The list after [append] and the conditional [pop(0)]. *)
Definition push_evict (self : t) (current_prediction : bool) : list bool :=
  let l := recent_alerts self ++ [current_prediction] in
  if Z.of_nat (length l) >? buffer_size self then pop0 l else l.

(** [should_alert]: the updated object and the returned boolean. *)
Definition should_alert (self : t) (current_prediction : bool) : t * bool :=
  let l := push_evict self current_prediction in
  let self' := {| buffer_size := buffer_size self; recent_alerts := l |} in
  if Z.of_nat (length l) =? buffer_size self
  then (self', forallb id l)
  else (self', false).

Definition reset (self : t) : t :=
  {| buffer_size := buffer_size self; recent_alerts := [] |}.

(** A session: the calls made on one buffer object, in order. *)
Inductive call := Should_alert (current_prediction : bool) | Reset.

Definition step (self : t) (c : call) : t * option bool :=
  match c with
  | Should_alert b => let '(s, r) := should_alert self b in (s, Some r)
  | Reset => (reset self, None)
  end.

Fixpoint run (self : t) (cs : list call) : t * list (option bool) :=
  match cs with
  | [] => (self, [])
  | c :: cs =>
      let '(s, r) := step self c in
      let '(s', rs) := run s cs in
      (s', r :: rs)
  end.

(** The answers of successive [should_alert] calls. *)
Definition feed (self : t) (bs : list bool) : list bool :=
  omap id (snd (run self (map Should_alert bs))).

End TemporalAlertBuffer.

(* ===================================================================== *)
(** ** [EnhancedRiskScorer] *)
(* ===================================================================== *)

(** The [features] argument: a Python dict from field names to numbers. *)
Abbreviation Features := (gmap string spec_float).

(** [features.get(key, default)]. *)
Definition get (features : Features) (key : string) (dflt : float) : float :=
  default dflt (features !! key).

Module EnhancedRiskScorer.

(** The [THRESHOLDS] dict; its seven keys are fixed by [__init__]. *)
Record Thresholds := {
  spo2_critical : Z;
  spo2_warning : Z;
  hr_critical : Z;
  hr_warning : Z;
  hr_low : Z;
  sbp_critical : Z;
  sbp_warning : Z
}.

Record t := mk {
  alert_buffer : TemporalAlertBuffer.t;
  min_confidence : float;
  min_abnormal_signals : Z;
  motion_threshold : float;
  critical_override : bool;
  THRESHOLDS : Thresholds
}.

Definition init_THRESHOLDS : Thresholds :=
  {| spo2_critical := 88; spo2_warning := 92;
     hr_critical := 140; hr_warning := 120; hr_low := 50;
     sbp_critical := 90; sbp_warning := 100 |}.

(** [__init__]: stores its arguments; nothing is validated. *)
Definition init (temporal_buffer_size : Z) (min_confidence : float)
    (min_abnormal_signals : Z) (motion_threshold : float)
    (critical_override : bool) : t :=
  {| alert_buffer := TemporalAlertBuffer.init temporal_buffer_size;
     min_confidence := min_confidence;
     min_abnormal_signals := min_abnormal_signals;
     motion_threshold := motion_threshold;
     critical_override := critical_override;
     THRESHOLDS := init_THRESHOLDS |}.

(** The constructor call [EnhancedRiskScorer(...)]. *)
Definition new (temporal_buffer_size : Z) (min_confidence : float)
    (min_abnormal_signals : Z) (motion_threshold : float)
    (critical_override : bool) : Outcome t :=
  match TemporalAlertBuffer.new temporal_buffer_size with
  | Returns b =>
      Returns {| alert_buffer := b;
                 min_confidence := min_confidence;
                 min_abnormal_signals := min_abnormal_signals;
                 motion_threshold := motion_threshold;
                 critical_override := critical_override;
                 THRESHOLDS := init_THRESHOLDS |}
  | Raises e => Raises e
  end.

(** The constructor called with all its default arguments. *)
Definition init_default : t := init 3 lit_0_7 2 lit_0_5 true.

(** [if cond: abnormal.append(tag)]. *)
Definition append_if (cond : bool) (tag : string) (abnormal : list string)
    : list string :=
  if cond then abnormal ++ [tag] else abnormal.

Definition count_abnormal_signals (self : t) (features : Features)
    : Z * list string :=
  let th := THRESHOLDS self in
  let abnormal := [] in
  let abnormal :=
    append_if (flt (get features "spo2_mean" (Z2SF 100)) (Z2SF (spo2_warning th)))
              "spo2_low" abnormal in
  let abnormal :=
    append_if (flt (get features "spo2_min" (Z2SF 100)) (Z2SF (spo2_critical th)))
              "spo2_critical" abnormal in
  let abnormal :=
    append_if (fgt (get features "hr_mean" (Z2SF 70)) (Z2SF (hr_warning th)))
              "hr_high" abnormal in
  let abnormal :=
    append_if (fgt (get features "hr_max" (Z2SF 100)) (Z2SF (hr_critical th)))
              "hr_critical" abnormal in
  let abnormal :=
    append_if (flt (get features "sbp_mean" (Z2SF 120)) (Z2SF (sbp_warning th)))
              "sbp_low" abnormal in
  let abnormal :=
    append_if (flt (get features "spo2_slope" (Z2SF 0)) lit_neg_0_5)
              "spo2_dropping" abnormal in
  let abnormal :=
    append_if (fgt (get features "hr_slope" (Z2SF 0)) lit_0_5)
              "hr_rising" abnormal in
  (Z.of_nat (length abnormal), abnormal).

Definition check_critical_condition (self : t) (features : Features)
    : bool * string :=
  let th := THRESHOLDS self in
  if flt (get features "spo2_min" (Z2SF 100)) (Z2SF (spo2_critical th))
  then (true, "Critical hypoxemia (SpO2 < 88%)")
  else if fgt (get features "hr_max" (Z2SF 100)) (Z2SF (hr_critical th))
  then (true, "Critical tachycardia (HR > 140)")
  else if flt (get features "sbp_mean" (Z2SF 120)) (Z2SF (sbp_critical th))
  then (true, "Critical hypotension (SBP < 90)")
  else if flt (get features "spo2_mean" (Z2SF 100)) (Z2SF (spo2_warning th))
          && fgt (get features "hr_mean" (Z2SF 70)) (Z2SF (hr_warning th))
  then (true, "Combined cardiopulmonary stress")
  else (false, "").

Definition check_physiological_plausibility (self : t) (features : Features)
    : bool * string :=
  let th := THRESHOLDS self in
  if flt (get features "hr_mean" (Z2SF 70)) (Z2SF (hr_low th))
     && fgt (get features "spo2_mean" (Z2SF 95)) (Z2SF 95)
  then (false, "Implausible: Low HR with normal SpO2")
  else if flt (get features "spo2_mean" (Z2SF 100)) (Z2SF 90)
          && flt (get features "hr_mean" (Z2SF 70)) (Z2SF 80)
  then (false, "Implausible: Severe hypoxia without tachycardia")
  else
    let sbp := get features "sbp_mean" (Z2SF 120) in
    let dbp := get features "dbp_mean" (Z2SF 80) in
    if flt sbp dbp && fgt sbp (Z2SF 0)
    then (false, "Implausible: SBP < DBP (sensor error)")
    else (true, "").

Definition assess_motion_artifact (self : t) (features : Features)
    : bool * float :=
  let motion_std := get features "motion_std" (Z2SF 0) in
  let motion_max := get features "motion_max" (Z2SF 0) in
  let is_high_motion :=
    fgt motion_std (motion_threshold self) || fgt motion_max lit_1_0 in
  (is_high_motion, motion_std).

(** The values written to [debug_info['stage']]. *)
Inductive Stage :=
| stage_unset
| plausibility_failed
| critical_override_stage
| insufficient_signals
| motion_artifact
| low_confidence
| confirmed_alert
| awaiting_confirmation.

Record DebugInfo := {
  stage : Stage;
  abnormal_signals : list string;
  critical : bool;
  plausible : bool;
  high_motion : bool;
  buffered : bool
}.

(** The explanation f-strings, kept as their template and arguments (the
    decimal rendering of numbers is not modelled). *)
Inductive Explanation :=
| Suppressed (reason : string)
| CRITICAL (reason : string)
| Suppressed_only (abnormal_count : Z)
| Suppressed_high_motion (motion_level : float)
| Suppressed_low_confidence (confidence : float)
| Alert (n_signals : nat) (first_three : list string)
| Monitoring_awaiting_confirmation.

Record Result := {
  risk_score : float;
  should_alert : bool;
  explanation : Explanation;
  debug_info : DebugInfo
}.

Definition with_buffer (self : t) (b : TemporalAlertBuffer.t) : t :=
  {| alert_buffer := b;
     min_confidence := min_confidence self;
     min_abnormal_signals := min_abnormal_signals self;
     motion_threshold := motion_threshold self;
     critical_override := critical_override self;
     THRESHOLDS := THRESHOLDS self |}.

(** STAGE 6: the composite score. *)
Definition composite_score (anomaly_score : float) (abnormal_count : Z) : float :=
  let base_risk := fmul anomaly_score (Z2SF 100) in
  let signal_boost := Z.min (abnormal_count * 5) 20 in
  py_min (fadd base_risk (Z2SF signal_boost)) (Z2SF 100).

(** [calculate_risk_score]: the returned tuple and the scorer afterwards
    (only stage 7 touches the buffer). *)
Definition calculate_risk_score (self : t) (features : Features)
    (anomaly_score confidence : float) : Result * t :=
  (* STAGE 1 *)
  let '(is_plausible, plausibility_reason) :=
    check_physiological_plausibility self features in
  if negb is_plausible then
    ({| risk_score := Z2SF 0; should_alert := false;
        explanation := Suppressed plausibility_reason;
        debug_info := {| stage := plausibility_failed; abnormal_signals := [];
                         critical := false; plausible := is_plausible;
                         high_motion := false; buffered := false |} |}, self)
  else
  (* STAGE 2 *)
  let '(is_critical, critical_reason) := check_critical_condition self features in
  if is_critical && critical_override self then
    let risk_score := fadd (Z2SF 95) (fmul anomaly_score (Z2SF 5)) in
    ({| risk_score := risk_score; should_alert := true;
        explanation := CRITICAL critical_reason;
        debug_info := {| stage := critical_override_stage; abnormal_signals := [];
                         critical := is_critical; plausible := is_plausible;
                         high_motion := false; buffered := false |} |}, self)
  else
  (* STAGE 3 *)
  let '(abnormal_count, abnormal_signals) := count_abnormal_signals self features in
  if abnormal_count <? min_abnormal_signals self then
    ({| risk_score := fmul anomaly_score (Z2SF 50); should_alert := false;
        explanation := Suppressed_only abnormal_count;
        debug_info := {| stage := insufficient_signals;
                         abnormal_signals := abnormal_signals;
                         critical := is_critical; plausible := is_plausible;
                         high_motion := false; buffered := false |} |}, self)
  else
  (* STAGE 4 *)
  let '(is_high_motion, motion_level) := assess_motion_artifact self features in
  if is_high_motion && negb is_critical then
    ({| risk_score := fmul anomaly_score (Z2SF 40); should_alert := false;
        explanation := Suppressed_high_motion motion_level;
        debug_info := {| stage := motion_artifact;
                         abnormal_signals := abnormal_signals;
                         critical := is_critical; plausible := is_plausible;
                         high_motion := is_high_motion; buffered := false |} |}, self)
  else
  (* STAGE 5 *)
  if flt confidence (min_confidence self) && negb is_critical then
    ({| risk_score := fmul anomaly_score (Z2SF 60); should_alert := false;
        explanation := Suppressed_low_confidence confidence;
        debug_info := {| stage := low_confidence;
                         abnormal_signals := abnormal_signals;
                         critical := is_critical; plausible := is_plausible;
                         high_motion := is_high_motion; buffered := false |} |}, self)
  else
  (* STAGE 6 *)
  let risk_score := composite_score anomaly_score abnormal_count in
  (* STAGE 7 *)
  let raw_alert := fgt risk_score (Z2SF 70) in
  let '(buffer', buffered_alert) :=
    TemporalAlertBuffer.should_alert (alert_buffer self) raw_alert in
  let self' := with_buffer self buffer' in
  if buffered_alert then
    ({| risk_score := risk_score; should_alert := true;
        explanation := Alert (length abnormal_signals) (take 3 abnormal_signals);
        debug_info := {| stage := confirmed_alert;
                         abnormal_signals := abnormal_signals;
                         critical := is_critical; plausible := is_plausible;
                         high_motion := is_high_motion;
                         buffered := buffered_alert |} |}, self')
  else
    ({| risk_score := risk_score; should_alert := false;
        explanation := Monitoring_awaiting_confirmation;
        debug_info := {| stage := awaiting_confirmation;
                         abnormal_signals := abnormal_signals;
                         critical := is_critical; plausible := is_plausible;
                         high_motion := is_high_motion;
                         buffered := buffered_alert |} |}, self').

Definition reset (self : t) : t :=
  with_buffer self (TemporalAlertBuffer.reset (alert_buffer self)).

(** One scored window, and the scorer run over a stream of them. *)
Record Window := {
  w_features : Features;
  w_anomaly_score : float;
  w_confidence : float
}.

Fixpoint run (self : t) (ws : list Window) : list Result * t :=
  match ws with
  | [] => ([], self)
  | w :: ws =>
      let '(r, s) :=
        calculate_risk_score self (w_features w) (w_anomaly_score w)
                             (w_confidence w) in
      let '(rs, s') := run s ws in
      (r :: rs, s')
  end.

End EnhancedRiskScorer.

(** The window of the third example of the module's [__main__] block. *)
Definition test_features_motion : Features :=
  {[ "spo2_mean" := Z2SF 91; "spo2_min" := Z2SF 88; "hr_mean" := Z2SF 110;
     "hr_max" := Z2SF 125; "sbp_mean" := Z2SF 105; "motion_std" := lit_0_8 ]}.

(** A dict in which every physiological field is absent. *)
Definition no_physiological_field (features : Features) : Prop :=
  features !! "spo2_mean" = None /\ features !! "spo2_min" = None /\
  features !! "spo2_slope" = None /\ features !! "hr_mean" = None /\
  features !! "hr_max" = None /\ features !! "hr_slope" = None /\
  features !! "sbp_mean" = None /\ features !! "dbp_mean" = None.

(* ===================================================================== *)
(** ** The safety override of [api/app.py] *)
(* ===================================================================== *)

Module App.

(** The four aggregates computed from the cleaned batch (lines 62-65). *)
Record RawVitalsSummary := {
  min_spo2 : float;
  max_hr : float;
  min_sbp : float;
  max_sbp : float
}.

(** The aggregates taken when the cleaned batch is empty. *)
Definition empty_batch_summary : RawVitalsSummary :=
  {| min_spo2 := Z2SF 100; max_hr := Z2SF 60;
     min_sbp := Z2SF 120; max_sbp := Z2SF 120 |}.

(** The two local variables [safety_triggered] and [safety_score]. *)
Definition trigger (st : bool * float) (score : float) : bool * float :=
  (true, py_max (snd st) score).

(** Lines 67-106: the chain of [if]/[elif] blocks over the aggregates. *)
Definition safety_override (v : RawVitalsSummary) : bool * float :=
  let st := (false, Z2SF 0) in
  let st :=
    if flt (min_spo2 v) (Z2SF 90) then trigger st (Z2SF 95)
    else if flt (min_spo2 v) (Z2SF 92) then trigger st (Z2SF 80)
    else st in
  let st :=
    if fgt (max_hr v) (Z2SF 140) then trigger st (Z2SF 95)
    else if fgt (max_hr v) (Z2SF 120) then trigger st (Z2SF 75)
    else st in
  let st :=
    if flt (min_sbp v) (Z2SF 90) then trigger st (Z2SF 95)
    else if flt (min_sbp v) (Z2SF 100) then trigger st (Z2SF 75)
    else st in
  let st :=
    if fgt (max_sbp v) (Z2SF 180) then trigger st (Z2SF 90) else st in
  let st :=
    if flt (min_spo2 v) (Z2SF 94) && fgt (max_hr v) (Z2SF 110)
    then trigger st (Z2SF 85) else st in
  st.

(** The JSON object returned by [predict]. *)
Record Response := {
  anomaly : bool;
  risk_score : float;
  confidence : float;
  safety_override_flag : bool
}.

(** [predict] from line 61 on.  [confidence_mean] is the mean confidence of
    the cleaned batch (0.0 when empty); [model_based] stands for everything
    below line 118 (feature extraction, model, risk scoring), which runs
    only when it is called. *)
Definition predict (v : RawVitalsSummary) (confidence_mean : float)
    (model_based : unit -> Response) : Response :=
  let '(safety_triggered, safety_score) := safety_override v in
  if safety_triggered then
    {| anomaly := true; risk_score := safety_score;
       confidence := confidence_mean; safety_override_flag := true |}
  else model_based tt.

(** The rule table of the specification, one row per line: the condition
    evaluated on the aggregates, and the score of the row. *)
Definition spec_rules (v : RawVitalsSummary) : list (bool * float) :=
  [ (flt (min_spo2 v) (Z2SF 90), Z2SF 95);
    (fle (Z2SF 90) (min_spo2 v) && flt (min_spo2 v) (Z2SF 92), Z2SF 80);
    (fgt (max_hr v) (Z2SF 140), Z2SF 95);
    (flt (Z2SF 120) (max_hr v) && fle (max_hr v) (Z2SF 140), Z2SF 75);
    (flt (min_sbp v) (Z2SF 90), Z2SF 95);
    (fle (Z2SF 90) (min_sbp v) && flt (min_sbp v) (Z2SF 100), Z2SF 75);
    (fgt (max_sbp v) (Z2SF 180), Z2SF 90);
    (flt (min_spo2 v) (Z2SF 94) && fgt (max_hr v) (Z2SF 110), Z2SF 85) ].

(** The scores of the rows whose condition holds. *)
Definition triggered_scores (v : RawVitalsSummary) : list float :=
  map snd (filter (fun r => fst r = true) (spec_rules v)).

End App.

(* ===================================================================== *)
(** ** The rest of [enhanced_risk_score.py], [api/app.py] and [features.py] *)
(* ===================================================================== *)

(** The raw alert a result fed to the temporal buffer, when it went through
    stage 7 (lines 260-261). *)
Definition temporal_raw (r : EnhancedRiskScorer.Result) : option bool :=
  match EnhancedRiskScorer.stage (EnhancedRiskScorer.debug_info r) with
  | EnhancedRiskScorer.confirmed_alert
  | EnhancedRiskScorer.awaiting_confirmation =>
      Some (fgt (EnhancedRiskScorer.risk_score r) (Z2SF 70))
  | _ => None
  end.

(** The alert of a result that went through stage 7. *)
Definition temporal_alert (r : EnhancedRiskScorer.Result) : option bool :=
  match EnhancedRiskScorer.stage (EnhancedRiskScorer.debug_info r) with
  | EnhancedRiskScorer.confirmed_alert
  | EnhancedRiskScorer.awaiting_confirmation =>
      Some (EnhancedRiskScorer.should_alert r)
  | _ => None
  end.

(** The seven tags of [count_abnormal_signals], in the order of its tests. *)
Definition abnormal_tags : list string :=
  ["spo2_low"; "spo2_critical"; "hr_high"; "hr_critical"; "sbp_low";
   "spo2_dropping"; "hr_rising"].

(** A NaN aggregate replaced by a number. *)
Definition nan_to (dflt x : float) : float :=
  match x with S754_nan => dflt | _ => x end.

Module Apply.

(** One row of [df_predictions]: the columns read with [pred_row.get]. *)
Abbreviation PredRow := (gmap string spec_float).

(** The dict appended to [results] for each row. *)
Record EnhancedRow := {
  enhanced_risk_score : float;
  enhanced_alert : Z;
  alert_explanation : EnhancedRiskScorer.Explanation;
  abnormal_count : Z;
  is_critical : bool;
  stage : EnhancedRiskScorer.Stage
}.

Definition enhanced_row (r : EnhancedRiskScorer.Result) : EnhancedRow :=
  {| enhanced_risk_score := EnhancedRiskScorer.risk_score r;
     enhanced_alert := if EnhancedRiskScorer.should_alert r then 1 else 0;
     alert_explanation := EnhancedRiskScorer.explanation r;
     abnormal_count :=
       Z.of_nat (length (EnhancedRiskScorer.abnormal_signals
                           (EnhancedRiskScorer.debug_info r)));
     is_critical := EnhancedRiskScorer.critical (EnhancedRiskScorer.debug_info r);
     stage := EnhancedRiskScorer.stage (EnhancedRiskScorer.debug_info r) |}.

(** The window scored for one prediction row: its feature row and the two
    columns read with [pred_row.get(..., 0.5)]. *)
Definition scored_window (features : Features) (pred_row : PredRow)
    : EnhancedRiskScorer.Window :=
  {| EnhancedRiskScorer.w_features := features;
     EnhancedRiskScorer.w_anomaly_score := get pred_row "anomaly_score" lit_0_5;
     EnhancedRiskScorer.w_confidence := get pred_row "confidence" lit_0_5 |}.

(** The [for idx, pred_row in df_predictions.iterrows()] loop, on frames with
    the default index [0, 1, ...]: [df_features.iloc[idx]] raises
    [IndexError] past the last row. *)
Fixpoint loop (scorer : EnhancedRiskScorer.t) (df_features : list Features)
    (idx : nat) (rows : list PredRow) (results : list EnhancedRow)
    : Outcome (list EnhancedRow) :=
  match rows with
  | [] => Returns results
  | pred_row :: rows =>
      match df_features !! idx with
      | None => Raises "IndexError"
      | Some features =>
          let '(r, scorer) :=
            EnhancedRiskScorer.calculate_risk_score scorer features
              (get pred_row "anomaly_score" lit_0_5)
              (get pred_row "confidence" lit_0_5) in
          loop scorer df_features (S idx) rows (results ++ [enhanced_row r])
      end
  end.

(** [apply_enhanced_risk_scoring]: the scorer is built with the default
    [motion_threshold] and [critical_override]; the result pairs every
    prediction row with its new columns ([pd.concat(..., axis=1)]). *)
Definition apply_enhanced_risk_scoring (df_features : list Features)
    (df_predictions : list PredRow) (temporal_buffer_size : Z)
    (min_confidence : float) (min_abnormal_signals : Z)
    : Outcome (list (PredRow * EnhancedRow)) :=
  let scorer :=
    EnhancedRiskScorer.init temporal_buffer_size min_confidence
      min_abnormal_signals lit_0_5 true in
  match loop scorer df_features 0 df_predictions [] with
  | Returns results => Returns (zip df_predictions results)
  | Raises e => Raises e
  end.

End Apply.

Module FeaturesPy.

(** [range(0, stop, step)]. *)
Definition py_range (stop step : Z) : Outcome (list Z) :=
  if step =? 0 then Raises "ValueError"
  else if 0 <? step
  then Returns (map (fun k => k * step) (seqZ 0 ((stop + step - 1) / step)))
  else Returns (map (fun k => k * step) (seqZ 0 ((stop + step + 1) / step))).

(** [df.iloc[start:stop]] for [0 <= start <= stop]. *)
Definition iloc {Row : Type} (df : list Row) (start stop : Z) : list Row :=
  take (Z.to_nat (stop - start)) (drop (Z.to_nat start) df).

(** [extract_window_features].  [summarise] stands for the dict built from
    one window (means by pandas, slopes by [compute_slope]). *)
Definition extract_window_features {Row Feat : Type}
    (summarise : list Row -> Feat) (df : list Row)
    (window_size step_size : Z) : Outcome (list Feat) :=
  let len := Z.of_nat (length df) in
  if len =? 0 then Returns []
  else
    let actual_window_size := Z.min window_size len in
    if actual_window_size <? 3 then Returns []
    else if len <=? window_size then Returns [summarise df]
    else
      match py_range (len - window_size + 1) step_size with
      | Raises e => Raises e
      | Returns starts =>
          Returns (map (fun start => summarise (iloc df start (start + window_size)))
                       starts)
      end.

End FeaturesPy.

Module AppTail.

(** The columns of the last row of [risk_out] that [predict] reads. *)
Record Latest := {
  anomaly_flag : Z;
  risk_score : float;
  confidence_mean : float
}.

(** [predict] below line 118.  [feat_df] is the frame of window features and
    [latest_of] stands for [compute_risk_score(predict_anomalies(...)).iloc[-1]]
    (the model and pandas). *)
Definition model_based {Feat : Type} (confidence_mean0 : float)
    (feat_df : list Feat) (latest_of : list Feat -> Latest) (_ : unit)
    : App.Response :=
  match feat_df with
  | [] =>
      {| App.anomaly := false; App.risk_score := Z2SF 0;
         App.confidence := confidence_mean0; App.safety_override_flag := false |}
  | _ =>
      let latest := latest_of feat_df in
      {| App.anomaly := negb (anomaly_flag latest =? 0);
         App.risk_score := risk_score latest;
         App.confidence := confidence_mean latest;
         App.safety_override_flag := false |}
  end.

(** [predict] from line 61 to its end. *)
Definition predict {Feat : Type} (v : App.RawVitalsSummary)
    (confidence_mean0 : float) (feat_df : list Feat)
    (latest_of : list Feat -> Latest) : App.Response :=
  App.predict v confidence_mean0 (model_based confidence_mean0 feat_df latest_of).

End AppTail.

(* ===================================================================== *)
(** ** [evaluation/metrics.py]: the counts and the episodes *)
(* ===================================================================== *)

Module Metrics.

(** Arithmetic of [np.int64]: the result is reduced to 64 bits, two's
    complement. *)
Definition wrap64 (z : Z) : Z := (z + 2 ^ 63) mod 2 ^ 64 - 2 ^ 63.

(** The element pairs of a binary operation on two one-dimensional arrays:
    equal lengths, or one array of length 1 that is repeated; other shapes
    raise [ValueError]. *)
Definition broadcast (a b : list Z) : Outcome (list (Z * Z)) :=
  if (length a =? length b)%nat then Returns (zip a b)
  else
    match a, b with
    | [x], _ => Returns (map (fun y => (x, y)) b)
    | _, [y] => Returns (map (fun x => (x, y)) a)
    | _, _ => Raises "ValueError"
    end.

(** [np.sum(mask)] of a boolean mask: the number of its true entries. *)
Definition count_where (mask : Z * Z -> bool) (pairs : list (Z * Z)) : Z :=
  Z.of_nat (length (List.filter mask pairs)).

(** The integer entries of the dict returned by [compute_metrics] (the
    ratios, which are floats computed from them, are left out). *)
Record Counts := {
  tp : Z;
  fp : Z;
  fn : Z;
  tn : Z;
  total_predictions : Z;
  total_anomalies : Z
}.

(** [compute_metrics] on two [int64] arrays. *)
Definition compute_metrics (y_true y_pred : list Z) : Outcome Counts :=
  match broadcast y_true y_pred with
  | Raises e => Raises e
  | Returns pairs =>
      Returns
        {| tp := count_where (fun p => (fst p =? 1) && (snd p =? 1)) pairs;
           fp := count_where (fun p => (fst p =? 0) && (snd p =? 1)) pairs;
           fn := count_where (fun p => (fst p =? 1) && (snd p =? 0)) pairs;
           tn := count_where (fun p => (fst p =? 0) && (snd p =? 0)) pairs;
           total_predictions := Z.of_nat (length y_pred);
           total_anomalies := wrap64 (fold_right Z.add 0 y_true) |}
  end.

(** The three local variables of the first loop of [compute_alert_latency]
    ([episode_start] is read only when [in_episode] holds). *)
Record EpisodeState := {
  in_episode : bool;
  episode_start : nat;
  true_episodes : list (nat * nat)
}.

(** One iteration of [for i, label in enumerate(y_true)]. *)
Definition episode_step (st : EpisodeState) (i : nat) (label : Z)
    : EpisodeState :=
  if (label =? 1) && negb (in_episode st) then
    {| in_episode := true; episode_start := i;
       true_episodes := true_episodes st |}
  else if (label =? 0) && in_episode st then
    {| in_episode := false; episode_start := episode_start st;
       true_episodes := true_episodes st ++ [(episode_start st, (i - 1)%nat)] |}
  else st.

Fixpoint episode_loop (st : EpisodeState) (i : nat) (y_true : list Z)
    : EpisodeState :=
  match y_true with
  | [] => st
  | label :: rest => episode_loop (episode_step st i label) (S i) rest
  end.

(** The list [true_episodes] after the loop and the final [if in_episode]. *)
Definition find_episodes (y_true : list Z) : list (nat * nat) :=
  let st :=
    episode_loop {| in_episode := false; episode_start := 0%nat;
                    true_episodes := [] |} 0 y_true in
  if in_episode st
  then true_episodes st ++ [(episode_start st, (length y_true - 1)%nat)]
  else true_episodes st.

(** [np.where(y_pred[start_idx:] == 1)[0]], its first entry if there is one. *)
Definition first_alert_offset (y_pred : list Z) (start_idx : nat) : option nat :=
  fst <$> list_find (fun p => p = 1) (drop start_idx y_pred).

(** The latency appended for one episode; [None] is [np.nan].  Indexing
    [time_sec] past its end raises [IndexError]. *)
Definition latency (time_sec y_pred : list Z) (start_idx : nat)
    : Outcome (option Z) :=
  match first_alert_offset y_pred start_idx with
  | None => Returns None
  | Some first_alert_offset =>
      match time_sec !! (start_idx + first_alert_offset)%nat,
            time_sec !! start_idx with
      | Some t_alert, Some t_start => Returns (Some (wrap64 (t_alert - t_start)))
      | _, _ => Raises "IndexError"
      end
  end.

Fixpoint latencies_loop (time_sec y_pred : list Z) (episodes : list (nat * nat))
    (latencies : list (option Z)) : Outcome (list (option Z)) :=
  match episodes with
  | [] => Returns latencies
  | (start_idx, end_idx) :: episodes =>
      match latency time_sec y_pred start_idx with
      | Raises e => Raises e
      | Returns l => latencies_loop time_sec y_pred episodes (latencies ++ [l])
      end
  end.

(** [np.isnan] on an entry of [latencies]. *)
Definition is_nan (l : option Z) : bool :=
  match l with None => true | Some _ => false end.

(** The list [latencies] and the two integer entries of the returned dict
    (the mean, median, maximum and minimum are left out). *)
Record LatencyStats := {
  latencies : list (option Z);
  num_episodes : Z;
  missed_episodes : Z
}.

(** [compute_alert_latency] on [int64] arrays. *)
Definition compute_alert_latency (time_sec y_true y_pred : list Z)
    : Outcome LatencyStats :=
  match latencies_loop time_sec y_pred (find_episodes y_true) [] with
  | Raises e => Raises e
  | Returns latencies =>
      Returns
        {| latencies := latencies;
           num_episodes := Z.of_nat (length latencies);
           missed_episodes :=
             Z.of_nat (length (List.filter is_nan latencies)) |}
  end.

(** A label of a binary classification. *)
Definition binary (label : Z) : Prop := label = 0 \/ label = 1.

(** A maximal run of labels 1: rows [s] to [e] carry 1, and the run is
    bounded by a label 0 or by the ends of the array. *)
Definition maximal_run (y : list Z) (s e : nat) : Prop :=
  (s <= e < length y)%nat
  /\ (forall k, (s <= k <= e)%nat -> y !! k = Some 1)
  /\ (s = 0%nat \/ y !! (s - 1)%nat = Some 0)
  /\ ((e + 1)%nat = length y \/ y !! (e + 1)%nat = Some 0).

(** Two episodes in order, with at least one row between them. *)
Definition apart (a b : nat * nat) : Prop := (snd a + 1 < fst b)%nat.

End Metrics.

(* ===================================================================== *)
(** ** [risk_score.py]: the alert columns *)
(* ===================================================================== *)

Module RiskScore.

(** The two columns read by step 3 of [compute_risk_score], row by row. *)
Record Row := {
  risk_score : float;
  confidence_mean : float
}.

(** [((risk_score > 50) & (confidence_mean >= confidence_threshold)).astype(int)]. *)
Definition alert_raw_bool (confidence_threshold : float) (row : Row) : bool :=
  fgt (risk_score row) (Z2SF 50) && fle confidence_threshold (confidence_mean row).

Definition alert_raw (confidence_threshold : float) (df : list Row) : list Z :=
  map (fun row => if alert_raw_bool confidence_threshold row then 1 else 0) df.

(** [series.rolling(window, min_periods=1).sum()] on a column of integers
    without missing values: entry [i] is the sum of the rows [i - window + 1]
    to [i] that exist.  (The sums of 0 and 1 entries are small integers,
    which the float accumulation of pandas represents exactly.) *)
Definition rolling_sum (window : nat) (series : list Z) : list Z :=
  map (fun i => fold_right Z.add 0 (drop (i + 1 - window) (take (i + 1) series)))
      (seq 0 (length series)).

(** [(alert_raw.rolling(window=min_persistence, min_periods=1).sum()
      >= min_persistence).astype(int)]; [rolling] refuses a window below
    [min_periods = 1]. *)
Definition alert (min_persistence : Z) (alert_raw : list Z) : Outcome (list Z) :=
  if min_persistence <? 1 then Raises "ValueError"
  else
    Returns (map (fun s => if min_persistence <=? s then 1 else 0)
                 (rolling_sum (Z.to_nat min_persistence) alert_raw)).

End RiskScore.

(* ===================================================================== *)
(** * The arithmetic model on known values *)
(* ===================================================================== *)

(** [0.1 + 0.2] is [0.30000000000000004], not [0.3]. *)
Example python_sum_of_tenths :
  fadd (fdiv (Z2SF 1) (Z2SF 10)) (fdiv (Z2SF 2) (Z2SF 10))
  = S754_finite false 5404319552844596 (-54)
  /\ fdiv (Z2SF 3) (Z2SF 10) = S754_finite false 5404319552844595 (-54).
Proof. split; reflexivity. Qed.

(** [0.57 * 100] is [56.99999999999999], while [0.7 * 50] is [35.0]. *)
Example python_products :
  fmul (fdiv (Z2SF 57) (Z2SF 100)) (Z2SF 100)
  = S754_finite false 8022036836253695 (-47)
  /\ Z2SF 57 = S754_finite false 8022036836253696 (-47)
  /\ fmul lit_0_7 (Z2SF 50) = Z2SF 35.
Proof. repeat split; reflexivity. Qed.

(** [float(2**53 + 1)] is [2.0**53]: conversion rounds ties to even. *)
Example python_int_to_float : Z2SF (2 ^ 53 + 1) = Z2SF (2 ^ 53).
Proof. reflexivity. Qed.

(* ===================================================================== *)
(** * Properties of the temporal alert buffer *)
(* ===================================================================== *)

Section BufferFacts.
Import TemporalAlertBuffer.

Lemma forallb_id_true (l : list bool) :
  forallb id l = true <-> Forall (fun x => x = true) l.
Proof.
  rewrite forallb_forall, Forall_forall.
  split; intros H x Hx.
  - apply H. now apply list_elem_of_In.
  - apply H. now apply list_elem_of_In.
Qed.

Lemma should_alert_state (self : t) (b : bool) :
  fst (should_alert self b)
  = {| buffer_size := buffer_size self; recent_alerts := push_evict self b |}.
Proof. unfold should_alert. now destruct (_ =? _). Qed.

Lemma should_alert_answer (self : t) (b : bool) :
  snd (should_alert self b)
  = (Z.of_nat (length (push_evict self b)) =? buffer_size self)
    && forallb id (push_evict self b).
Proof. unfold should_alert. now destruct (_ =? _). Qed.

(** One call keeps the list within a non-negative capacity. *)
Lemma push_evict_bounded (self : t) (b : bool) :
  0 <= buffer_size self ->
  Z.of_nat (length (recent_alerts self)) <= buffer_size self ->
  Z.of_nat (length (push_evict self b)) <= buffer_size self.
Proof.
  intros HN Hlen. unfold push_evict, pop0.
  destruct (Z.gtb_spec (Z.of_nat (length (recent_alerts self ++ [b])))
              (buffer_size self)) as [Hgt | Hle]; [| exact Hle].
  destruct (recent_alerts self) as [| x l]; simpl in *.
  - lia.
  - rewrite length_app in *. simpl in *. lia.
Qed.

Lemma step_buffer_size (self : t) (c : call) :
  buffer_size (fst (step self c)) = buffer_size self.
Proof.
  destruct c as [b |]; simpl; [| reflexivity].
  pose proof (should_alert_state self b) as H.
  destruct (should_alert self b) as [s r]. simpl in *. now subst s.
Qed.

Lemma step_bounded (self : t) (c : call) :
  0 <= buffer_size self ->
  Z.of_nat (length (recent_alerts self)) <= buffer_size self ->
  Z.of_nat (length (recent_alerts (fst (step self c)))) <= buffer_size self.
Proof.
  intros HN Hlen. destruct c as [b |]; simpl; [| lia].
  pose proof (should_alert_state self b) as H.
  destruct (should_alert self b) as [s r]. simpl in *. subst s. simpl.
  now apply push_evict_bounded.
Qed.

Lemma run_bounded (cs : list call) : forall self : t,
  0 <= buffer_size self ->
  Z.of_nat (length (recent_alerts self)) <= buffer_size self ->
  buffer_size (fst (run self cs)) = buffer_size self /\
  Z.of_nat (length (recent_alerts (fst (run self cs)))) <= buffer_size self.
Proof.
  induction cs as [| c cs IH]; intros self HN Hlen; simpl.
  - split; [reflexivity | exact Hlen].
  - pose proof (step_buffer_size self c) as Hsz.
    pose proof (step_bounded self c HN Hlen) as Hb.
    destruct (step self c) as [s r]. simpl in *.
    specialize (IH s). rewrite Hsz in IH.
    destruct (IH HN Hb) as [IH1 IH2].
    destruct (run s cs) as [s' rs]. simpl in *. split; [exact IH1 | lia].
Qed.

Lemma run_app (cs1 cs2 : list call) : forall self : t,
  run self (cs1 ++ cs2)
  = (fst (run (fst (run self cs1)) cs2),
     snd (run self cs1) ++ snd (run (fst (run self cs1)) cs2)).
Proof.
  induction cs1 as [| c cs1 IH]; intros self; simpl.
  - now destruct (run self cs2).
  - destruct (step self c) as [s r]. rewrite (IH s).
    destruct (run s cs1) as [s1 rs1]. reflexivity.
Qed.

(** The buffer fed with [bs] from its construction holds the last
    [buffer_size] elements of [bs]. *)
Lemma feed_state (N : Z) (bs : list bool) :
  0 <= N ->
  fst (run (init N) (map Should_alert bs))
  = {| buffer_size := N;
       recent_alerts := drop (length bs - Z.to_nat N) bs |}.
Proof.
  intros HN. induction bs as [| b bs IH] using rev_ind; [reflexivity |].
  rewrite map_app, run_app, IH. cbn [map run step fst].
  pose proof (should_alert_state
                {| buffer_size := N;
                   recent_alerts := drop (length bs - Z.to_nat N) bs |} b) as Hst.
  destruct (should_alert _ b) as [s r]. cbn [fst] in *. subst s. f_equal.
  unfold push_evict, pop0. cbn [recent_alerts buffer_size].
  rewrite !length_app, length_drop. cbn [length].
  destruct (Z.gtb_spec (Z.of_nat (length bs - (length bs - Z.to_nat N) + 1)) N)
    as [Hgt | Hle].
  - assert (Hlen : (Z.to_nat N <= length bs)%nat) by lia.
    replace (length bs + 1 - Z.to_nat N)%nat
      with (length bs - Z.to_nat N + 1)%nat by lia.
    rewrite <- drop_drop, drop_app_le by lia.
    destruct (drop (length bs - Z.to_nat N) bs ++ [b]); reflexivity.
  - replace (length bs - Z.to_nat N)%nat with 0%nat by lia.
    replace (length bs + 1 - Z.to_nat N)%nat with 0%nat by lia.
    reflexivity.
Qed.

(** Temporal confirmation: the call is answered true exactly when at least
    [buffer_size] raw alerts have been fed and the last [buffer_size] of
    them, the current one included, are all true. *)
Lemma feed_answer (N : Z) (bs : list bool) (b : bool) :
  0 <= N ->
  let self := fst (run (init N) (map Should_alert bs)) in
  let raw := bs ++ [b] in
  snd (should_alert self b) = true <->
  (Z.to_nat N <= length raw)%nat /\
  Forall (fun x => x = true) (drop (length raw - Z.to_nat N) raw).
Proof.
  intros HN self raw.
  assert (Hpush : push_evict self b = drop (length raw - Z.to_nat N) raw).
  { pose proof (feed_state N raw HN) as H. subst raw.
    rewrite map_app, run_app in H. cbn [map run step fst] in H. fold self in H.
    pose proof (should_alert_state self b) as Hst.
    destruct (should_alert self b) as [s r]. cbn [fst] in *.
    rewrite Hst in H. now inversion H. }
  assert (Hsize : buffer_size self = N).
  { subst self. now rewrite feed_state. }
  rewrite should_alert_answer, andb_true_iff, Z.eqb_eq, forallb_id_true.
  rewrite Hpush, Hsize, length_drop.
  split; intros [H1 H2]; (split; [lia | exact H2]).
Qed.

End BufferFacts.

(** C3.  [should_alert] answers true exactly when, after the current raw
    alert has been appended and the oldest entry dropped if the list then
    exceeds the capacity, the list holds exactly [buffer_size] entries and
    all of them are true.  On a buffer used from its construction this means:
    at least [buffer_size] raw alerts were fed and the last [buffer_size] of
    them are all true.  From an empty buffer of size 3, the raw alerts
    [true, true, false, true, true, true] are answered true at the sixth call
    only. *)
Theorem C3_should_alert_iff_full_and_all_true :
  (forall (self : TemporalAlertBuffer.t) (current_prediction : bool),
     let pushed := TemporalAlertBuffer.recent_alerts self ++ [current_prediction] in
     let kept :=
       if decide (TemporalAlertBuffer.buffer_size self < Z.of_nat (length pushed))
       then drop 1 pushed else pushed in
     let '(self', answer) :=
       TemporalAlertBuffer.should_alert self current_prediction in
     TemporalAlertBuffer.recent_alerts self' = kept /\
     TemporalAlertBuffer.buffer_size self' = TemporalAlertBuffer.buffer_size self /\
     (answer = true <->
        Z.of_nat (length kept) = TemporalAlertBuffer.buffer_size self /\
        Forall (fun x => x = true) kept))
  /\ (forall (N : Z) (earlier : list bool) (current_prediction : bool),
        0 <= N ->
        let self :=
          fst (TemporalAlertBuffer.run (TemporalAlertBuffer.init N)
                 (map TemporalAlertBuffer.Should_alert earlier)) in
        let raw := earlier ++ [current_prediction] in
        snd (TemporalAlertBuffer.should_alert self current_prediction) = true <->
        (Z.to_nat N <= length raw)%nat /\
        Forall (fun x => x = true) (drop (length raw - Z.to_nat N) raw))
  /\ TemporalAlertBuffer.feed (TemporalAlertBuffer.init 3)
       [true; true; false; true; true; true]
     = [false; false; false; false; false; true].
Proof.
  split; [| split; [exact feed_answer | reflexivity]].
  intros self b pushed kept.
  pose proof (should_alert_state self b) as Hst.
  pose proof (should_alert_answer self b) as Hans.
  destruct (TemporalAlertBuffer.should_alert self b) as [self' answer].
  simpl in Hst, Hans. subst self' answer. simpl.
  assert (Hkept : TemporalAlertBuffer.push_evict self b = kept).
  { subst kept pushed.
    unfold TemporalAlertBuffer.push_evict, TemporalAlertBuffer.pop0.
    destruct (Z.gtb_spec
                (Z.of_nat (length (TemporalAlertBuffer.recent_alerts self ++ [b])))
                (TemporalAlertBuffer.buffer_size self)) as [Hgt | Hle];
      destruct (decide _) as [Hd | Hd]; try lia; reflexivity. }
  rewrite Hkept. split; [reflexivity | split; [reflexivity |]].
  rewrite andb_true_iff, Z.eqb_eq, forallb_id_true. reflexivity.
Qed.

(** C5. With a capacity [N >= 0], after every call of a session started by
    the constructor (calls to [should_alert] and [reset] in any order) the
    list [recent_alerts] holds at most [N] entries; and [reset] leaves the
    list empty whatever the buffer was. *)
Theorem C5_buffer_length_bounded_and_reset (N : Z)
    (cs : list TemporalAlertBuffer.call) (k : nat) :
  0 <= N ->
  Z.of_nat (length (TemporalAlertBuffer.recent_alerts
                      (fst (TemporalAlertBuffer.run (TemporalAlertBuffer.init N)
                                                    (take k cs))))) <= N
  /\ forall self : TemporalAlertBuffer.t,
       TemporalAlertBuffer.recent_alerts (TemporalAlertBuffer.reset self) = [].
Proof.
  intros HN. split; [| reflexivity].
  apply (run_bounded (take k cs) (TemporalAlertBuffer.init N)); simpl; lia.
Qed.

Lemma C5_witness :
  0 <= 2 /\
  (Z.of_nat (length (TemporalAlertBuffer.recent_alerts
      (fst (TemporalAlertBuffer.run (TemporalAlertBuffer.init 2)
              (take 4 [TemporalAlertBuffer.Should_alert true;
                       TemporalAlertBuffer.Should_alert false;
                       TemporalAlertBuffer.Should_alert true;
                       TemporalAlertBuffer.Should_alert true;
                       TemporalAlertBuffer.Reset]))))) <= 2
   /\ forall self : TemporalAlertBuffer.t,
        TemporalAlertBuffer.recent_alerts (TemporalAlertBuffer.reset self) = []).
Proof.
  split; [lia |].
  apply (C5_buffer_length_bounded_and_reset 2
           [TemporalAlertBuffer.Should_alert true;
            TemporalAlertBuffer.Should_alert false;
            TemporalAlertBuffer.Should_alert true;
            TemporalAlertBuffer.Should_alert true;
            TemporalAlertBuffer.Reset] 4).
  lia.
Defined.

(* ===================================================================== *)
(** * Degenerate capacities *)
(* ===================================================================== *)

Section DegenerateCapacity.
Import TemporalAlertBuffer.

(** With a negative capacity the appended entry is always evicted and the
    length test never succeeds. *)
Lemma should_alert_negative (self : t) (b : bool) :
  buffer_size self < 0 -> snd (should_alert self b) = false.
Proof.
  intros Hneg. rewrite should_alert_answer.
  destruct (Z.eqb_spec (Z.of_nat (length (push_evict self b))) (buffer_size self));
    [lia | reflexivity].
Qed.

Lemma should_alert_zero (b : bool) : should_alert (init 0) b = (init 0, true).
Proof. now destruct b. Qed.

Lemma run_zero (cs : list call) :
  fst (run (init 0) cs) = init 0 /\
  Forall (fun r => r = None \/ r = Some true) (snd (run (init 0) cs)).
Proof.
  induction cs as [| c cs [IH1 IH2]]; cbn [run].
  - split; [reflexivity | constructor].
  - assert (Hstep : step (init 0) c = (init 0, match c with
                                                | Should_alert _ => Some true
                                                | Reset => None
                                                end)).
    { destruct c as [b |]; [| reflexivity]. unfold step. now rewrite should_alert_zero. }
    rewrite Hstep. destruct (run (init 0) cs) as [s' rs]. simpl in *.
    split; [exact IH1 |].
    constructor; [destruct c; auto | exact IH2].
Qed.

End DegenerateCapacity.

(** The cascade of [calculate_risk_score], opened stage by stage. *)
Ltac cascade self features :=
  unfold EnhancedRiskScorer.calculate_risk_score;
  let pl := fresh "is_plausible" in
  let cr := fresh "is_critical" in
  destruct (EnhancedRiskScorer.check_physiological_plausibility self features)
    as [pl ?plausibility_reason] eqn:?Hplausible;
  destruct pl; cbn [negb];
  [ destruct (EnhancedRiskScorer.check_critical_condition self features)
      as [cr ?critical_reason] eqn:?Hcritical;
    destruct (cr && EnhancedRiskScorer.critical_override self) eqn:?Hoverride;
    [ | destruct (EnhancedRiskScorer.count_abnormal_signals self features)
          as [?abnormal_count ?abnormal_signals] eqn:?Hcount;
        destruct (_ <? EnhancedRiskScorer.min_abnormal_signals self) eqn:?Hfew;
        [ | destruct (EnhancedRiskScorer.assess_motion_artifact self features)
              as [?is_high_motion ?motion_level] eqn:?Hmotion;
            destruct (_ && negb cr) eqn:?Hsuppress_motion;
            [ | destruct (flt _ (EnhancedRiskScorer.min_confidence self) && negb cr)
                  eqn:?Hsuppress_conf;
                [ | destruct (TemporalAlertBuffer.should_alert _ _)
                      as [?buffer' ?buffered_alert] eqn:?Hbuffer;
                    destruct buffered_alert ] ] ] ]
  | ].

Section ZeroCapacityScorer.
Import EnhancedRiskScorer.

Lemma calculate_zero_capacity (self : t) (features : Features)
    (anomaly_score confidence : float) :
  alert_buffer self = TemporalAlertBuffer.init 0 ->
  let '(r, self') := calculate_risk_score self features anomaly_score confidence in
  alert_buffer self' = TemporalAlertBuffer.init 0 /\
  stage (debug_info r) <> awaiting_confirmation /\
  (stage (debug_info r) = confirmed_alert -> should_alert r = true).
Proof.
  intros Hbuf. cascade self features; simpl;
    try (split; [exact Hbuf | split; [discriminate | try discriminate; auto]]).
  - rewrite Hbuf, should_alert_zero in Hbuffer. now inversion Hbuffer.
  - rewrite Hbuf, should_alert_zero in Hbuffer. discriminate.
Qed.

Lemma run_zero_capacity (ws : list Window) : forall self : t,
  alert_buffer self = TemporalAlertBuffer.init 0 ->
  Forall (fun r => stage (debug_info r) <> awaiting_confirmation /\
                   (stage (debug_info r) = confirmed_alert -> should_alert r = true))
         (fst (run self ws)).
Proof.
  induction ws as [| w ws IH]; intros self Hbuf; simpl; [constructor |].
  pose proof (calculate_zero_capacity self (w_features w) (w_anomaly_score w)
                (w_confidence w) Hbuf) as H.
  destruct (calculate_risk_score _ _ _ _) as [r s].
  destruct H as (Hs & H1 & H2).
  specialize (IH s Hs). destruct (run s ws) as [rs s']. simpl in *.
  constructor; auto.
Qed.

End ZeroCapacityScorer.

(** C9.  The claim fails: the constructors validate nothing.  What holds is
    that a negative [temporal_buffer_size] is accepted and stored by both
    constructors, and that on such a buffer every [should_alert] call, from
    any contents and for any raw alert, answers false. *)
Theorem C9_negative_size_accepted (n : Z) (min_confidence : float)
    (min_abnormal_signals : Z) (motion_threshold : float)
    (critical_override : bool) :
  n < 0 ->
  TemporalAlertBuffer.new n
    = Returns {| TemporalAlertBuffer.buffer_size := n;
                 TemporalAlertBuffer.recent_alerts := [] |}
  /\ EnhancedRiskScorer.new n min_confidence min_abnormal_signals
       motion_threshold critical_override
     = Returns (EnhancedRiskScorer.init n min_confidence min_abnormal_signals
                  motion_threshold critical_override)
  /\ forall (contents : list bool) (current_prediction : bool),
       snd (TemporalAlertBuffer.should_alert
              {| TemporalAlertBuffer.buffer_size := n;
                 TemporalAlertBuffer.recent_alerts := contents |}
              current_prediction) = false.
Proof.
  intros Hneg. split; [reflexivity | split; [reflexivity |]].
  intros contents b. now apply should_alert_negative.
Qed.

Lemma C9_witness :
  TemporalAlertBuffer.new (-1)
    = Returns {| TemporalAlertBuffer.buffer_size := -1;
                 TemporalAlertBuffer.recent_alerts := [] |}
  /\ EnhancedRiskScorer.new (-1) lit_0_7 2 lit_0_5 true
     = Returns (EnhancedRiskScorer.init (-1) lit_0_7 2 lit_0_5 true)
  /\ forall (contents : list bool) (current_prediction : bool),
       snd (TemporalAlertBuffer.should_alert
              {| TemporalAlertBuffer.buffer_size := -1;
                 TemporalAlertBuffer.recent_alerts := contents |}
              current_prediction) = false.
Proof. apply (C9_negative_size_accepted (-1) lit_0_7 2 lit_0_5 true). lia. Defined.

(** C9, as stated, refuted: constructing with [temporal_buffer_size = -1]
    raises nothing, for the buffer and for the scorer. *)
Lemma C9_counterexample :
  ~ ((exists e, TemporalAlertBuffer.new (-1) = Raises e) \/
     (exists e, EnhancedRiskScorer.new (-1) lit_0_7 2 lit_0_5 true = Raises e)).
Proof. intros [[e H] | [e H]]; discriminate H. Qed.

(** C10.  With [buffer_size = 0], every [should_alert] call of a session
    answers true whatever raw alert is passed; hence every window of a scorer
    built with [temporal_buffer_size = 0] that reaches the temporal stage is
    reported as [confirmed_alert] with [alert = true] and never as
    [awaiting_confirmation], even with a risk score of at most 70 (here
    40). *)
Theorem C10_zero_capacity_always_confirms :
  (forall cs : list TemporalAlertBuffer.call,
     Forall (fun r => r = None \/ r = Some true)
            (snd (TemporalAlertBuffer.run (TemporalAlertBuffer.init 0) cs)))
  /\ (forall (min_confidence : float) (min_abnormal_signals : Z)
             (motion_threshold : float) (critical_override : bool)
             (ws : list EnhancedRiskScorer.Window),
        Forall (fun r =>
                  EnhancedRiskScorer.stage (EnhancedRiskScorer.debug_info r)
                    <> EnhancedRiskScorer.awaiting_confirmation /\
                  (EnhancedRiskScorer.stage (EnhancedRiskScorer.debug_info r)
                     = EnhancedRiskScorer.confirmed_alert ->
                   EnhancedRiskScorer.should_alert r = true))
               (fst (EnhancedRiskScorer.run
                       (EnhancedRiskScorer.init 0 min_confidence
                          min_abnormal_signals motion_threshold critical_override)
                       ws)))
  /\ (let r := fst (EnhancedRiskScorer.calculate_risk_score
                      (EnhancedRiskScorer.init 0 lit_0_7 2 lit_0_5 true)
                      {[ "spo2_mean" := Z2SF 91; "sbp_mean" := Z2SF 95 ]}
                      (fdiv (Z2SF 3) (Z2SF 10)) (fdiv (Z2SF 9) (Z2SF 10))) in
      EnhancedRiskScorer.stage (EnhancedRiskScorer.debug_info r)
        = EnhancedRiskScorer.confirmed_alert /\
      EnhancedRiskScorer.should_alert r = true /\
      EnhancedRiskScorer.risk_score r = Z2SF 40 /\
      fle (EnhancedRiskScorer.risk_score r) (Z2SF 70) = true).
Proof.
  split; [| split].
  - intros cs. apply run_zero.
  - intros. now apply run_zero_capacity.
  - vm_compute. auto.
Qed.

(* ===================================================================== *)
(** * Comparisons of binary64 values *)
(* ===================================================================== *)

Section Comparisons.

Lemma SFcompare_antisym (x y : float) :
  SFcompare y x = option_map CompOpp (SFcompare x y).
Proof.
  destruct x as [sx | sx | | sx mx ex], y as [sy | sy | | sy my ey]; simpl;
    try reflexivity;
    try (destruct sx; reflexivity); try (destruct sy; reflexivity);
    try (destruct sx, sy; reflexivity).
  destruct sx, sy; simpl; try reflexivity;
    rewrite (Z.compare_antisym ex ey);
    destruct (ex ?= ey); simpl; try reflexivity;
    change (Pos.compare_cont Eq my mx) with (Pos.compare my mx);
    change (Pos.compare_cont Eq mx my) with (Pos.compare mx my);
    rewrite (Pos.compare_antisym mx my);
    now rewrite ?CompOpp_involutive.
Qed.

Lemma SFcompare_defined (x y : float) :
  x <> S754_nan -> y <> S754_nan -> exists c, SFcompare x y = Some c.
Proof.
  intros Hx Hy.
  destruct x as [sx | sx | | sx mx ex], y as [sy | sy | | sy my ey];
    try congruence; simpl; eauto.
Qed.

Lemma flt_not_nan_l (x y : float) : flt x y = true -> x <> S754_nan.
Proof. intros H ->. discriminate H. Qed.

Lemma flt_not_nan_r (x y : float) : flt x y = true -> y <> S754_nan.
Proof. intros H ->. destruct x; discriminate H. Qed.

(** Between two numbers, [c <= x] is the negation of [x < c]. *)
Lemma fle_negb_flt (c x : float) :
  c <> S754_nan -> x <> S754_nan -> fle c x = negb (flt x c).
Proof.
  intros Hc Hx. destruct (SFcompare_defined x c Hx Hc) as [k Hk].
  unfold fle, flt, SFleb, SFltb. rewrite (SFcompare_antisym x c), Hk.
  now destruct k.
Qed.

(** The two-sided rows of the rule table, read as the [elif] of the code. *)
Lemma band_low (c c' x : float) :
  c <> S754_nan ->
  fle c x && flt x c' = negb (flt x c) && flt x c'.
Proof.
  intros Hc. destruct (flt x c') eqn:H; [| now rewrite !andb_false_r].
  now rewrite (fle_negb_flt c x Hc (flt_not_nan_l _ _ H)).
Qed.

Lemma band_high (c c' x : float) :
  c' <> S754_nan ->
  flt c x && fle x c' = flt c x && negb (flt c' x).
Proof.
  intros Hc. destruct (flt c x) eqn:H; [| reflexivity].
  now rewrite (fle_negb_flt x c' (flt_not_nan_r _ _ H) Hc).
Qed.

End Comparisons.

(* ===================================================================== *)
(** * The safety override *)
(* ===================================================================== *)

(** The gate over the truth values of its nine comparisons: every one of the
    512 assignments is checked by evaluation. *)
Lemma safety_override_cases (b90 b92 b94 h140 h120 h110 s90 s100 m180 : bool) :
  let st := (false, Z2SF 0) in
  let st := if b90 then App.trigger st (Z2SF 95)
            else if b92 then App.trigger st (Z2SF 80) else st in
  let st := if h140 then App.trigger st (Z2SF 95)
            else if h120 then App.trigger st (Z2SF 75) else st in
  let st := if s90 then App.trigger st (Z2SF 95)
            else if s100 then App.trigger st (Z2SF 75) else st in
  let st := if m180 then App.trigger st (Z2SF 90) else st in
  let st := if b94 && h110 then App.trigger st (Z2SF 85) else st in
  let rules := [ (b90, Z2SF 95); (negb b90 && b92, Z2SF 80);
                 (h140, Z2SF 95); (h120 && negb h140, Z2SF 75);
                 (s90, Z2SF 95); (negb s90 && s100, Z2SF 75);
                 (m180, Z2SF 90); (b94 && h110, Z2SF 85) ] in
  let scores := map snd (filter (fun r => fst r = true) rules) in
  (fst st = true <-> Exists (fun r => fst r = true) rules) /\
  (fst st = true ->
   snd st ∈ scores /\ Forall (fun s => fle s (snd st) = true) scores).
Proof.
  revert b90 b92 b94 h140 h120 h110 s90 s100 m180.
  apply (bool_decide_unpack _). vm_compute. exact I.
Qed.

(** C2.  The gate raises its flag exactly when some row of the rule table
    holds; the score it then reports is the score of a triggered row and is
    at least the score of every triggered row; [predict] then answers with
    that score and [safety_override = true] without consulting the
    model-based path.  For [min_spo2 = 67], [max_hr = 160], [min_sbp = 80]
    (any [max_sbp]) the gate reports 95. *)
Theorem C2_safety_override_max_of_triggered :
  (forall v : App.RawVitalsSummary,
     let safety_triggered := fst (App.safety_override v) in
     let safety_score := snd (App.safety_override v) in
     (safety_triggered = true <-> Exists (fun r => fst r = true) (App.spec_rules v))
     /\ (safety_triggered = true ->
         safety_score ∈ App.triggered_scores v /\
         Forall (fun s => fle s safety_score = true) (App.triggered_scores v))
     /\ (safety_triggered = true ->
         forall (confidence_mean : float) (model_based : unit -> App.Response),
           App.predict v confidence_mean model_based
           = {| App.anomaly := true; App.risk_score := safety_score;
                App.confidence := confidence_mean;
                App.safety_override_flag := true |}))
  /\ (forall max_sbp : float,
        App.safety_override
          {| App.min_spo2 := Z2SF 67; App.max_hr := Z2SF 160;
             App.min_sbp := Z2SF 80; App.max_sbp := max_sbp |}
        = (true, Z2SF 95)).
Proof.
  split.
  - intros v safety_triggered safety_score.
    assert (Hgate :
      (safety_triggered = true <-> Exists (fun r => fst r = true) (App.spec_rules v))
      /\ (safety_triggered = true ->
          safety_score ∈ App.triggered_scores v /\
          Forall (fun s => fle s safety_score = true) (App.triggered_scores v))).
    { subst safety_triggered safety_score.
      unfold App.triggered_scores, App.spec_rules, App.safety_override.
      rewrite !band_low, band_high by (vm_compute; discriminate).
      unfold fgt.
      exact (safety_override_cases
               (flt (App.min_spo2 v) (Z2SF 90)) (flt (App.min_spo2 v) (Z2SF 92))
               (flt (App.min_spo2 v) (Z2SF 94)) (flt (Z2SF 140) (App.max_hr v))
               (flt (Z2SF 120) (App.max_hr v)) (flt (Z2SF 110) (App.max_hr v))
               (flt (App.min_sbp v) (Z2SF 90)) (flt (App.min_sbp v) (Z2SF 100))
               (flt (Z2SF 180) (App.max_sbp v))). }
    destruct Hgate as [H1 H2]. split; [exact H1 | split; [exact H2 |]].
    intros Ht confidence_mean model_based. unfold App.predict.
    subst safety_triggered safety_score.
    destruct (App.safety_override v) as [t s]. simpl in *. now subst t.
  - intros max_sbp. unfold App.safety_override.
    cbn [App.min_spo2 App.max_hr App.min_sbp App.max_sbp]. unfold fgt.
    destruct (flt (Z2SF 180) max_sbp); reflexivity.
Qed.

(* ===================================================================== *)
(** * The scoring cascade on particular windows *)
(* ===================================================================== *)


Section ParticularWindows.
Import EnhancedRiskScorer.

Variable self : t.
Hypothesis Hth : THRESHOLDS self = init_THRESHOLDS.

Ltac use_defaults H :=
  destruct H as (H1 & H2 & H3 & H4 & H5 & H6 & H7 & H8);
  unfold get; rewrite ?H1, ?H2, ?H3, ?H4, ?H5, ?H6, ?H7, ?H8, ?Hth.

Lemma defaults_plausible (features : Features) :
  no_physiological_field features ->
  check_physiological_plausibility self features = (true, "").
Proof.
  intros H. unfold check_physiological_plausibility.
  use_defaults H. reflexivity.
Qed.

Lemma defaults_not_critical (features : Features) :
  no_physiological_field features ->
  check_critical_condition self features = (false, "").
Proof.
  intros H. unfold check_critical_condition.
  use_defaults H. reflexivity.
Qed.

Lemma defaults_no_abnormal_signal (features : Features) :
  no_physiological_field features ->
  count_abnormal_signals self features = (0, []).
Proof.
  intros H. unfold count_abnormal_signals.
  use_defaults H. reflexivity.
Qed.

End ParticularWindows.

(** C8.  When every physiological field is absent from the dict, the scorer
    (thresholds of the constructor, [min_abnormal_signals = 2], any other
    setting and any buffer contents) returns, for every anomaly score and
    confidence, [stage = insufficient_signals], [alert = false] and
    [risk_score = anomaly_score * 50], and leaves the scorer unchanged; in
    particular it returns neither [critical_override] nor an alert. *)
Theorem C8_missing_fields_never_alert (self : EnhancedRiskScorer.t)
    (features : Features) (anomaly_score confidence : float) :
  EnhancedRiskScorer.THRESHOLDS self = EnhancedRiskScorer.init_THRESHOLDS ->
  EnhancedRiskScorer.min_abnormal_signals self = 2 ->
  no_physiological_field features ->
  let '(r, self') :=
    EnhancedRiskScorer.calculate_risk_score self features anomaly_score confidence in
  EnhancedRiskScorer.stage (EnhancedRiskScorer.debug_info r)
    = EnhancedRiskScorer.insufficient_signals /\
  EnhancedRiskScorer.stage (EnhancedRiskScorer.debug_info r)
    <> EnhancedRiskScorer.critical_override_stage /\
  EnhancedRiskScorer.should_alert r = false /\
  EnhancedRiskScorer.risk_score r = fmul anomaly_score (Z2SF 50) /\
  self' = self.
Proof.
  intros Hth Hmin Habsent.
  unfold EnhancedRiskScorer.calculate_risk_score.
  rewrite (defaults_plausible self Hth features Habsent).
  rewrite (defaults_not_critical self Hth features Habsent).
  rewrite (defaults_no_abnormal_signal self Hth features Habsent).
  rewrite Hmin. cbn. repeat split. discriminate.
Qed.

Lemma C8_witness :
  let '(r, self') :=
    EnhancedRiskScorer.calculate_risk_score EnhancedRiskScorer.init_default
      {[ "motion_std" := lit_0_8 ]} lit_0_7 lit_0_8 in
  EnhancedRiskScorer.stage (EnhancedRiskScorer.debug_info r)
    = EnhancedRiskScorer.insufficient_signals /\
  EnhancedRiskScorer.stage (EnhancedRiskScorer.debug_info r)
    <> EnhancedRiskScorer.critical_override_stage /\
  EnhancedRiskScorer.should_alert r = false /\
  EnhancedRiskScorer.risk_score r = fmul lit_0_7 (Z2SF 50) /\
  self' = EnhancedRiskScorer.init_default.
Proof.
  apply (C8_missing_fields_never_alert EnhancedRiskScorer.init_default
           {[ "motion_std" := lit_0_8 ]} lit_0_7 lit_0_8).
  - reflexivity.
  - reflexivity.
  - unfold no_physiological_field. repeat split; reflexivity.
Defined.

(** C6.  The claim fails on its stage: the window has a single abnormal
    signal ([spo2_mean = 91 < 92]), so the cascade stops at stage 3, before
    the motion test.  For every confidence and every buffer contents the
    default scorer returns [stage = insufficient_signals], [alert = false]
    and [risk_score = 0.7 * 50 = 35], and leaves the buffer untouched. *)
Theorem C6_motion_window_insufficient_signals
    (confidence : float) (buffer : list bool) :
  let self :=
    EnhancedRiskScorer.with_buffer EnhancedRiskScorer.init_default
      {| TemporalAlertBuffer.buffer_size := 3;
         TemporalAlertBuffer.recent_alerts := buffer |} in
  let '(r, self') :=
    EnhancedRiskScorer.calculate_risk_score self test_features_motion
      lit_0_7 confidence in
  EnhancedRiskScorer.stage (EnhancedRiskScorer.debug_info r)
    = EnhancedRiskScorer.insufficient_signals /\
  EnhancedRiskScorer.abnormal_signals (EnhancedRiskScorer.debug_info r)
    = ["spo2_low"] /\
  EnhancedRiskScorer.should_alert r = false /\
  EnhancedRiskScorer.risk_score r = Z2SF 35 /\
  self' = self.
Proof. vm_compute. repeat split. Qed.

(** C6, as stated, refuted: with the confidence 0.7 of the source's own
    example the stage returned is not [motion_artifact]. *)
Lemma C6_counterexample :
  ~ (let r := fst (EnhancedRiskScorer.calculate_risk_score
                     EnhancedRiskScorer.init_default test_features_motion
                     lit_0_7 lit_0_7) in
     EnhancedRiskScorer.stage (EnhancedRiskScorer.debug_info r)
       = EnhancedRiskScorer.motion_artifact /\
     EnhancedRiskScorer.should_alert r = false).
Proof. vm_compute. intros [H _]. discriminate H. Qed.

(* ===================================================================== *)
(** * Binary64 rounding: digits, shifts and the arithmetic form *)
(* ===================================================================== *)

Lemma digits2_pos_size (p : positive) : digits2_pos p = Pos.size p.
Proof. induction p; simpl; congruence. Qed.

Lemma Zdigits2_bounds (m : Z) :
  0 < m -> 2 ^ (Zdigits2 m - 1) <= m < 2 ^ Zdigits2 m.
Proof.
  destruct m as [| p | p]; try lia. intros _. simpl.
  rewrite digits2_pos_size.
  pose proof (Pos.size_gt p) as Hgt. pose proof (Pos.size_le p) as Hle.
  assert (H2 : Z.pos (2 ^ Pos.size p) = 2 ^ Z.pos (Pos.size p)) by apply Pos2Z.inj_pow.
  split.
  - assert (2 * 2 ^ (Z.pos (Pos.size p) - 1) = 2 ^ Z.pos (Pos.size p)).
    { rewrite <- Z.pow_succ_r by lia. f_equal. lia. }
    lia.
  - lia.
Qed.

Lemma Zdigits2_pos (m : Z) : 0 < m -> 0 < Zdigits2 m.
Proof. destruct m; simpl; lia. Qed.

Lemma Zdigits2_unique (m d : Z) :
  2 ^ (d - 1) <= m < 2 ^ d -> 0 < m -> Zdigits2 m = d.
Proof.
  intros [Hlo Hhi] Hm.
  pose proof (Zdigits2_bounds m Hm) as [Hlo' Hhi'].
  pose proof (Zdigits2_pos m Hm) as Hd'.
  assert (Hd : 0 < d).
  { destruct d as [| p | p]; [change (2 ^ 0) with 1 in Hhi; lia | lia |].
    rewrite Z.pow_neg_r in Hhi by lia. lia. }
  destruct (Z.lt_trichotomy (Zdigits2 m) d) as [H | [H | H]]; [| assumption |].
  - assert (2 ^ Zdigits2 m <= 2 ^ (d - 1)) by (apply Z.pow_le_mono_r; lia). lia.
  - assert (2 ^ d <= 2 ^ (Zdigits2 m - 1)) by (apply Z.pow_le_mono_r; lia). lia.
Qed.

Lemma Zdigits2_mono (m1 m2 : Z) : 0 < m1 -> m1 <= m2 -> Zdigits2 m1 <= Zdigits2 m2.
Proof.
  intros H1 H12.
  pose proof (Zdigits2_bounds m1 H1) as [Hlo1 _].
  pose proof (Zdigits2_bounds m2 ltac:(lia)) as [_ Hhi2].
  destruct (Z.le_gt_cases (Zdigits2 m1) (Zdigits2 m2)); [assumption |].
  assert (2 ^ Zdigits2 m2 <= 2 ^ (Zdigits2 m1 - 1)) by (apply Z.pow_le_mono_r; lia). lia.
Qed.

Lemma Zdigits2_shift (m j : Z) : 0 < m -> 0 <= j -> Zdigits2 (m * 2 ^ j) = Zdigits2 m + j.
Proof.
  intros Hm Hj. pose proof (Zdigits2_bounds m Hm) as [Hlo Hhi].
  pose proof (Zdigits2_pos m Hm).
  assert (0 < 2 ^ j) by (apply Z.pow_pos_nonneg; lia).
  apply Zdigits2_unique; [| nia].
  replace (Zdigits2 m + j - 1) with (Zdigits2 m - 1 + j) by lia.
  rewrite !Z.pow_add_r by lia. nia.
Qed.

Section ShiftRight.

Lemma iter_pos_swap {A} (f : A -> A) (p : positive) : forall x,
  SpecFloat.iter_pos f p (f x) = f (SpecFloat.iter_pos f p x).
Proof.
  induction p as [p IH | p IH |]; intros x; simpl; [| | reflexivity].
  - now rewrite !IH.
  - now rewrite !IH.
Qed.

Lemma iter_pos_succ {A} (f : A -> A) (p : positive) : forall x,
  SpecFloat.iter_pos f (Pos.succ p) x = f (SpecFloat.iter_pos f p x).
Proof.
  induction p as [p IH | p IH |]; intros x; simpl.
  - rewrite !IH. now rewrite !iter_pos_swap.
  - now rewrite !iter_pos_swap.
  - reflexivity.
Qed.

Lemma iter_pos_nat {A} (f : A -> A) (p : positive) (x : A) :
  SpecFloat.iter_pos f p x = Nat.iter (Pos.to_nat p) f x.
Proof.
  induction p as [| p IH] using Pos.peano_ind.
  - reflexivity.
  - rewrite iter_pos_succ, Pos2Nat.inj_succ, IH. reflexivity.
Qed.

Lemma shr_1_spec (mrs : shr_record) :
  0 <= shr_m mrs ->
  shr_m (shr_1 mrs) = shr_m mrs / 2 /\
  shr_r (shr_1 mrs) = Z.odd (shr_m mrs) /\
  shr_s (shr_1 mrs) = shr_r mrs || shr_s mrs.
Proof.
  destruct mrs as [m r s]. simpl. intros Hm.
  rewrite <- Z.div2_div.
  destruct m as [| [p | p |] | p]; try lia; simpl; auto.
Qed.

(** [n] one-bit shifts of an exact non-negative mantissa: the quotient, the
    round bit and the sticky bit. *)
Lemma shr_iter_spec (m : Z) (n : nat) :
  0 <= m ->
  let mrs := Nat.iter n shr_1 (Build_shr_record m false false) in
  let P := 2 ^ Z.of_nat n in
  shr_m mrs = m / P /\
  shr_r mrs = (P <=? 2 * (m mod P)) /\
  shr_s mrs = negb ((2 * (m mod P)) mod P =? 0).
Proof.
  intros Hm. induction n as [| n IH].
  - simpl. rewrite Z.div_1_r, Z.mod_1_r. auto.
  - cbv zeta in IH |- *. rewrite Nat2Z.inj_succ, Z.pow_succ_r by lia.
    rewrite Nat.iter_succ.
    set (mrs := Nat.iter n shr_1 _) in *.
    set (P := 2 ^ Z.of_nat n) in *.
    destruct IH as (IHm & IHr & IHs).
    assert (HP : 0 < P) by (apply Z.pow_pos_nonneg; lia).
    pose proof (Z.div_mod m P ltac:(lia)) as Hdm.
    pose proof (Z.mod_pos_bound m P HP) as Hrn.
    set (q := m / P) in *. set (rn := m mod P) in *.
    assert (Hq : 0 <= q) by (apply Z.div_pos; lia).
    destruct (shr_1_spec mrs ltac:(lia)) as (Sm & Sr & Ss).
    pose proof (Z.div_mod q 2 ltac:(lia)) as Hq2.
    pose proof (Z.mod_pos_bound q 2 ltac:(lia)) as Hb.
    set (q2 := q / 2) in *. set (b := q mod 2) in *.
    assert (Hdiv : m / (2 * P) = q2).
    { symmetry. apply (Z.div_unique m (2 * P) q2 (P * b + rn)); nia. }
    assert (Hmod : m mod (2 * P) = P * b + rn).
    { symmetry. apply (Z.mod_unique m (2 * P) q2 (P * b + rn)); nia. }
    rewrite Hdiv, Hmod, Sm, Sr, Ss, IHm, IHr, IHs.
    split; [reflexivity | split].
    + rewrite Zodd_mod. fold b.
      destruct (Z.eqb_spec b 1), (Z.leb_spec (2 * P) (2 * (P * b + rn))); nia.
    + assert (H2 : (2 * (P * b + rn)) mod (2 * P) = 2 * rn).
      { symmetry. apply (Z.mod_unique _ (2 * P) b (2 * rn)); nia. }
      rewrite H2.
      destruct (Z.eqb_spec rn 0) as [-> | Hne].
      * rewrite Z.mul_0_r, Z.mod_0_l by lia.
        destruct (Z.leb_spec P 0); [lia | reflexivity].
      * destruct (Z.leb_spec P (2 * rn)) as [Hge | Hlt]; simpl.
        -- destruct (Z.eqb_spec (2 * rn) 0); [lia | reflexivity].
        -- rewrite (Z.mod_small (2 * rn) P) by lia.
           destruct (Z.eqb_spec (2 * rn) 0); [lia | reflexivity].
Qed.

Lemma shr_round_spec (m : Z) (n : nat) :
  0 <= m ->
  let mrs := Nat.iter n shr_1 (Build_shr_record m false false) in
  round_nearest_even (shr_m mrs) (loc_of_shr_record mrs) = rne_div m (Z.of_nat n).
Proof.
  intros Hm mrs. destruct (shr_iter_spec m n Hm) as (Sm & Sr & Ss).
  fold mrs in Sm, Sr, Ss. unfold rne_div.
  set (P := 2 ^ Z.of_nat n) in *.
  assert (HP : 0 < P) by (apply Z.pow_pos_nonneg; lia).
  pose proof (Z.mod_pos_bound m P HP) as Hrn.
  set (rn := m mod P) in *.
  destruct mrs as [q r s]. simpl in *. subst q r s.
  destruct (Z.ltb_spec (2 * rn) P) as [Hlt | Hge].
  - destruct (Z.leb_spec P (2 * rn)); [lia |].
    now destruct (negb _).
  - destruct (Z.leb_spec P (2 * rn)); [| lia].
    destruct (Z.eqb_spec (2 * rn) P) as [Heq | Hne].
    + rewrite Heq, Z.mod_same by lia. reflexivity.
    + assert (H2 : (2 * rn) mod P = 2 * rn - P).
      { symmetry. apply (Z.mod_unique _ P 1 (2 * rn - P)); lia. }
      rewrite H2. destruct (Z.eqb_spec (2 * rn - P) 0); [lia | reflexivity].
Qed.

End ShiftRight.

Section Rounding.
Variables prec emax : Z.
Hypothesis prec_pos : 0 < prec.

Local Abbreviation fexp := (SpecFloat.fexp prec emax).
Local Abbreviation emin := (SpecFloat.emin prec emax).

Lemma fexp_ge_emin (d : Z) : emin <= fexp d.
Proof. unfold SpecFloat.fexp. lia. Qed.

Lemma fexp_ge (d : Z) : d - prec <= fexp d.
Proof. unfold SpecFloat.fexp. lia. Qed.

Lemma fexp_mono (d1 d2 : Z) : d1 <= d2 -> fexp d1 <= fexp d2.
Proof. unfold SpecFloat.fexp. lia. Qed.

Lemma rne_div_0 (m : Z) : rne_div m 0 = m.
Proof.
  unfold rne_div. change (2 ^ 0) with 1.
  rewrite Z.div_1_r, Z.mod_1_r. reflexivity.
Qed.

Lemma rne_div_bounds (m k : Z) :
  0 <= k -> m / 2 ^ k <= rne_div m k <= m / 2 ^ k + 1.
Proof.
  intros Hk. unfold rne_div.
  destruct (_ <? _); [lia |]. destruct (_ =? _); [| lia].
  destruct (Z.even _); lia.
Qed.

(** The mantissa after the first shift has at most [prec] digits, so the
    rounded one is at most [2^prec]. *)
Lemma quotient_lt (m k d : Z) :
  0 <= m < 2 ^ d -> 0 <= k -> d - k <= prec -> m / 2 ^ k < 2 ^ prec.
Proof.
  intros [Hm0 Hm] Hk Hd.
  assert (HP : 0 < 2 ^ k) by (apply Z.pow_pos_nonneg; lia).
  apply Z.div_lt_upper_bound; [exact HP |].
  rewrite <- Z.pow_add_r by lia.
  assert (2 ^ d <= 2 ^ (k + prec)); [| lia].
  destruct (Z.le_gt_cases 0 d).
  - apply Z.pow_le_mono_r; lia.
  - rewrite Z.pow_neg_r in Hm; lia.
Qed.

Lemma Zdigits2_le_prec (q : Z) : 0 < q < 2 ^ prec -> Zdigits2 q <= prec.
Proof.
  intros [Hq0 Hq]. pose proof (Zdigits2_bounds q Hq0) as [Hlo _].
  destruct (Z.le_gt_cases (Zdigits2 q) prec); [assumption |].
  assert (2 ^ prec <= 2 ^ (Zdigits2 q - 1)) by (apply Z.pow_le_mono_r; lia).
  lia.
Qed.

Lemma Zdigits2_pow (n : Z) : 0 <= n -> Zdigits2 (2 ^ n) = n + 1.
Proof.
  intros Hn. assert (0 < 2 ^ n) by (apply Z.pow_pos_nonneg; lia).
  apply Zdigits2_unique; [| assumption].
  replace (n + 1 - 1) with n by lia. rewrite Z.pow_add_r by lia. lia.
Qed.

(** The second normalisation step of [binary_round_aux] and its final
    case analysis. *)
Lemma pack_spec (s : bool) (q E : Z) :
  0 <= q <= 2 ^ prec -> emin <= E ->
  (let '(mrs, e) := shr_fexp prec emax q E loc_Exact in
   match shr_m mrs with
   | Z0 => S754_zero s
   | Zpos m => if e <=? emax - prec then S754_finite s m e else S754_infinity s
   | Zneg _ => S754_nan
   end) = pack prec emax s q E.
Proof.
  intros [Hq0 Hq] HE. unfold pack, shr_fexp.
  cbn [shr_record_of_loc].
  destruct (Z.eqb_spec q 0) as [-> | Hne].
  - cbn [Zdigits2]. unfold shr.
    assert (Hn : fexp (0 + E) - E <= 0) by (unfold SpecFloat.fexp; lia).
    destruct (fexp (0 + E) - E); [reflexivity | lia | reflexivity].
  - destruct (Z.eqb_spec q (2 ^ prec)) as [-> | Hne2].
    + rewrite Zdigits2_pow by lia.
      assert (Hn : fexp (prec + 1 + E) - E = 1) by (unfold SpecFloat.fexp; lia).
      rewrite Hn. unfold shr. cbn [SpecFloat.iter_pos].
      destruct (shr_1_spec {| shr_m := 2 ^ prec; shr_r := false; shr_s := false |})
        as (Sm & _); [cbn; lia |].
      rewrite Sm. cbn [shr_m].
      assert (H2 : 2 ^ prec / 2 = 2 ^ (prec - 1)).
      { replace prec with (prec - 1 + 1) at 1 by lia.
        rewrite Z.pow_add_r by lia. change (2 ^ 1) with 2.
        apply Z.div_mul. lia. }
      rewrite H2.
      assert (Hp : 0 < 2 ^ (prec - 1)) by (apply Z.pow_pos_nonneg; lia).
      destruct (2 ^ (prec - 1)) as [| p | p] eqn:Hpow; try lia.
      reflexivity.
    + assert (Hd : Zdigits2 q <= prec) by (apply Zdigits2_le_prec; lia).
      assert (Hn : fexp (Zdigits2 q + E) - E <= 0) by (unfold SpecFloat.fexp; lia).
      unfold shr.
      destruct (fexp (Zdigits2 q + E) - E) as [| p | p]; try lia;
        cbn [shr_m]; destruct q as [| p' | p']; try lia; reflexivity.
Qed.

(** [binary_round_aux] on an exact positive mantissa that needs no left
    shift. *)
Lemma binary_round_aux_spec (s : bool) (m e : Z) :
  0 < m -> e <= fexp (Zdigits2 m + e) ->
  binary_round_aux prec emax s m e loc_Exact = round_pos prec emax s m e.
Proof.
  intros Hm He. unfold binary_round_aux, round_pos, round_mant.
  set (E := fexp (Zdigits2 m + e)) in *.
  destruct (Z.leb_spec e E) as [_ | ?]; [| lia].
  assert (Hfirst :
    let '(mrs, e') := shr_fexp prec emax m e loc_Exact in
    round_nearest_even (shr_m mrs) (loc_of_shr_record mrs) = rne_div m (E - e)
    /\ e' = E).
  { unfold shr_fexp. fold E. cbn [shr_record_of_loc]. unfold shr.
    destruct (E - e) as [| k | k] eqn:Hk; try lia.
    - rewrite rne_div_0. split; [reflexivity | lia].
    - rewrite iter_pos_nat.
      rewrite (shr_round_spec m (Pos.to_nat k)) by lia.
      rewrite positive_nat_Z. split; [reflexivity | lia]. }
  destruct (shr_fexp prec emax m e loc_Exact) as [mrs e'].
  destruct Hfirst as [-> ->].
  apply pack_spec; [| apply fexp_ge_emin].
  pose proof (Zdigits2_bounds m Hm) as [_ Hhi].
  pose proof (rne_div_bounds m (E - e) ltac:(lia)) as [Hlo Hup].
  assert (0 <= m / 2 ^ (E - e)) by (apply Z.div_pos; [lia | apply Z.pow_pos_nonneg; lia]).
  assert (m / 2 ^ (E - e) < 2 ^ prec).
  { apply (quotient_lt m (E - e) (Zdigits2 m)); try lia.
    pose proof (fexp_ge (Zdigits2 m + e)). subst E. lia. }
  lia.
Qed.

Lemma Pos_iter_xO (m d : positive) :
  Z.pos (Pos.iter xO m d) = Z.pos m * 2 ^ Z.pos d.
Proof.
  induction d as [| d IH] using Pos.peano_ind.
  - simpl. lia.
  - rewrite Pos.iter_succ, Pos2Z.inj_succ, Z.pow_succ_r by lia.
    rewrite Pos2Z.inj_xO, IH. lia.
Qed.

(** [binary_round]: any positive mantissa and exponent. *)
Lemma binary_round_spec (s : bool) (m : positive) (e : Z) :
  binary_round prec emax s m e = round_pos prec emax s (Z.pos m) e.
Proof.
  unfold binary_round, shl_align.
  change (Z.pos (digits2_pos m)) with (Zdigits2 (Z.pos m)).
  set (E := fexp (Zdigits2 (Z.pos m) + e)).
  destruct (E - e) as [| k | k] eqn:Hk.
  - apply binary_round_aux_spec; [lia | fold E; lia].
  - apply binary_round_aux_spec; [lia | fold E; lia].
  - assert (Hd : Zdigits2 (Z.pos (Pos.iter xO m k)) + E = Zdigits2 (Z.pos m) + e).
    { rewrite Pos_iter_xO, Zdigits2_shift by lia. lia. }
    rewrite binary_round_aux_spec; [| lia | rewrite Hd; fold E; lia].
    unfold round_pos, round_mant. rewrite Hd. fold E.
    destruct (Z.leb_spec E E) as [_ | ?]; [| lia].
    destruct (Z.leb_spec e E) as [? | _]; [lia |].
    rewrite Z.sub_diag, rne_div_0, Pos_iter_xO.
    do 3 f_equal. lia.
Qed.

End Rounding.

Section RoundingOrder.
Variables prec emax : Z.
Hypothesis prec_pos : 0 < prec.

Local Abbreviation fexp := (SpecFloat.fexp prec emax).
Local Abbreviation emin := (SpecFloat.emin prec emax).

Lemma pow2_pos (n : Z) : 0 <= n -> 0 < 2 ^ n.
Proof. intros. apply Z.pow_pos_nonneg; lia. Qed.

Lemma rne_div_exact (x k : Z) : 0 <= k -> rne_div (x * 2 ^ k) k = x.
Proof.
  intros Hk. pose proof (pow2_pos k Hk). unfold rne_div.
  rewrite Z.div_mul, Z.mod_mul by lia.
  destruct (Z.ltb_spec (2 * 0) (2 ^ k)); [reflexivity | lia].
Qed.

Lemma rne_div_scale (m k j : Z) :
  0 <= k -> 0 <= j -> rne_div (m * 2 ^ j) (k + j) = rne_div m k.
Proof.
  intros Hk Hj. pose proof (pow2_pos k Hk). pose proof (pow2_pos j Hj).
  unfold rne_div. rewrite Z.pow_add_r by lia.
  rewrite Z.div_mul_cancel_r by lia.
  rewrite Z.mul_mod_distr_r by lia.
  set (q := m / 2 ^ k). set (r := m mod 2 ^ k).
  destruct (Z.ltb_spec (2 * r) (2 ^ k)), (Z.ltb_spec (2 * (r * 2 ^ j)) (2 ^ k * 2 ^ j));
    try nia; try reflexivity.
  destruct (Z.eqb_spec (2 * r) (2 ^ k)), (Z.eqb_spec (2 * (r * 2 ^ j)) (2 ^ k * 2 ^ j));
    try nia; reflexivity.
Qed.

Lemma rne_div_mono (m1 m2 k : Z) :
  0 <= k -> 0 <= m1 <= m2 -> rne_div m1 k <= rne_div m2 k.
Proof.
  intros Hk Hm. pose proof (pow2_pos k Hk) as HP.
  pose proof (rne_div_bounds m1 k Hk). pose proof (rne_div_bounds m2 k Hk).
  assert (Hq : m1 / 2 ^ k <= m2 / 2 ^ k) by (apply Z.div_le_mono; lia).
  destruct (Z.eq_dec (m1 / 2 ^ k) (m2 / 2 ^ k)) as [Heq | Hne]; [| lia].
  pose proof (Z.div_mod m1 (2 ^ k) ltac:(lia)).
  pose proof (Z.div_mod m2 (2 ^ k) ltac:(lia)).
  unfold rne_div in *. rewrite Heq in *.
  set (q := m2 / 2 ^ k) in *.
  set (r1 := m1 mod 2 ^ k) in *. set (r2 := m2 mod 2 ^ k) in *.
  assert (r1 <= r2) by lia.
  destruct (Z.ltb_spec (2 * r1) (2 ^ k)), (Z.ltb_spec (2 * r2) (2 ^ k));
    destruct (Z.eqb_spec (2 * r1) (2 ^ k)), (Z.eqb_spec (2 * r2) (2 ^ k));
    destruct (Z.even q); lia.
Qed.

(** Rescaling the representation of a number does not change its rounded
    mantissa. *)
Lemma round_mant_scale (m e E j : Z) :
  0 <= j -> round_mant (m * 2 ^ j) (e - j) E = round_mant m e E.
Proof.
  intros Hj. unfold round_mant.
  destruct (Z.leb_spec e E) as [He | He], (Z.leb_spec (e - j) E) as [Hej | Hej];
    try lia.
  - replace (E - (e - j)) with (E - e + j) by lia.
    apply rne_div_scale; lia.
  - replace (m * 2 ^ j) with (m * 2 ^ (e - E) * 2 ^ (E - (e - j))).
    + apply rne_div_exact. lia.
    + rewrite <- Z.mul_assoc, <- Z.pow_add_r by lia. do 2 f_equal. lia.
  - rewrite <- Z.mul_assoc, <- Z.pow_add_r by lia. do 2 f_equal. lia.
Qed.

Lemma round_pos_scale (s : bool) (m e j : Z) :
  0 < m -> 0 <= j ->
  round_pos prec emax s (m * 2 ^ j) (e - j) = round_pos prec emax s m e.
Proof.
  intros Hm Hj. unfold round_pos.
  rewrite Zdigits2_shift by lia.
  replace (Zdigits2 m + j + (e - j)) with (Zdigits2 m + e) by lia.
  now rewrite round_mant_scale.
Qed.

Lemma round_mant_range (m e : Z) :
0 < m -> 0 <= round_mant m e (fexp (Zdigits2 m + e)) <= 2 ^ prec.
Proof.
intros m_pos.
pose proof (Zdigits2_bounds m m_pos) as [Hlo Hhi].
pose proof (Zdigits2_pos m m_pos) as Hd.
pose proof (fexp_ge prec emax (Zdigits2 m + e)) as HE.
set (E := fexp (Zdigits2 m + e)) in *.
unfold round_mant.
destruct (Z.leb_spec e E) as [He | He].
- pose proof (rne_div_bounds m (E - e) ltac:(lia)).
  assert (0 <= m / 2 ^ (E - e)) by (apply Z.div_pos; [lia | apply pow2_pos; lia]).
  assert (m / 2 ^ (E - e) < 2 ^ prec)
    by (apply quotient_lt with (d := Zdigits2 m); lia).
  lia.
- pose proof (pow2_pos (e - E) ltac:(lia)).
  assert (2 ^ Zdigits2 m * 2 ^ (e - E) <= 2 ^ prec).
  { rewrite <- Z.pow_add_r by lia. apply Z.pow_le_mono_r; lia. }
  nia.
Qed.

(** Above the subnormal grid the rounded mantissa keeps [prec] digits. *)
Lemma round_mant_normal (m e : Z) :
0 < m -> emin < fexp (Zdigits2 m + e) ->
2 ^ (prec - 1) <= round_mant m e (fexp (Zdigits2 m + e)).
Proof.
intros m_pos Hn.
pose proof (Zdigits2_bounds m m_pos) as [Hlo Hhi].
pose proof (Zdigits2_pos m m_pos) as Hd.
assert (HE : fexp (Zdigits2 m + e) = Zdigits2 m + e - prec)
  by (unfold SpecFloat.fexp, SpecFloat.emin in *; lia).
set (E := fexp (Zdigits2 m + e)) in *.
unfold round_mant.
destruct (Z.leb_spec e E) as [He | He].
- pose proof (rne_div_bounds m (E - e) ltac:(lia)).
  pose proof (pow2_pos (E - e) ltac:(lia)).
  assert (2 ^ (prec - 1) <= m / 2 ^ (E - e)); [| lia].
  apply Z.div_le_lower_bound; [lia |].
  rewrite <- Z.pow_add_r by lia.
  replace (E - e + (prec - 1)) with (Zdigits2 m - 1) by lia. lia.
- pose proof (pow2_pos (e - E) ltac:(lia)).
  assert (2 ^ (prec - 1) = 2 ^ (Zdigits2 m - 1) * 2 ^ (e - E)).
  { rewrite <- Z.pow_add_r by lia. f_equal. lia. }
  nia.
Qed.

Lemma finite_le (q1 E1 q2 E2 : Z) :
  0 < q1 -> 0 < q2 -> E1 < E2 \/ (E1 = E2 /\ q1 <= q2) ->
  SFleb (S754_finite false (Z.to_pos q1) E1) (S754_finite false (Z.to_pos q2) E2)
  = true.
Proof.
  intros H1 H2 H. unfold SFleb, SFcompare.
  change (Pos.compare_cont Eq (Z.to_pos q1) (Z.to_pos q2))
    with (Z.to_pos q1 ?= Z.to_pos q2)%positive.
  rewrite <- Z2Pos.inj_compare by lia.
  destruct (Z.compare_spec E1 E2); try reflexivity; try lia.
  destruct (Z.compare_spec q1 q2); try reflexivity; lia.
Qed.

(** Order of packed results: same grid and ordered mantissas, or a finer
    grid against a full mantissa on a coarser one. *)
Lemma pack_le (q1 E1 q2 E2 : Z) :
  0 <= q1 <= 2 ^ prec -> 0 <= q2 <= 2 ^ prec ->
  (E1 = E2 /\ q1 <= q2) \/ (E1 < E2 /\ 2 ^ (prec - 1) <= q2) ->
  SFleb (pack prec emax false q1 E1) (pack prec emax false q2 E2) = true.
Proof.
  intros Hq1 Hq2 H.
  pose proof (pow2_pos (prec - 1) ltac:(lia)) as Hhalf.
  assert (Hdbl : 2 ^ prec = 2 * 2 ^ (prec - 1)).
  { rewrite <- Z.pow_succ_r by lia. f_equal. lia. }
  unfold pack.
  destruct (Z.eqb_spec q1 0) as [-> | Hn1].
  { destruct (q2 =? 0); [reflexivity |].
    destruct (q2 =? 2 ^ prec); destruct (_ <=? _); reflexivity. }
  destruct (Z.eqb_spec q2 0) as [-> | Hn2]; [lia |].
  destruct (Z.eqb_spec q1 (2 ^ prec)) as [-> | Hf1];
    destruct (Z.eqb_spec q2 (2 ^ prec)) as [-> | Hf2];
    repeat match goal with
           | |- context [?a <=? ?b] => destruct (Z.leb_spec a b)
           end;
    try lia; try reflexivity; apply finite_le; lia.
Qed.

(** Rounding is monotone on the representations of a common exponent. *)
Lemma round_pos_mono (m1 m2 e : Z) :
  0 < m1 <= m2 ->
  SFleb (round_pos prec emax false m1 e) (round_pos prec emax false m2 e) = true.
Proof.
  intros [Hm1 Hm12]. unfold round_pos.
  pose proof (Zdigits2_mono m1 m2 Hm1 Hm12) as Hd.
  pose proof (fexp_mono prec emax (Zdigits2 m1 + e) (Zdigits2 m2 + e) ltac:(lia)) as HE.
  pose proof (fexp_ge_emin prec emax (Zdigits2 m1 + e)) as HE1.
  set (E1 := fexp (Zdigits2 m1 + e)) in *.
  set (E2 := fexp (Zdigits2 m2 + e)) in *.
  apply pack_le.
  - apply round_mant_range. lia.
  - apply round_mant_range. lia.
  - destruct (Z.eq_dec E1 E2) as [Heq | Hne].
    + left. split; [exact Heq |]. rewrite Heq. unfold round_mant.
      destruct (Z.leb_spec e E2).
      * apply rne_div_mono; lia.
      * pose proof (pow2_pos (e - E2) ltac:(lia)). nia.
    + right. split; [lia |]. apply round_mant_normal; [lia |]. fold E2. lia.
Qed.

Lemma pack_nonneg (s : bool) (q E : Z) :
  SFleb (S754_zero s) (pack prec emax false q E) = true.
Proof.
  unfold pack. repeat (destruct (_ =? _) || destruct (_ <=? _)); reflexivity.
Qed.

Lemma round_pos_nonneg (s : bool) (m e : Z) :
  SFleb (S754_zero s) (round_pos prec emax false m e) = true.
Proof. apply pack_nonneg. Qed.

Lemma round_pos_le_infinity (m e : Z) :
  SFleb (round_pos prec emax false m e) (S754_infinity false) = true.
Proof.
  unfold round_pos, pack.
  repeat (destruct (_ =? _) || destruct (_ <=? _)); reflexivity.
Qed.

(** The result of rounding is a well-formed datum. *)
Lemma round_pos_valid (s : bool) (m e : Z) :
  0 < m -> valid_binary prec emax (round_pos prec emax s m e) = true.
Proof.
  intros Hm. unfold round_pos.
  pose proof (round_mant_range m e Hm) as Hr.
  pose proof (round_mant_normal m e Hm) as Hn.
  pose proof (fexp_ge_emin prec emax (Zdigits2 m + e)) as HE.
  set (E := fexp (Zdigits2 m + e)) in *.
  set (q := round_mant m e E) in *.
  pose proof (pow2_pos (prec - 1) ltac:(lia)) as Hhalf.
  assert (Hdbl : 2 ^ prec = 2 * 2 ^ (prec - 1)).
  { rewrite <- Z.pow_succ_r by lia. f_equal. lia. }
  unfold pack.
  destruct (Z.eqb_spec q 0); [reflexivity |].
  destruct (Z.eqb_spec q (2 ^ prec)) as [Hfull | Hnf].
  - destruct (Z.leb_spec (E + 1) (emax - prec)) as [Hb | Hb]; [| reflexivity].
    cbn [valid_binary]. unfold bounded, canonical_mantissa.
    change (Z.pos (digits2_pos ?p)) with (Zdigits2 (Z.pos p)).
    rewrite Z2Pos.id by lia.
    rewrite Zdigits2_pow by lia.
    apply andb_true_intro. split; [apply Z.eqb_eq | apply Z.leb_le; lia].
    unfold SpecFloat.fexp. lia.
  - destruct (Z.leb_spec E (emax - prec)) as [Hb | Hb]; [| reflexivity].
    cbn [valid_binary]. unfold bounded, canonical_mantissa.
    change (Z.pos (digits2_pos ?p)) with (Zdigits2 (Z.pos p)).
    rewrite Z2Pos.id by lia.
    apply andb_true_intro. split; [apply Z.eqb_eq | apply Z.leb_le; lia].
    pose proof (Zdigits2_le_prec prec prec_pos q ltac:(lia)) as Hd.
    destruct (Z.eq_dec E emin) as [He | He].
    + unfold SpecFloat.fexp. fold emin. lia.
    + assert (Hq : 2 ^ (prec - 1) <= q) by (apply Hn; lia).
      assert (Zdigits2 q = prec) by (apply Zdigits2_unique; replace (prec - 1 + 1) with prec in * by lia; lia).
      unfold SpecFloat.fexp. fold emin. lia.
Qed.

(** What [bounded] says about a mantissa and its exponent. *)
Lemma bounded_inv (m : positive) (e : Z) :
  bounded prec emax m e = true ->
  e = fexp (Zdigits2 (Z.pos m) + e) /\ e <= emax - prec.
Proof.
  unfold bounded, canonical_mantissa. intros H.
  apply andb_prop in H. destruct H as [H1 H2].
  apply Z.eqb_eq in H1. apply Z.leb_le in H2. split; [symmetry; exact H1 | exact H2].
Qed.

(** Rounding a well-formed datum returns it. *)
Lemma round_pos_bounded (s : bool) (m : positive) (e : Z) :
  bounded prec emax m e = true ->
  round_pos prec emax s (Z.pos m) e = S754_finite s m e.
Proof.
  intros H. destruct (bounded_inv m e H) as [Hc Hb].
  unfold round_pos. rewrite <- Hc. unfold round_mant.
  destruct (Z.leb_spec e e) as [_ | ?]; [| lia].
  rewrite Z.sub_diag, rne_div_0. unfold pack.
  assert (Hd : Zdigits2 (Z.pos m) <= prec).
  { pose proof (fexp_ge prec emax (Zdigits2 (Z.pos m) + e)). lia. }
  pose proof (Zdigits2_bounds (Z.pos m) ltac:(lia)) as [_ Hhi].
  assert (2 ^ Zdigits2 (Z.pos m) <= 2 ^ prec).
  { apply Z.pow_le_mono_r; [lia | exact Hd]. }
  destruct (Z.eqb_spec (Z.pos m) 0); [lia |].
  destruct (Z.eqb_spec (Z.pos m) (2 ^ prec)); [lia |].
  destruct (Z.leb_spec e (emax - prec)); [reflexivity | lia].
Qed.

(** The order of two well-formed positive data, on their mantissas. *)
Lemma finite_le_inv (m1 m2 : positive) (e1 e2 : Z) :
  bounded prec emax m1 e1 = true -> bounded prec emax m2 e2 = true ->
  SFleb (S754_finite false m1 e1) (S754_finite false m2 e2) = true ->
  e1 <= e2 /\ Z.pos m1 <= Z.pos m2 * 2 ^ (e2 - e1).
Proof.
  intros B1 B2. destruct (bounded_inv m1 e1 B1) as [C1 _].
  destruct (bounded_inv m2 e2 B2) as [C2 _].
  unfold SFleb, SFcompare.
  change (Pos.compare_cont Eq m1 m2) with (Z.pos m1 ?= Z.pos m2).
  destruct (Z.compare_spec e1 e2) as [He | He | He].
  - subst e2. destruct (Z.compare_spec (Z.pos m1) (Z.pos m2)); intros Hc;
      try discriminate Hc; rewrite Z.sub_diag; simpl; lia.
  - intros _. split; [lia |].
    pose proof (Zdigits2_bounds (Z.pos m1) ltac:(lia)) as [_ Hhi1].
    pose proof (Zdigits2_bounds (Z.pos m2) ltac:(lia)) as [Hlo2 _].
    pose proof (fexp_ge prec emax (Zdigits2 (Z.pos m1) + e1)).
    pose proof (fexp_ge_emin prec emax (Zdigits2 (Z.pos m1) + e1)).
    assert (Hd2 : Zdigits2 (Z.pos m2) = prec).
    { unfold SpecFloat.fexp in C2. fold emin in C2. lia. }
    rewrite Hd2 in Hlo2.
    assert (2 ^ Zdigits2 (Z.pos m1) <= 2 ^ prec) by (apply Z.pow_le_mono_r; lia).
    assert (2 ^ 1 <= 2 ^ (e2 - e1)) by (apply Z.pow_le_mono_r; lia).
    assert (Hdbl : 2 ^ prec = 2 * 2 ^ (prec - 1)).
    { rewrite <- Z.pow_succ_r by lia. f_equal. lia. }
    change (2 ^ 1) with 2 in *. nia.
  - intros Hc. discriminate Hc.
Qed.

End RoundingOrder.

(* ===================================================================== *)
(** * Order properties of binary64 multiplication and addition *)
(* ===================================================================== *)

Section Binary64.

Lemma prec_gt_0 : 0 < prec.
Proof. reflexivity. Qed.

Lemma Z2SF_0 : Z2SF 0 = S754_zero false.
Proof. reflexivity. Qed.

(** Non-negative data: zeros, positive finite numbers, plus infinity. *)
Lemma fle_0_inv (x : float) :
  fle (Z2SF 0) x = true ->
  (exists s, x = S754_zero s) \/ (exists m e, x = S754_finite false m e)
  \/ x = S754_infinity false.
Proof.
  rewrite Z2SF_0. destruct x as [s | [|] | | [|] m e]; cbn; intros H;
    try discriminate H; eauto.
Qed.

Lemma fmul_finite (sa sc : bool) (ma mc : positive) (ea ec : Z) :
  Zdigits2 (Z.pos mc) = prec ->
  fmul (S754_finite sa ma ea) (S754_finite sc mc ec)
  = round_pos prec emax (xorb sa sc) (Z.pos ma * Z.pos mc) (ea + ec).
Proof.
  intros Hc. unfold fmul, SFmul. rewrite Pos2Z.inj_mul.
  apply binary_round_aux_spec; [apply prec_gt_0 | lia |].
  assert (Hd : prec <= Zdigits2 (Z.pos ma * Z.pos mc)).
  { rewrite <- Hc. apply Zdigits2_mono; nia. }
  pose proof (fexp_ge prec emax (Zdigits2 (Z.pos ma * Z.pos mc) + (ea + ec))).
  lia.
Qed.

Lemma shl_align_fst (m : positive) (e ez : Z) :
  ez <= e -> Z.pos (fst (shl_align m e ez)) = Z.pos m * 2 ^ (e - ez).
Proof.
  intros H. unfold shl_align.
  destruct (ez - e) as [| k | k] eqn:Hk; try lia; cbn [fst].
  - replace (e - ez) with 0 by lia. change (2 ^ 0) with 1. lia.
  - rewrite Pos_iter_xO. do 2 f_equal. lia.
Qed.

Lemma fadd_finite (mx mb : positive) (ex eb : Z) :
  let ez := Z.min ex eb in
  fadd (S754_finite false mx ex) (S754_finite false mb eb)
  = round_pos prec emax false
      (Z.pos mx * 2 ^ (ex - ez) + Z.pos mb * 2 ^ (eb - ez)) ez.
Proof.
  intros ez. unfold fadd, SFadd, cond_Zopp. fold ez.
  rewrite <- (shl_align_fst mx ex ez), <- (shl_align_fst mb eb ez) by (subst ez; lia).
  rewrite <- Pos2Z.inj_add. cbn [binary_normalize].
  apply binary_round_spec, prec_gt_0.
Qed.

Lemma fadd_comm (x y : float) : fadd x y = fadd y x.
Proof.
  destruct x as [sx | sx | | sx mx ex], y as [sy | sy | | sy my ey];
    try reflexivity; try (destruct sx, sy; reflexivity).
  unfold fadd, SFadd. rewrite (Z.min_comm ey ex), Z.add_comm. reflexivity.
Qed.

Lemma fle_refl_finite (s : bool) (m : positive) (e : Z) :
  fle (S754_finite s m e) (S754_finite s m e) = true.
Proof.
  unfold fle, SFleb, SFcompare.
  change (Pos.compare_cont Eq m m) with (m ?= m)%positive.
  rewrite Z.compare_refl, Pos.compare_refl. now destruct s.
Qed.

Lemma is_normal_pos_inv (c : float) :
  is_normal_pos c = true ->
  exists m e, c = S754_finite false m e /\ Zdigits2 (Z.pos m) = prec
              /\ bounded prec emax m e = true.
Proof.
  destruct c as [s | s | | [|] m e]; unfold is_normal_pos; intros H;
    try discriminate H.
  apply andb_prop in H. destruct H as [H1 H2]. apply Z.eqb_eq in H1. eauto.
Qed.

(** *** Multiplication by a positive normal constant *)

Lemma fmul_nonneg (a c : float) :
  is_normal_pos c = true -> fle (Z2SF 0) a = true ->
  fle (Z2SF 0) (fmul a c) = true.
Proof.
  intros Hc Ha. destruct (is_normal_pos_inv c Hc) as (mc & ec & -> & Hd & Hb).
  destruct (fle_0_inv a Ha) as [[s ->] | [(m & e & ->) | ->]].
  - reflexivity.
  - rewrite fmul_finite by exact Hd. apply round_pos_nonneg.
  - reflexivity.
Qed.

Lemma fmul_is_float (a c : float) :
  is_normal_pos c = true -> is_float (fmul a c).
Proof.
  intros Hc. destruct (is_normal_pos_inv c Hc) as (mc & ec & -> & Hd & Hb).
  destruct a as [s | s | | s m e]; try reflexivity.
  rewrite fmul_finite by exact Hd.
  apply round_pos_valid; [apply prec_gt_0 | lia].
Qed.

Lemma fmul_mono (a1 a2 c : float) :
  is_float a1 -> is_float a2 -> is_normal_pos c = true ->
  fle (Z2SF 0) a1 = true -> fle a1 a2 = true ->
  fle (fmul a1 c) (fmul a2 c) = true.
Proof.
  intros V1 V2 Hc H0 H12.
  destruct (is_normal_pos_inv c Hc) as (mc & ec & -> & Hd & Hb).
  destruct a1 as [s1 | [|] | | [|] m1 e1]; try discriminate H0;
    destruct a2 as [s2 | [|] | | [|] m2 e2]; try discriminate H12;
    rewrite ?fmul_finite by exact Hd; cbn [xorb];
    try reflexivity;
    try apply round_pos_nonneg; try apply round_pos_le_infinity.
  destruct (finite_le_inv prec emax prec_gt_0 m1 m2 e1 e2 V1 V2 H12) as [He Hm].
  rewrite <- (round_pos_scale prec emax false
                (Z.pos m2 * Z.pos mc) (e2 + ec) (e2 - e1)) by lia.
  replace (e2 + ec - (e2 - e1)) with (e1 + ec) by lia.
  apply round_pos_mono; [apply prec_gt_0 | nia].
Qed.

(** *** Addition of a non-negative number *)

Lemma fadd_nonneg (x b : float) :
  fle (Z2SF 0) x = true -> fle (Z2SF 0) b = true ->
  fle (Z2SF 0) (fadd x b) = true.
Proof.
  intros Hx Hb.
  destruct (fle_0_inv x Hx) as [[sx ->] | [(mx & ex & ->) | ->]];
    destruct (fle_0_inv b Hb) as [[sb ->] | [(mb & eb & ->) | ->]];
    try reflexivity; try (destruct sx, sb; reflexivity).
  rewrite fadd_finite. apply round_pos_nonneg.
Qed.

Lemma fadd_mono_r (x1 x2 b : float) :
  is_float x1 -> is_float x2 -> is_float b ->
  fle (Z2SF 0) x1 = true -> fle x1 x2 = true -> fle (Z2SF 0) b = true ->
  fle (fadd x1 b) (fadd x2 b) = true.
Proof.
  intros V1 V2 Vb H0 H12 Hb.
  destruct (fle_0_inv b Hb) as [[sb ->] | [(mb & eb & ->) | ->]].
  - (* b is a zero *)
    destruct x1 as [s1 | [|] | | [|] m1 e1]; try discriminate H0;
      destruct x2 as [s2 | [|] | | [|] m2 e2]; try discriminate H12;
      try reflexivity; try (destruct s1, s2, sb; reflexivity);
      try (destruct s1, sb; reflexivity).
    exact H12.
  - (* b is a positive finite number *)
    destruct x1 as [s1 | [|] | | [|] m1 e1]; try discriminate H0;
      destruct x2 as [s2 | [|] | | [|] m2 e2]; try discriminate H12;
      rewrite ?fadd_finite; try reflexivity;
      try apply round_pos_le_infinity.
    + apply fle_refl_finite.
    + (* 0 + b against x2 + b *)
      change (fadd (S754_zero s1) (S754_finite false mb eb))
        with (S754_finite false mb eb).
      rewrite <- (round_pos_bounded prec emax prec_gt_0 false mb eb Vb).
      set (z := Z.min e2 eb).
      rewrite <- (round_pos_scale prec emax false (Z.pos mb) eb (eb - z))
        by (subst z; lia).
      replace (eb - (eb - z)) with z by lia.
      apply round_pos_mono; [apply prec_gt_0 |].
      pose proof (pow2_pos (e2 - z) ltac:(subst z; lia)).
      pose proof (pow2_pos (eb - z) ltac:(subst z; lia)). nia.
    + (* x1 + b against x2 + b *)
      destruct (finite_le_inv prec emax prec_gt_0 m1 m2 e1 e2 V1 V2 H12) as [He Hm].
      set (z1 := Z.min e1 eb). set (z2 := Z.min e2 eb).
      assert (Hz : z1 <= z2) by (subst z1 z2; lia).
      rewrite <- (round_pos_scale prec emax false
                    (Z.pos m2 * 2 ^ (e2 - z2) + Z.pos mb * 2 ^ (eb - z2))
                    z2 (z2 - z1)).
      * replace (z2 - (z2 - z1)) with z1 by lia.
        apply round_pos_mono; [apply prec_gt_0 |].
        pose proof (pow2_pos (e1 - z1) ltac:(subst z1; lia)) as HA.
        pose proof (pow2_pos (eb - z1) ltac:(subst z1; lia)) as HF.
        pose proof (pow2_pos (e2 - e1) ltac:(lia)) as HB.
        rewrite Z.mul_add_distr_r, <- !Z.mul_assoc, <- !Z.pow_add_r
          by (subst z1 z2; lia).
        replace (e2 - z2 + (z2 - z1)) with (e2 - e1 + (e1 - z1)) by lia.
        replace (eb - z2 + (z2 - z1)) with (eb - z1) by lia.
        rewrite Z.pow_add_r by (subst z1; lia).
        nia.
      * pose proof (pow2_pos (e2 - z2) ltac:(subst z2; lia)).
        pose proof (pow2_pos (eb - z2) ltac:(subst z2; lia)). nia.
      * lia.
  - (* b is plus infinity *)
    destruct x1 as [s1 | [|] | | [|] m1 e1]; try discriminate H0;
      destruct x2 as [s2 | [|] | | [|] m2 e2]; try discriminate H12;
      reflexivity.
Qed.

Lemma fadd_mono_l (b x1 x2 : float) :
  is_float x1 -> is_float x2 -> is_float b ->
  fle (Z2SF 0) x1 = true -> fle x1 x2 = true -> fle (Z2SF 0) b = true ->
  fle (fadd b x1) (fadd b x2) = true.
Proof.
  intros. rewrite (fadd_comm b x1), (fadd_comm b x2). now apply fadd_mono_r.
Qed.

End Binary64.

Section Order.

(** Comparison of positive finite data is lexicographic on exponent and
    mantissa. *)
Lemma SFcompare_finite_pos (m1 m2 : positive) (e1 e2 : Z) :
  SFcompare (S754_finite false m1 e1) (S754_finite false m2 e2)
  = Some match e1 ?= e2 with
         | Lt => Lt
         | Gt => Gt
         | Eq => (Z.pos m1 ?= Z.pos m2)
         end.
Proof. reflexivity. Qed.

Ltac lex_cases :=
  rewrite ?SFcompare_finite_pos;
  repeat match goal with
         | |- context [?a ?= ?b] => destruct (Z.compare_spec a b)
         end;
  intros; try reflexivity; try discriminate; try lia.

Lemma fle_trans_nonneg (x y z : float) :
  fle (Z2SF 0) x = true -> fle x y = true -> fle y z = true -> fle x z = true.
Proof.
  intros Hx Hxy Hyz. revert Hxy Hyz.
  destruct x as [sx | [|] | | [|] mx ex]; try discriminate Hx;
    destruct y as [sy | [|] | | [|] my ey]; try discriminate;
    destruct z as [sz | [|] | | [|] mz ez]; try discriminate; try reflexivity.
  unfold fle, SFleb. lex_cases.
Qed.

Lemma flt_fle_trans_nonneg (x y z : float) :
  fle (Z2SF 0) x = true -> flt x y = true -> fle y z = true -> flt x z = true.
Proof.
  intros Hx Hxy Hyz. revert Hxy Hyz.
  destruct x as [sx | [|] | | [|] mx ex]; try discriminate Hx;
    destruct y as [sy | [|] | | [|] my ey]; try discriminate;
    destruct z as [sz | [|] | | [|] mz ez]; try discriminate; try reflexivity.
  unfold flt, fle, SFltb, SFleb. lex_cases.
Qed.

Lemma fle_not_nan_l (x y : float) : fle x y = true -> x <> S754_nan.
Proof. intros H ->. discriminate H. Qed.

Lemma fle_not_nan_r (x y : float) : fle x y = true -> y <> S754_nan.
Proof. intros H ->. destruct x; discriminate H. Qed.

Lemma fle_refl_nonneg (x : float) : fle (Z2SF 0) x = true -> fle x x = true.
Proof.
  intros H. destruct (fle_0_inv x H) as [[s ->] | [(m & e & ->) | ->]];
    try reflexivity. apply fle_refl_finite.
Qed.

(** [min(s, h)] of Python is monotone in [s] on non-negative numbers. *)
Lemma py_min_mono (s1 s2 h : float) :
  fle (Z2SF 0) h = true -> fle s1 s2 = true ->
  fle (py_min s1 h) (py_min s2 h) = true.
Proof.
  intros Hh H12. unfold py_min.
  pose proof (fle_not_nan_r _ _ Hh) as Hhn.
  pose proof (fle_not_nan_l _ _ H12) as Hn1.
  destruct (flt h s1) eqn:H1.
  - rewrite (flt_fle_trans_nonneg h s1 s2 Hh H1 H12). now apply fle_refl_nonneg.
  - assert (Hs1 : fle s1 h = true) by (rewrite (fle_negb_flt s1 h Hn1 Hhn), H1; reflexivity).
    destruct (flt h s2); [exact Hs1 | exact H12].
Qed.

Lemma py_min_range (s h : float) :
  fle (Z2SF 0) h = true -> fle (Z2SF 0) s = true ->
  fle (Z2SF 0) (py_min s h) = true /\ fle (py_min s h) h = true.
Proof.
  intros Hh Hs. unfold py_min.
  pose proof (fle_not_nan_r _ _ Hh) as Hhn.
  pose proof (fle_not_nan_r _ _ Hs) as Hsn.
  destruct (flt h s) eqn:H1.
  - split; [exact Hh | now apply fle_refl_nonneg].
  - split; [exact Hs |]. now rewrite (fle_negb_flt s h Hsn Hhn), H1.
Qed.

End Order.

Section Scores.
Import EnhancedRiskScorer.

(** The boost of stage 6 is one of five non-negative integers. *)
Lemma signal_boost_cases (abnormal_count : Z) :
  0 <= abnormal_count ->
  let b := Z.min (abnormal_count * 5) 20 in
  b = 0 \/ b = 5 \/ b = 10 \/ b = 15 \/ b = 20.
Proof. intros H b. subst b. lia. Qed.

Lemma signal_boost_float (abnormal_count : Z) :
  0 <= abnormal_count ->
  let b := Z2SF (Z.min (abnormal_count * 5) 20) in
  is_float b /\ fle (Z2SF 0) b = true.
Proof.
  intros H b. subst b.
  destruct (signal_boost_cases abnormal_count H) as [-> | [-> | [-> | [-> | ->]]]];
    split; reflexivity.
Qed.

(** [0 <= a <= 1] gives [0 <= a * c <= c] for the constants of the
    cascade. *)
Lemma fmul_unit_range (a c : float) :
  is_float a -> is_normal_pos c = true ->
  fle (Z2SF 0) a = true -> fle a (Z2SF 1) = true ->
  fmul (Z2SF 1) c = c ->
  fle (Z2SF 0) (fmul a c) = true /\ fle (fmul a c) c = true.
Proof.
  intros Va Hc H0 H1 Hone. split; [now apply fmul_nonneg |].
  rewrite <- Hone at 2. apply fmul_mono; auto. reflexivity.
Qed.

Lemma composite_score_range (a : float) (abnormal_count : Z) :
  fle (Z2SF 0) a = true -> 0 <= abnormal_count ->
  fle (Z2SF 0) (composite_score a abnormal_count) = true /\
  fle (composite_score a abnormal_count) (Z2SF 100) = true.
Proof.
  intros H0 Hc. unfold composite_score.
  destruct (signal_boost_float abnormal_count Hc) as [_ Hb].
  apply py_min_range; [reflexivity |].
  apply fadd_nonneg; [| exact Hb].
  apply fmul_nonneg; [reflexivity | exact H0].
Qed.

Lemma composite_score_mono (a1 a2 : float) (abnormal_count : Z) :
  is_float a1 -> is_float a2 ->
  fle (Z2SF 0) a1 = true -> fle a1 a2 = true -> 0 <= abnormal_count ->
  fle (composite_score a1 abnormal_count) (composite_score a2 abnormal_count)
  = true.
Proof.
  intros V1 V2 H0 H12 Hc. unfold composite_score.
  destruct (signal_boost_float abnormal_count Hc) as [Vb Hb].
  apply py_min_mono; [reflexivity |].
  apply fadd_mono_r; try assumption.
  - apply fmul_is_float. reflexivity.
  - apply fmul_is_float. reflexivity.
  - apply fmul_nonneg; [reflexivity | exact H0].
  - apply fmul_mono; auto.
Qed.

(** The score of the critical override lies in [95, 100]. *)
Lemma critical_score_lower (a : float) :
  is_float a -> fle (Z2SF 0) a = true ->
  fle (Z2SF 95) (fadd (Z2SF 95) (fmul a (Z2SF 5))) = true.
Proof.
  intros Va H0.
  change (Z2SF 95) with (fadd (Z2SF 95) (Z2SF 0)) at 1.
  apply fadd_mono_l; try reflexivity.
  - apply fmul_is_float. reflexivity.
  - apply fmul_nonneg; [reflexivity | exact H0].
Qed.

Lemma critical_score_upper (a : float) :
  is_float a -> fle (Z2SF 0) a = true -> fle a (Z2SF 1) = true ->
  fle (fadd (Z2SF 95) (fmul a (Z2SF 5))) (Z2SF 100) = true.
Proof.
  intros Va H0 H1.
  destruct (fmul_unit_range a (Z2SF 5) Va eq_refl H0 H1 eq_refl) as [Hlo Hhi].
  change (Z2SF 100) with (fadd (Z2SF 95) (Z2SF 5)).
  apply fadd_mono_l; try reflexivity; try assumption.
  apply fmul_is_float. reflexivity.
Qed.

End Scores.

(* ===================================================================== *)
(** * Score bounds and monotonicity of the cascade *)
(* ===================================================================== *)

Section CascadeScores.
Import EnhancedRiskScorer.

Lemma count_abnormal_signals_nonneg (self : t) (features : Features) :
  0 <= fst (count_abnormal_signals self features).
Proof. unfold count_abnormal_signals. cbn [fst]. lia. Qed.

Lemma fle_100 (x c : float) :
  fle (Z2SF 0) x = true -> fle x c = true -> fle c (Z2SF 100) = true ->
  fle x (Z2SF 100) = true.
Proof. intros. now apply (fle_trans_nonneg x c (Z2SF 100)). Qed.

Lemma suppressed_score_range (a c : float) :
  is_float a -> fle (Z2SF 0) a = true -> fle a (Z2SF 1) = true ->
  is_normal_pos c = true -> fmul (Z2SF 1) c = c -> fle c (Z2SF 100) = true ->
  fle (Z2SF 0) (fmul a c) = true /\ fle (fmul a c) (Z2SF 100) = true.
Proof.
  intros Va H0 H1 Hc Hone Hle.
  destruct (fmul_unit_range a c Va Hc H0 H1 Hone) as [Hlo Hhi].
  split; [exact Hlo | now apply (fle_100 _ c)].
Qed.

End CascadeScores.

(** C7.  Stage 6 returns [composite_score anomaly_score abnormal_count],
    that is [min(anomaly_score * 100 + min(abnormal_count * 5, 20), 100)] in
    binary64 arithmetic, and for a fixed count this score never decreases
    when the anomaly score grows: for well-formed [0 <= a1 <= a2] (in
    particular for [a1 <= a2] in [0, 1]) the score at [a1] is at most the
    score at [a2]. *)
Theorem C7_composite_score_monotone (a1 a2 : float) (abnormal_count : Z) :
  is_float a1 -> is_float a2 ->
  fle (Z2SF 0) a1 = true -> fle a1 a2 = true -> 0 <= abnormal_count ->
  fle (EnhancedRiskScorer.composite_score a1 abnormal_count)
      (EnhancedRiskScorer.composite_score a2 abnormal_count) = true
  /\ forall (self : EnhancedRiskScorer.t) (features : Features)
            (anomaly_score confidence : float),
       let r := fst (EnhancedRiskScorer.calculate_risk_score self features
                       anomaly_score confidence) in
       EnhancedRiskScorer.stage (EnhancedRiskScorer.debug_info r)
         = EnhancedRiskScorer.confirmed_alert \/
       EnhancedRiskScorer.stage (EnhancedRiskScorer.debug_info r)
         = EnhancedRiskScorer.awaiting_confirmation ->
       EnhancedRiskScorer.risk_score r
       = EnhancedRiskScorer.composite_score anomaly_score
           (fst (EnhancedRiskScorer.count_abnormal_signals self features)).
Proof.
  intros V1 V2 H0 H12 Hc. split; [now apply composite_score_mono |].
  intros self features anomaly_score confidence.
  cascade self features; cbn; intros [H | H]; try discriminate H; reflexivity.
Qed.

Lemma C7_witness :
  fle (EnhancedRiskScorer.composite_score lit_0_5 2)
      (EnhancedRiskScorer.composite_score lit_0_7 2) = true
  /\ forall (self : EnhancedRiskScorer.t) (features : Features)
            (anomaly_score confidence : float),
       let r := fst (EnhancedRiskScorer.calculate_risk_score self features
                       anomaly_score confidence) in
       EnhancedRiskScorer.stage (EnhancedRiskScorer.debug_info r)
         = EnhancedRiskScorer.confirmed_alert \/
       EnhancedRiskScorer.stage (EnhancedRiskScorer.debug_info r)
         = EnhancedRiskScorer.awaiting_confirmation ->
       EnhancedRiskScorer.risk_score r
       = EnhancedRiskScorer.composite_score anomaly_score
           (fst (EnhancedRiskScorer.count_abnormal_signals self features)).
Proof.
  apply (C7_composite_score_monotone lit_0_5 lit_0_7 2);
    first [reflexivity | lia].
Defined.

(** C4.  For a well-formed anomaly score in [0, 1], the risk score returned
    by [calculate_risk_score] lies in [0, 100], whichever branch of the
    cascade returns, for every scorer, feature dict and confidence (the
    confidence plays no part in the bound). *)
Theorem C4_risk_score_in_range (self : EnhancedRiskScorer.t)
    (features : Features) (anomaly_score confidence : float) :
  is_float anomaly_score ->
  fle (Z2SF 0) anomaly_score = true -> fle anomaly_score (Z2SF 1) = true ->
  let r := fst (EnhancedRiskScorer.calculate_risk_score self features
                  anomaly_score confidence) in
  fle (Z2SF 0) (EnhancedRiskScorer.risk_score r) = true /\
  fle (EnhancedRiskScorer.risk_score r) (Z2SF 100) = true.
Proof.
  intros Va H0 H1.
  pose proof (count_abnormal_signals_nonneg self features) as Hcnt.
  cascade self features; cbn [fst EnhancedRiskScorer.risk_score].
  - (* critical override *)
    split; [| now apply critical_score_upper].
    apply fadd_nonneg; [reflexivity |].
    apply fmul_nonneg; [reflexivity | exact H0].
  - (* insufficient signals *)
    now apply suppressed_score_range.
  - (* motion artifact *)
    now apply suppressed_score_range.
  - (* low confidence *)
    now apply suppressed_score_range.
  - (* confirmed alert *)
    cbn [fst] in Hcnt. now apply composite_score_range.
  - (* awaiting confirmation *)
    cbn [fst] in Hcnt. now apply composite_score_range.
  - (* plausibility failed *)
    split; reflexivity.
Qed.

Lemma C4_witness :
  let r := fst (EnhancedRiskScorer.calculate_risk_score
                  EnhancedRiskScorer.init_default test_features_motion
                  lit_0_7 lit_0_8) in
  fle (Z2SF 0) (EnhancedRiskScorer.risk_score r) = true /\
  fle (EnhancedRiskScorer.risk_score r) (Z2SF 100) = true.
Proof.
  apply (C4_risk_score_in_range EnhancedRiskScorer.init_default
           test_features_motion lit_0_7 lit_0_8); reflexivity.
Defined.

(** C1.  The claim fails as stated: the plausibility filter runs first, and
    the bound needs a non-negative anomaly score.  What holds: for every
    scorer with the constructor's thresholds and [critical_override = true],
    every feature dict with [spo2_min < 88] that passes the plausibility
    filter, and every anomaly score, confidence and buffer contents, the
    result is [stage = critical_override], [alert = true],
    [risk_score = 95 + anomaly_score * 5], and the buffer is left untouched;
    the score is at least 95 when the anomaly score is a well-formed
    non-negative number. *)
Theorem C1_critical_override_precedence (self : EnhancedRiskScorer.t)
    (features : Features) (anomaly_score confidence : float) :
  EnhancedRiskScorer.THRESHOLDS self = EnhancedRiskScorer.init_THRESHOLDS ->
  EnhancedRiskScorer.critical_override self = true ->
  flt (get features "spo2_min" (Z2SF 100)) (Z2SF 88) = true ->
  fst (EnhancedRiskScorer.check_physiological_plausibility self features) = true ->
  let '(r, self') :=
    EnhancedRiskScorer.calculate_risk_score self features anomaly_score confidence in
  EnhancedRiskScorer.stage (EnhancedRiskScorer.debug_info r)
    = EnhancedRiskScorer.critical_override_stage /\
  EnhancedRiskScorer.should_alert r = true /\
  EnhancedRiskScorer.risk_score r = fadd (Z2SF 95) (fmul anomaly_score (Z2SF 5)) /\
  self' = self /\
  (is_float anomaly_score -> fle (Z2SF 0) anomaly_score = true ->
   fle (Z2SF 95) (EnhancedRiskScorer.risk_score r) = true).
Proof.
  intros Hth Hco Hspo2 Hpl.
  unfold EnhancedRiskScorer.calculate_risk_score.
  destruct (EnhancedRiskScorer.check_physiological_plausibility self features)
    as [is_plausible reason].
  cbn [fst] in Hpl. subst is_plausible. cbn [negb].
  unfold EnhancedRiskScorer.check_critical_condition.
  rewrite Hth. cbn [EnhancedRiskScorer.spo2_critical EnhancedRiskScorer.init_THRESHOLDS].
  rewrite Hspo2, Hco. cbn.
  repeat split. intros Va H0. now apply critical_score_lower.
Qed.

Lemma C1_witness :
  let '(r, self') :=
    EnhancedRiskScorer.calculate_risk_score EnhancedRiskScorer.init_default
      {[ "spo2_mean" := Z2SF 85; "spo2_min" := Z2SF 82; "hr_mean" := Z2SF 130;
         "hr_max" := Z2SF 145; "sbp_mean" := Z2SF 110; "motion_std" := lit_0_8 ]}
      lit_0_8 lit_0_5 in
  EnhancedRiskScorer.stage (EnhancedRiskScorer.debug_info r)
    = EnhancedRiskScorer.critical_override_stage /\
  EnhancedRiskScorer.should_alert r = true /\
  EnhancedRiskScorer.risk_score r = fadd (Z2SF 95) (fmul lit_0_8 (Z2SF 5)) /\
  self' = EnhancedRiskScorer.init_default /\
  (is_float lit_0_8 -> fle (Z2SF 0) lit_0_8 = true ->
   fle (Z2SF 95) (EnhancedRiskScorer.risk_score r) = true).
Proof.
  apply (C1_critical_override_precedence EnhancedRiskScorer.init_default
           {[ "spo2_mean" := Z2SF 85; "spo2_min" := Z2SF 82; "hr_mean" := Z2SF 130;
              "hr_max" := Z2SF 145; "sbp_mean" := Z2SF 110; "motion_std" := lit_0_8 ]}
           lit_0_8 lit_0_5); reflexivity.
Defined.

(** C1, as stated, refuted twice.  A window with [spo2_min = 80 < 88] but
    [hr_mean = 40], [spo2_mean = 98] is rejected by the plausibility filter
    ([plausibility_failed], score 0, no alert); and on a plausible critical
    window the anomaly score [-1] gives the score 90, below 95. *)
Lemma C1_counterexample :
  ~ (forall (features : Features) (anomaly_score confidence : float),
       flt (get features "spo2_min" (Z2SF 100)) (Z2SF 88) = true ->
       let r := fst (EnhancedRiskScorer.calculate_risk_score
                       EnhancedRiskScorer.init_default features
                       anomaly_score confidence) in
       EnhancedRiskScorer.stage (EnhancedRiskScorer.debug_info r)
         = EnhancedRiskScorer.critical_override_stage /\
       EnhancedRiskScorer.should_alert r = true /\
       fle (Z2SF 95) (EnhancedRiskScorer.risk_score r) = true)
  /\ (let r := fst (EnhancedRiskScorer.calculate_risk_score
                      EnhancedRiskScorer.init_default
                      {[ "spo2_min" := Z2SF 80; "hr_mean" := Z2SF 40;
                         "spo2_mean" := Z2SF 98 ]}
                      lit_0_8 lit_0_8) in
      EnhancedRiskScorer.stage (EnhancedRiskScorer.debug_info r)
        = EnhancedRiskScorer.plausibility_failed /\
      EnhancedRiskScorer.should_alert r = false /\
      EnhancedRiskScorer.risk_score r = Z2SF 0)
  /\ (let r := fst (EnhancedRiskScorer.calculate_risk_score
                      EnhancedRiskScorer.init_default
                      {[ "spo2_min" := Z2SF 80 ]}
                      (Z2SF (-1)) lit_0_8) in
      EnhancedRiskScorer.stage (EnhancedRiskScorer.debug_info r)
        = EnhancedRiskScorer.critical_override_stage /\
      EnhancedRiskScorer.risk_score r = Z2SF 90 /\
      fle (Z2SF 95) (EnhancedRiskScorer.risk_score r) = false).
Proof.
  split; [| split].
  - intros H.
    specialize (H {[ "spo2_min" := Z2SF 80; "hr_mean" := Z2SF 40;
                     "spo2_mean" := Z2SF 98 ]} lit_0_8 lit_0_8 eq_refl).
    vm_compute in H. destruct H as [H _]. discriminate H.
  - vm_compute. auto.
  - vm_compute. auto.
Qed.

(* ===================================================================== *)
(** * Further properties of the scoring cascade *)
(* ===================================================================== *)

Section CascadeOrder.
Import EnhancedRiskScorer.

(** What one call does to the scorer, and where the alert comes from. *)
Lemma calculate_risk_score_effect (self : t) (features : Features)
    (anomaly_score confidence : float) :
  let '(r, self') := calculate_risk_score self features anomaly_score confidence in
  match stage (debug_info r) with
  | confirmed_alert | awaiting_confirmation =>
      self' = with_buffer self
                (fst (TemporalAlertBuffer.should_alert (alert_buffer self)
                        (fgt (risk_score r) (Z2SF 70)))) /\
      should_alert r = snd (TemporalAlertBuffer.should_alert (alert_buffer self)
                              (fgt (risk_score r) (Z2SF 70))) /\
      (should_alert r = true <-> stage (debug_info r) = confirmed_alert)
  | critical_override_stage => self' = self /\ should_alert r = true
  | _ => self' = self /\ should_alert r = false
  end.
Proof.
  cascade self features; cbn [fst snd stage debug_info risk_score should_alert];
    try (split; reflexivity).
  - rewrite Hbuffer. cbn [fst snd]. repeat split; auto.
  - rewrite Hbuffer. cbn [fst snd]. repeat split; intros H; discriminate H.
Qed.

End CascadeOrder.

Section CascadeDetails.
Import EnhancedRiskScorer.

(** The functions called by the cascade read the configuration only. *)
Lemma calculate_with_buffer (self : t) (b : TemporalAlertBuffer.t)
    (features : Features) (anomaly_score confidence : float) :
  let r1 := fst (calculate_risk_score (with_buffer self b) features
                   anomaly_score confidence) in
  let r0 := fst (calculate_risk_score self features anomaly_score confidence) in
  risk_score r1 = risk_score r0 /\
  temporal_raw r1 = temporal_raw r0 /\
  (temporal_raw r0 = None -> r1 = r0).
Proof.
  unfold calculate_risk_score.
  change (check_physiological_plausibility (with_buffer self b) features)
    with (check_physiological_plausibility self features).
  change (check_critical_condition (with_buffer self b) features)
    with (check_critical_condition self features).
  change (count_abnormal_signals (with_buffer self b) features)
    with (count_abnormal_signals self features).
  change (assess_motion_artifact (with_buffer self b) features)
    with (assess_motion_artifact self features).
  cbn [critical_override min_abnormal_signals min_confidence alert_buffer with_buffer].
  destruct (check_physiological_plausibility self features) as [pl ?].
  destruct pl; cbn [negb]; [| now repeat split].
  destruct (check_critical_condition self features) as [cr ?].
  destruct (cr && critical_override self); [now repeat split |].
  destruct (count_abnormal_signals self features) as [cnt sigs].
  destruct (cnt <? min_abnormal_signals self); [now repeat split |].
  destruct (assess_motion_artifact self features) as [hm lvl].
  destruct (hm && negb cr); [now repeat split |].
  destruct (flt confidence (min_confidence self) && negb cr); [now repeat split |].
  destruct (TemporalAlertBuffer.should_alert b _) as [b1 [|]];
    destruct (TemporalAlertBuffer.should_alert (alert_buffer self) _) as [b0 [|]];
    cbn; repeat split; intros H; discriminate H.
Qed.

End CascadeDetails.

Section CascadeDecision.
Import EnhancedRiskScorer.

(** The stage and the score of a result as functions of the six tests of
    the cascade. *)
Lemma stage_and_score (self : t) (features : Features)
    (anomaly_score confidence : float) :
  let r := fst (calculate_risk_score self features anomaly_score confidence) in
  let pl := fst (check_physiological_plausibility self features) in
  let cr := fst (check_critical_condition self features) in
  let cnt := fst (count_abnormal_signals self features) in
  let hm := fst (assess_motion_artifact self features) in
  let low := flt confidence (min_confidence self) in
  stage (debug_info r)
  = (if negb pl then plausibility_failed
     else if cr && critical_override self then critical_override_stage
     else if cnt <? min_abnormal_signals self then insufficient_signals
     else if hm && negb cr then motion_artifact
     else if low && negb cr then low_confidence
     else if should_alert r then confirmed_alert else awaiting_confirmation)
  /\ risk_score r
     = (if negb pl then Z2SF 0
        else if cr && critical_override self
        then fadd (Z2SF 95) (fmul anomaly_score (Z2SF 5))
        else if cnt <? min_abnormal_signals self then fmul anomaly_score (Z2SF 50)
        else if hm && negb cr then fmul anomaly_score (Z2SF 40)
        else if low && negb cr then fmul anomaly_score (Z2SF 60)
        else composite_score anomaly_score cnt).
Proof.
  cascade self features;
    cbn [fst snd stage debug_info risk_score should_alert negb];
    rewrite ?Hoverride, ?Hfew, ?Hsuppress_motion, ?Hsuppress_conf;
    split; reflexivity.
Qed.

End CascadeDecision.

Section CascadeTests.
Import EnhancedRiskScorer.

Variable self : t.
Hypothesis Hth : THRESHOLDS self = init_THRESHOLDS.

Lemma plausibility_test (features : Features) :
  fst (check_physiological_plausibility self features)
  = negb ((flt (get features "hr_mean" (Z2SF 70)) (Z2SF 50)
           && fgt (get features "spo2_mean" (Z2SF 95)) (Z2SF 95))
          || (flt (get features "spo2_mean" (Z2SF 100)) (Z2SF 90)
              && flt (get features "hr_mean" (Z2SF 70)) (Z2SF 80))
          || (flt (get features "sbp_mean" (Z2SF 120))
                  (get features "dbp_mean" (Z2SF 80))
              && fgt (get features "sbp_mean" (Z2SF 120)) (Z2SF 0))).
Proof.
  unfold check_physiological_plausibility. rewrite Hth.
  cbn [hr_low init_THRESHOLDS].
  repeat match goal with
         | |- context [if ?b then _ else _] => destruct b
         end; reflexivity.
Qed.

Lemma critical_test (features : Features) :
  fst (check_critical_condition self features)
  = flt (get features "spo2_min" (Z2SF 100)) (Z2SF 88)
    || fgt (get features "hr_max" (Z2SF 100)) (Z2SF 140)
    || flt (get features "sbp_mean" (Z2SF 120)) (Z2SF 90)
    || (flt (get features "spo2_mean" (Z2SF 100)) (Z2SF 92)
        && fgt (get features "hr_mean" (Z2SF 70)) (Z2SF 120)).
Proof.
  unfold check_critical_condition. rewrite Hth.
  cbn [spo2_critical hr_critical sbp_critical spo2_warning hr_warning init_THRESHOLDS].
  repeat match goal with
         | |- context [if ?b then _ else _] => destruct b
         end; reflexivity.
Qed.

End CascadeTests.

Ltac split_tests :=
  repeat match goal with
         | |- context [if ?b then _ else _] => destruct b eqn:?
         end.

(** X1.  The plausibility filter comes first: with the constructor's
    thresholds a window is returned as [plausibility_failed] exactly when one
    of the three implausible combinations holds (mean HR below 50 with mean
    SpO2 above 95; mean SpO2 below 90 with mean HR below 80; systolic below
    diastolic and positive), whatever its other fields; the result is then
    score 0 without alert, and the scorer is unchanged. *)
Theorem X1_plausibility_filter_first (self : EnhancedRiskScorer.t)
    (features : Features) (anomaly_score confidence : float) :
  EnhancedRiskScorer.THRESHOLDS self = EnhancedRiskScorer.init_THRESHOLDS ->
  let implausible :=
    (flt (get features "hr_mean" (Z2SF 70)) (Z2SF 50)
     && fgt (get features "spo2_mean" (Z2SF 95)) (Z2SF 95))
    || (flt (get features "spo2_mean" (Z2SF 100)) (Z2SF 90)
        && flt (get features "hr_mean" (Z2SF 70)) (Z2SF 80))
    || (flt (get features "sbp_mean" (Z2SF 120)) (get features "dbp_mean" (Z2SF 80))
        && fgt (get features "sbp_mean" (Z2SF 120)) (Z2SF 0)) in
  let '(r, self') :=
    EnhancedRiskScorer.calculate_risk_score self features anomaly_score confidence in
  (EnhancedRiskScorer.stage (EnhancedRiskScorer.debug_info r)
   = EnhancedRiskScorer.plausibility_failed <-> implausible = true)
  /\ (implausible = true ->
      EnhancedRiskScorer.risk_score r = Z2SF 0 /\
      EnhancedRiskScorer.should_alert r = false /\
      self' = self).
Proof.
  intros Hth implausible.
  pose proof (stage_and_score self features anomaly_score confidence) as Hs.
  pose proof (calculate_risk_score_effect self features anomaly_score confidence) as He.
  destruct (EnhancedRiskScorer.calculate_risk_score self features anomaly_score
              confidence) as [r self'].
  cbv zeta in Hs. cbn [fst] in Hs. destruct Hs as [Hstage Hrisk].
  rewrite (plausibility_test self Hth features) in Hstage, Hrisk.
  fold implausible in Hstage, Hrisk. rewrite negb_involutive in Hstage, Hrisk.
  destruct implausible.
  - rewrite Hstage in He. rewrite Hstage, Hrisk. destruct He as [-> ->].
    repeat split.
  - split; [| intros H; discriminate H].
    rewrite Hstage. split; [| intros H; discriminate H].
    split_tests; intros H; discriminate H.
Qed.

Lemma X1_witness :
  let r := fst (EnhancedRiskScorer.calculate_risk_score
                  EnhancedRiskScorer.init_default
                  {[ "hr_mean" := Z2SF 40; "spo2_mean" := Z2SF 98;
                     "spo2_min" := Z2SF 80; "hr_max" := Z2SF 150 ]}
                  lit_0_8 lit_0_8) in
  EnhancedRiskScorer.stage (EnhancedRiskScorer.debug_info r)
    = EnhancedRiskScorer.plausibility_failed /\
  EnhancedRiskScorer.should_alert r = false.
Proof.
  pose proof (X1_plausibility_filter_first EnhancedRiskScorer.init_default
                {[ "hr_mean" := Z2SF 40; "spo2_mean" := Z2SF 98;
                   "spo2_min" := Z2SF 80; "hr_max" := Z2SF 150 ]}
                lit_0_8 lit_0_8 eq_refl) as H.
  vm_compute in H. destruct H as [H1 H2].
  destruct (H2 eq_refl) as (_ & Ha & _).
  split; [exact (proj2 H1 eq_refl) | exact Ha].
Defined.

(** X2.  Each of the four critical conditions triggers the override: with
    the constructor's thresholds a window is returned as [critical_override]
    exactly when it passed the plausibility filter, the override is enabled,
    and [spo2_min < 88], or [hr_max > 140], or [sbp_mean < 90], or
    ([spo2_mean < 92] and [hr_mean > 120]).  The result is then an alert with
    score [95 + anomaly_score * 5], which lies in [95, 100] for an anomaly
    score in [0, 1], and the temporal buffer is not touched. *)
Theorem X2_critical_conditions (self : EnhancedRiskScorer.t)
    (features : Features) (anomaly_score confidence : float) :
  EnhancedRiskScorer.THRESHOLDS self = EnhancedRiskScorer.init_THRESHOLDS ->
  is_float anomaly_score ->
  fle (Z2SF 0) anomaly_score = true -> fle anomaly_score (Z2SF 1) = true ->
  let critical :=
    flt (get features "spo2_min" (Z2SF 100)) (Z2SF 88)
    || fgt (get features "hr_max" (Z2SF 100)) (Z2SF 140)
    || flt (get features "sbp_mean" (Z2SF 120)) (Z2SF 90)
    || (flt (get features "spo2_mean" (Z2SF 100)) (Z2SF 92)
        && fgt (get features "hr_mean" (Z2SF 70)) (Z2SF 120)) in
  let '(r, self') :=
    EnhancedRiskScorer.calculate_risk_score self features anomaly_score confidence in
  (EnhancedRiskScorer.stage (EnhancedRiskScorer.debug_info r)
   = EnhancedRiskScorer.critical_override_stage <->
   fst (EnhancedRiskScorer.check_physiological_plausibility self features) = true /\
   critical = true /\ EnhancedRiskScorer.critical_override self = true)
  /\ (EnhancedRiskScorer.stage (EnhancedRiskScorer.debug_info r)
      = EnhancedRiskScorer.critical_override_stage ->
      EnhancedRiskScorer.should_alert r = true /\
      EnhancedRiskScorer.risk_score r
        = fadd (Z2SF 95) (fmul anomaly_score (Z2SF 5)) /\
      fle (Z2SF 95) (EnhancedRiskScorer.risk_score r) = true /\
      fle (EnhancedRiskScorer.risk_score r) (Z2SF 100) = true /\
      self' = self).
Proof.
  intros Hth Va H0 H1 critical.
  pose proof (stage_and_score self features anomaly_score confidence) as Hs.
  pose proof (calculate_risk_score_effect self features anomaly_score confidence) as He.
  destruct (EnhancedRiskScorer.calculate_risk_score self features anomaly_score
              confidence) as [r self'].
  cbv zeta in Hs. cbn [fst] in Hs. destruct Hs as [Hstage Hrisk].
  rewrite (critical_test self Hth features) in Hstage, Hrisk.
  fold critical in Hstage, Hrisk.
  assert (Hiff : EnhancedRiskScorer.stage (EnhancedRiskScorer.debug_info r)
                 = EnhancedRiskScorer.critical_override_stage <->
                 fst (EnhancedRiskScorer.check_physiological_plausibility self features)
                 = true /\ critical = true /\
                 EnhancedRiskScorer.critical_override self = true).
  { rewrite Hstage.
    destruct (fst (EnhancedRiskScorer.check_physiological_plausibility self features));
      destruct critical; destruct (EnhancedRiskScorer.critical_override self);
      cbn [negb andb]; split_tests; split; intros H; try discriminate H;
      try (destruct H as (H & H' & H''); discriminate); auto. }
  split; [exact Hiff |]. intros Hst.
  destruct (proj1 Hiff Hst) as (Hpl & Hcr & Hov).
  rewrite Hst in He. destruct He as [-> ->].
  rewrite Hrisk, Hpl, Hcr, Hov. cbn [negb andb].
  repeat split.
  - now apply critical_score_lower.
  - now apply critical_score_upper.
Qed.

Lemma X2_witness :
  let r := fst (EnhancedRiskScorer.calculate_risk_score
                  EnhancedRiskScorer.init_default
                  {[ "hr_max" := Z2SF 150; "motion_std" := lit_0_8 ]}
                  lit_0_8 lit_0_5) in
  EnhancedRiskScorer.should_alert r = true /\
  fle (Z2SF 95) (EnhancedRiskScorer.risk_score r) = true.
Proof.
  pose proof (X2_critical_conditions EnhancedRiskScorer.init_default
                {[ "hr_max" := Z2SF 150; "motion_std" := lit_0_8 ]}
                lit_0_8 lit_0_5 eq_refl eq_refl eq_refl eq_refl) as H.
  vm_compute in H. destruct H as [_ H].
  destruct (H eq_refl) as (Ha & _ & Hb & _).
  split; [exact Ha | exact Hb].
Defined.

(** X3.  An alert comes from exactly two stages, and only stage 7 touches
    the scorer: [alert = true] iff the stage is [critical_override] or
    [confirmed_alert]; a call that stops before stage 7 returns the scorer
    unchanged; a call that reaches stage 7 pushes [risk_score > 70] into the
    buffer, answers with the buffer's verdict, and changes nothing else (the
    configuration and the buffer's capacity stay as they were). *)
Theorem X3_alert_sources_and_state (self : EnhancedRiskScorer.t)
    (features : Features) (anomaly_score confidence : float) :
  let '(r, self') :=
    EnhancedRiskScorer.calculate_risk_score self features anomaly_score confidence in
  (EnhancedRiskScorer.should_alert r = true <->
   EnhancedRiskScorer.stage (EnhancedRiskScorer.debug_info r)
     = EnhancedRiskScorer.critical_override_stage \/
   EnhancedRiskScorer.stage (EnhancedRiskScorer.debug_info r)
     = EnhancedRiskScorer.confirmed_alert)
  /\ (temporal_raw r = None -> self' = self)
  /\ (forall raw_alert, temporal_raw r = Some raw_alert ->
        self' = EnhancedRiskScorer.with_buffer self
                  (fst (TemporalAlertBuffer.should_alert
                          (EnhancedRiskScorer.alert_buffer self) raw_alert)) /\
        EnhancedRiskScorer.should_alert r
        = snd (TemporalAlertBuffer.should_alert
                 (EnhancedRiskScorer.alert_buffer self) raw_alert))
  /\ TemporalAlertBuffer.buffer_size (EnhancedRiskScorer.alert_buffer self')
     = TemporalAlertBuffer.buffer_size (EnhancedRiskScorer.alert_buffer self).
Proof.
  pose proof (calculate_risk_score_effect self features anomaly_score confidence) as He.
  destruct (EnhancedRiskScorer.calculate_risk_score self features anomaly_score
              confidence) as [r self'].
  unfold temporal_raw.
  destruct (EnhancedRiskScorer.stage (EnhancedRiskScorer.debug_info r)) eqn:Hst;
    try (destruct He as [-> Ha]; rewrite Ha;
         repeat split; try discriminate; auto;
         intros [H | H]; discriminate H).
  - destruct He as (-> & Ha & Hiff). repeat split; try discriminate.
    + auto.
    + intros _. now apply Hiff.
    + inversion H. reflexivity.
    + inversion H. exact Ha.
    + cbn [EnhancedRiskScorer.alert_buffer EnhancedRiskScorer.with_buffer].
      pose proof (should_alert_state
                         (EnhancedRiskScorer.alert_buffer self)
                         (fgt (EnhancedRiskScorer.risk_score r) (Z2SF 70))) as E.
      now rewrite E.
  - destruct He as (-> & Ha & Hiff). repeat split; try discriminate.
    + intros H. apply Hiff in H. discriminate H.
    + intros [H | H]; discriminate H.
    + inversion H. reflexivity.
    + inversion H. exact Ha.
    + cbn [EnhancedRiskScorer.alert_buffer EnhancedRiskScorer.with_buffer].
      pose proof (should_alert_state
                         (EnhancedRiskScorer.alert_buffer self)
                         (fgt (EnhancedRiskScorer.risk_score r) (Z2SF 70))) as E.
      now rewrite E.
Qed.

Ltac split_tests_in H :=
  repeat match type of H with
         | context [if ?b then _ else _] => destruct b eqn:?
         end.

Section Thresholds.

Lemma below_raw_threshold (x c : float) :
  fle (Z2SF 0) x = true -> fle x c = true -> fle c (Z2SF 70) = true ->
  fgt x (Z2SF 70) = false.
Proof.
  intros H0 Hx Hc.
  pose proof (fle_trans_nonneg x c (Z2SF 70) H0 Hx Hc) as H70.
  unfold fgt.
  rewrite (fle_negb_flt x (Z2SF 70)) in H70;
    [| exact (fle_not_nan_r _ _ H0) | discriminate].
  now destruct (flt (Z2SF 70) x).
Qed.

End Thresholds.

(** X4.  Suppressed windows stay below the alert threshold: for an anomaly
    score in [0, 1], [insufficient_signals] returns [anomaly_score * 50 <= 50],
    [motion_artifact] returns [anomaly_score * 40 <= 40], [low_confidence]
    returns [anomaly_score * 60 <= 60]; so every result that neither alerts
    nor reaches the temporal stage has a score that is not above 70. *)
Theorem X4_suppressed_scores_below_threshold (self : EnhancedRiskScorer.t)
    (features : Features) (anomaly_score confidence : float) :
  is_float anomaly_score ->
  fle (Z2SF 0) anomaly_score = true -> fle anomaly_score (Z2SF 1) = true ->
  let r := fst (EnhancedRiskScorer.calculate_risk_score self features
                  anomaly_score confidence) in
  (EnhancedRiskScorer.stage (EnhancedRiskScorer.debug_info r)
   = EnhancedRiskScorer.insufficient_signals ->
   EnhancedRiskScorer.risk_score r = fmul anomaly_score (Z2SF 50) /\
   fle (EnhancedRiskScorer.risk_score r) (Z2SF 50) = true)
  /\ (EnhancedRiskScorer.stage (EnhancedRiskScorer.debug_info r)
      = EnhancedRiskScorer.motion_artifact ->
      EnhancedRiskScorer.risk_score r = fmul anomaly_score (Z2SF 40) /\
      fle (EnhancedRiskScorer.risk_score r) (Z2SF 40) = true)
  /\ (EnhancedRiskScorer.stage (EnhancedRiskScorer.debug_info r)
      = EnhancedRiskScorer.low_confidence ->
      EnhancedRiskScorer.risk_score r = fmul anomaly_score (Z2SF 60) /\
      fle (EnhancedRiskScorer.risk_score r) (Z2SF 60) = true)
  /\ (EnhancedRiskScorer.should_alert r = false -> temporal_raw r = None ->
      fgt (EnhancedRiskScorer.risk_score r) (Z2SF 70) = false).
Proof.
  intros Va H0 H1 r.
  destruct (stage_and_score self features anomaly_score confidence) as [Hstage Hrisk].
  pose proof (calculate_risk_score_effect self features anomaly_score confidence) as He.
  fold r in Hstage, Hrisk. unfold temporal_raw.
  destruct (EnhancedRiskScorer.calculate_risk_score self features anomaly_score
              confidence) as [r' self'] eqn:Hcalc.
  cbn [fst] in r. subst r.
  destruct (fmul_unit_range anomaly_score (Z2SF 50) Va eq_refl H0 H1 eq_refl).
  destruct (fmul_unit_range anomaly_score (Z2SF 40) Va eq_refl H0 H1 eq_refl).
  destruct (fmul_unit_range anomaly_score (Z2SF 60) Va eq_refl H0 H1 eq_refl).
  split_tests_in Hstage; rewrite Hstage, Hrisk in *;
    repeat split; try discriminate; try assumption; intros;
    try discriminate;
    try (destruct He as [_ He]; congruence);
    first [ reflexivity
          | now apply (below_raw_threshold _ (Z2SF 50))
          | now apply (below_raw_threshold _ (Z2SF 40))
          | now apply (below_raw_threshold _ (Z2SF 60)) ].
Qed.

Lemma X4_witness :
  let r := fst (EnhancedRiskScorer.calculate_risk_score
                  EnhancedRiskScorer.init_default test_features_motion
                  lit_0_7 lit_0_8) in
  fgt (EnhancedRiskScorer.risk_score r) (Z2SF 70) = false.
Proof.
  pose proof (X4_suppressed_scores_below_threshold
                EnhancedRiskScorer.init_default test_features_motion
                lit_0_7 lit_0_8 eq_refl eq_refl eq_refl) as H.
  cbv zeta in H. destruct H as (_ & _ & _ & H).
  apply H; reflexivity.
Defined.

(** X5.  On every branch of the cascade the risk score never decreases when
    the anomaly score grows: for a fixed scorer, feature dict and confidence
    and well-formed [0 <= a1 <= a2], the score returned for [a1] is at most
    the score returned for [a2] (the tests that choose the branch do not read
    the anomaly score). *)
Theorem X5_risk_score_monotone (self : EnhancedRiskScorer.t)
    (features : Features) (a1 a2 confidence : float) :
  is_float a1 -> is_float a2 ->
  fle (Z2SF 0) a1 = true -> fle a1 a2 = true ->
  fle (EnhancedRiskScorer.risk_score
         (fst (EnhancedRiskScorer.calculate_risk_score self features a1 confidence)))
      (EnhancedRiskScorer.risk_score
         (fst (EnhancedRiskScorer.calculate_risk_score self features a2 confidence)))
  = true.
Proof.
  intros V1 V2 H0 H12.
  destruct (stage_and_score self features a1 confidence) as [_ Hr1].
  destruct (stage_and_score self features a2 confidence) as [_ Hr2].
  cbv zeta in Hr1, Hr2. rewrite Hr1, Hr2.
  pose proof (count_abnormal_signals_nonneg self features) as Hcnt.
  split_tests.
  - reflexivity.
  - apply fadd_mono_l; try reflexivity.
    + apply fmul_is_float. reflexivity.
    + apply fmul_is_float. reflexivity.
    + apply fmul_nonneg; [reflexivity | exact H0].
    + apply fmul_mono; auto.
  - apply fmul_mono; auto.
  - apply fmul_mono; auto.
  - apply fmul_mono; auto.
  - now apply composite_score_mono.
Qed.

Lemma X5_witness :
  fle (EnhancedRiskScorer.risk_score
         (fst (EnhancedRiskScorer.calculate_risk_score
                 EnhancedRiskScorer.init_default test_features_motion
                 lit_0_5 lit_0_8)))
      (EnhancedRiskScorer.risk_score
         (fst (EnhancedRiskScorer.calculate_risk_score
                 EnhancedRiskScorer.init_default test_features_motion
                 lit_0_7 lit_0_8)))
  = true.
Proof.
  apply (X5_risk_score_monotone EnhancedRiskScorer.init_default
           test_features_motion lit_0_5 lit_0_7 lit_0_8); reflexivity.
Defined.

(** X6.  The score does not depend on the temporal buffer: two scorers that
    differ only in their buffer return the same risk score and push the same
    raw alert; when the window stops before stage 7 the whole result is the
    same.  Only the alert of a stage-7 window depends on the buffer. *)
Theorem X6_score_independent_of_buffer (self : EnhancedRiskScorer.t)
    (b1 b2 : TemporalAlertBuffer.t) (features : Features)
    (anomaly_score confidence : float) :
  let r1 := fst (EnhancedRiskScorer.calculate_risk_score
                   (EnhancedRiskScorer.with_buffer self b1) features
                   anomaly_score confidence) in
  let r2 := fst (EnhancedRiskScorer.calculate_risk_score
                   (EnhancedRiskScorer.with_buffer self b2) features
                   anomaly_score confidence) in
  EnhancedRiskScorer.risk_score r1 = EnhancedRiskScorer.risk_score r2 /\
  temporal_raw r1 = temporal_raw r2 /\
  (temporal_raw r1 = None -> r1 = r2).
Proof.
  intros r1 r2.
  destruct (calculate_with_buffer self b1 features anomaly_score confidence)
    as (Hr1 & Ht1 & He1).
  destruct (calculate_with_buffer self b2 features anomaly_score confidence)
    as (Hr2 & Ht2 & He2).
  fold r1 in Hr1, Ht1, He1. fold r2 in Hr2, Ht2, He2.
  repeat split; try congruence.
  intros H. rewrite He1, He2; congruence.
Qed.

(** X7.  With the override enabled, motion and low confidence keep a window
    away from the temporal stage: if the window shows high motion
    ([motion_std] above the threshold or [motion_max > 1.0]) or the
    confidence is below [min_confidence], the result never is
    [confirmed_alert] or [awaiting_confirmation], the scorer is unchanged,
    and an alert can only be a critical override. *)
Theorem X7_gates_block_temporal_stage (self : EnhancedRiskScorer.t)
    (features : Features) (anomaly_score confidence : float) :
  EnhancedRiskScorer.critical_override self = true ->
  fst (EnhancedRiskScorer.assess_motion_artifact self features) = true \/
  flt confidence (EnhancedRiskScorer.min_confidence self) = true ->
  let '(r, self') :=
    EnhancedRiskScorer.calculate_risk_score self features anomaly_score confidence in
  temporal_raw r = None /\ self' = self /\
  (EnhancedRiskScorer.should_alert r = true ->
   EnhancedRiskScorer.stage (EnhancedRiskScorer.debug_info r)
   = EnhancedRiskScorer.critical_override_stage).
Proof.
  intros Hov Hgate.
  destruct (stage_and_score self features anomaly_score confidence) as [Hstage _].
  pose proof (calculate_risk_score_effect self features anomaly_score confidence) as He.
  destruct (EnhancedRiskScorer.calculate_risk_score self features anomaly_score
              confidence) as [r self'].
  cbv zeta in Hstage. cbn [fst] in Hstage. rewrite Hov, andb_true_r in Hstage.
  assert (Hnone : temporal_raw r = None).
  { unfold temporal_raw.
    destruct (fst (EnhancedRiskScorer.check_critical_condition self features));
      cbn [negb andb] in Hstage; rewrite ?andb_true_r in Hstage;
      split_tests_in Hstage; rewrite Hstage; try reflexivity;
      destruct Hgate; congruence. }
  split; [exact Hnone |]. unfold temporal_raw in Hnone.
  destruct (EnhancedRiskScorer.stage (EnhancedRiskScorer.debug_info r));
    try discriminate Hnone; destruct He as [-> Ha];
    repeat split; try reflexivity; intros; congruence.
Qed.

Lemma X7_witness :
  let r := fst (EnhancedRiskScorer.calculate_risk_score
                  EnhancedRiskScorer.init_default
                  {[ "spo2_mean" := Z2SF 91; "sbp_mean" := Z2SF 95;
                     "motion_std" := lit_0_8 ]}
                  lit_0_8 lit_0_8) in
  temporal_raw r = None.
Proof.
  pose proof (X7_gates_block_temporal_stage EnhancedRiskScorer.init_default
                {[ "spo2_mean" := Z2SF 91; "sbp_mean" := Z2SF 95;
                   "motion_std" := lit_0_8 ]}
                lit_0_8 lit_0_8 eq_refl (or_introl eq_refl)) as H.
  destruct (EnhancedRiskScorer.calculate_risk_score _ _ _ _) as [r s].
  exact (proj1 H).
Defined.

(** X8.  With [critical_override] disabled no result is a critical override,
    and a plausible critical window is exempt from the motion and confidence
    gates: it is suppressed as [insufficient_signals] when it has fewer than
    [min_abnormal_signals] abnormal signals, and otherwise reaches the
    temporal stage with the composite score, whatever its motion and
    confidence. *)
Theorem X8_override_disabled (self : EnhancedRiskScorer.t)
    (features : Features) (anomaly_score confidence : float) :
  EnhancedRiskScorer.critical_override self = false ->
  let r := fst (EnhancedRiskScorer.calculate_risk_score self features
                  anomaly_score confidence) in
  let cnt := fst (EnhancedRiskScorer.count_abnormal_signals self features) in
  EnhancedRiskScorer.stage (EnhancedRiskScorer.debug_info r)
    <> EnhancedRiskScorer.critical_override_stage
  /\ (fst (EnhancedRiskScorer.check_physiological_plausibility self features) = true ->
      fst (EnhancedRiskScorer.check_critical_condition self features) = true ->
      (cnt < EnhancedRiskScorer.min_abnormal_signals self ->
       EnhancedRiskScorer.stage (EnhancedRiskScorer.debug_info r)
         = EnhancedRiskScorer.insufficient_signals /\
       EnhancedRiskScorer.should_alert r = false)
      /\ (EnhancedRiskScorer.min_abnormal_signals self <= cnt ->
          EnhancedRiskScorer.risk_score r
            = EnhancedRiskScorer.composite_score anomaly_score cnt /\
          temporal_raw r
            = Some (fgt (EnhancedRiskScorer.composite_score anomaly_score cnt)
                        (Z2SF 70)))).
Proof.
  intros Hov r cnt.
  destruct (stage_and_score self features anomaly_score confidence) as [Hstage Hrisk].
  pose proof (calculate_risk_score_effect self features anomaly_score confidence) as He.
  fold r cnt in Hstage, Hrisk. unfold temporal_raw.
  destruct (EnhancedRiskScorer.calculate_risk_score self features anomaly_score
              confidence) as [r' self'].
  cbn [fst] in r. subst r.
  rewrite Hov, andb_false_r in Hstage, Hrisk.
  split.
  - rewrite Hstage. split_tests; discriminate.
  - intros Hpl Hcr. rewrite Hpl, Hcr in Hstage, Hrisk.
    cbn [negb andb] in Hstage, Hrisk. rewrite !andb_false_r in Hstage, Hrisk.
    split; intros Hc.
    + destruct (Z.ltb_spec cnt (EnhancedRiskScorer.min_abnormal_signals self));
        [| lia].
      rewrite Hstage in He |- *. now destruct He.
    + destruct (Z.ltb_spec cnt (EnhancedRiskScorer.min_abnormal_signals self));
        [lia |].
      rewrite Hrisk, Hstage. split; [reflexivity |].
      now destruct (EnhancedRiskScorer.should_alert r').
Qed.

Lemma X8_witness :
  let r := fst (EnhancedRiskScorer.calculate_risk_score
                  (EnhancedRiskScorer.init 3 lit_0_7 2 lit_0_5 false)
                  {[ "sbp_mean" := Z2SF 85 ]} lit_0_8 lit_0_8) in
  EnhancedRiskScorer.stage (EnhancedRiskScorer.debug_info r)
    <> EnhancedRiskScorer.critical_override_stage.
Proof.
  exact (proj1 (X8_override_disabled
                  (EnhancedRiskScorer.init 3 lit_0_7 2 lit_0_5 false)
                  {[ "sbp_mean" := Z2SF 85 ]} lit_0_8 lit_0_8 eq_refl)).
Defined.

(* ===================================================================== *)
(** * The scorer over a stream of windows *)
(* ===================================================================== *)

Section Streams.
Import TemporalAlertBuffer.

Lemma run_buffer_size (cs : list call) : forall self : t,
  buffer_size (fst (run self cs)) = buffer_size self.
Proof.
  induction cs as [| c cs IH]; intros self; cbn [run]; [reflexivity |].
  pose proof (step_buffer_size self c) as Hs.
  destruct (step self c) as [s r]. specialize (IH s).
  destruct (run s cs) as [s' rs]. cbn [fst] in *. congruence.
Qed.

Lemma feed_snoc (self : t) (bs : list bool) (b : bool) :
  feed self (bs ++ [b])
  = feed self bs
    ++ [snd (should_alert (fst (run self (map Should_alert bs))) b)].
Proof.
  unfold feed. rewrite map_app, run_app. cbn [snd map run step].
  destruct (should_alert (fst (run self (map Should_alert bs))) b) as [s r].
  cbn [snd]. rewrite omap_app. reflexivity.
Qed.

Lemma length_feed (self : t) (bs : list bool) : length (feed self bs) = length bs.
Proof.
  induction bs as [| b bs IH] using rev_ind; [reflexivity |].
  rewrite feed_snoc, !length_app, IH. reflexivity.
Qed.

(** Fed with raw alerts that are all true, a fresh buffer of capacity
    [N >= 1] answers true from the [N]-th call on. *)
Lemma feed_all_true (N : Z) (n : nat) :
  1 <= N ->
  feed (init N) (replicate n true)
  = map (fun k => N <=? Z.of_nat k + 1) (seq 0 n).
Proof.
  intros HN. induction n as [| n IH]; [reflexivity |].
  rewrite replicate_S_end, feed_snoc, IH, seq_S, map_app. f_equal.
  cbn [map Nat.add]. f_equal.
  pose proof (feed_answer N (replicate n true) true ltac:(lia)) as Hans.
  cbv zeta in Hans. rewrite length_app, length_replicate in Hans. cbn [length] in Hans.
  destruct (Z.leb_spec N (Z.of_nat n + 1)) as [Hle | Hgt].
  - apply Hans. split; [lia |].
    rewrite <- replicate_S_end. apply Forall_drop, Forall_replicate. reflexivity.
  - destruct (snd (should_alert _ true)); [| reflexivity].
    destruct Hans as [Hans _]. specialize (Hans eq_refl). lia.
Qed.

End Streams.

Section ScorerStreams.
Import EnhancedRiskScorer.

Lemma with_buffer_same (self : t) : with_buffer self (alert_buffer self) = self.
Proof. now destruct self. Qed.

(** One call seen from the buffer: a stage-7 window is one [should_alert]
    call, any other window is no call at all. *)
Lemma calculate_as_buffer_call (self : t) (w : Window) :
  let '(r, self') :=
    calculate_risk_score self (w_features w) (w_anomaly_score w) (w_confidence w) in
  self' = with_buffer self
            (fst (TemporalAlertBuffer.run (alert_buffer self)
                    (map TemporalAlertBuffer.Should_alert
                         (option_list (temporal_raw r))))) /\
  option_list (temporal_alert r)
  = TemporalAlertBuffer.feed (alert_buffer self) (option_list (temporal_raw r)).
Proof.
  pose proof (calculate_risk_score_effect self (w_features w) (w_anomaly_score w)
                (w_confidence w)) as He.
  destruct (calculate_risk_score _ _ _ _) as [r self'].
  unfold temporal_raw, temporal_alert, TemporalAlertBuffer.feed.
  destruct (stage (debug_info r));
    try (destruct He as [-> _]; cbn; now rewrite with_buffer_same).
  - destruct He as (-> & -> & _).
    cbn -[TemporalAlertBuffer.should_alert Z2SF fgt].
    destruct (TemporalAlertBuffer.should_alert _ _) as [b a]. now cbn.
  - destruct He as (-> & -> & _).
    cbn -[TemporalAlertBuffer.should_alert Z2SF fgt].
    destruct (TemporalAlertBuffer.should_alert _ _) as [b a]. now cbn.
Qed.

Lemma feed_app (b : TemporalAlertBuffer.t) (l1 l2 : list bool) :
  TemporalAlertBuffer.feed b (l1 ++ l2)
  = TemporalAlertBuffer.feed b l1
    ++ TemporalAlertBuffer.feed
         (fst (TemporalAlertBuffer.run b (map TemporalAlertBuffer.Should_alert l1))) l2.
Proof.
  unfold TemporalAlertBuffer.feed. rewrite map_app, run_app. cbn [snd].
  now rewrite omap_app.
Qed.

Lemma run_as_buffer_session (ws : list Window) : forall self : t,
  let '(rs, self') := run self ws in
  self' = with_buffer self
            (fst (TemporalAlertBuffer.run (alert_buffer self)
                    (map TemporalAlertBuffer.Should_alert (omap temporal_raw rs)))) /\
  omap temporal_alert rs
  = TemporalAlertBuffer.feed (alert_buffer self) (omap temporal_raw rs).
Proof.
  induction ws as [| w ws IH]; intros self; cbn [run].
  - cbn. split; [now rewrite with_buffer_same | reflexivity].
  - pose proof (calculate_as_buffer_call self w) as H1.
    destruct (calculate_risk_score _ _ _ _) as [r s1].
    destruct H1 as [Hs1 Ha1]. specialize (IH s1).
    destruct (run s1 ws) as [rs s']. destruct IH as [Hs' Ha].
    assert (Hom : forall (f : Result -> option bool),
               omap f (r :: rs) = option_list (f r) ++ omap f rs).
    { intros f. cbn. now destruct (f r). }
    rewrite !Hom, map_app, run_app, feed_app. cbn [fst].
    rewrite Hs1 in Hs', Ha. cbn [alert_buffer with_buffer] in Hs', Ha.
    split; [rewrite Hs'; reflexivity | now rewrite Ha1, Ha].
Qed.

End ScorerStreams.

(** X9.  Over a stream of windows the scorer is its temporal buffer fed with
    [risk_score > 70] of the windows that reach stage 7, in order: the buffer
    after the stream is the initial buffer after these [should_alert] calls,
    the alerts of the stage-7 results are the answers of these calls, and
    the other windows (suppressed or critical) leave no trace in it. *)
Theorem X9_stream_is_buffer_session (self : EnhancedRiskScorer.t)
    (ws : list EnhancedRiskScorer.Window) :
  let '(rs, self') := EnhancedRiskScorer.run self ws in
  self' = EnhancedRiskScorer.with_buffer self
            (fst (TemporalAlertBuffer.run (EnhancedRiskScorer.alert_buffer self)
                    (map TemporalAlertBuffer.Should_alert (omap temporal_raw rs))))
  /\ omap temporal_alert rs
     = TemporalAlertBuffer.feed (EnhancedRiskScorer.alert_buffer self)
         (omap temporal_raw rs)
  /\ length rs = length ws.
Proof.
  pose proof (run_as_buffer_session ws self) as H.
  assert (Hlen : length (fst (EnhancedRiskScorer.run self ws)) = length ws).
  { clear H. revert self. induction ws as [| w ws IH]; intros self; [reflexivity |].
    cbn [EnhancedRiskScorer.run].
    destruct (EnhancedRiskScorer.calculate_risk_score _ _ _ _) as [r s1].
    specialize (IH s1). destruct (EnhancedRiskScorer.run s1 ws) as [rs s'].
    cbn in *. now rewrite IH. }
  destruct (EnhancedRiskScorer.run self ws) as [rs self'].
  destruct H as [H1 H2]. repeat split; assumption.
Qed.

Section WarmUp.
Import EnhancedRiskScorer.

(** A confirmation needs a full buffer, and one call adds at most one
    entry. *)
Lemma should_alert_needs_length (b : TemporalAlertBuffer.t) (raw : bool) :
  (snd (TemporalAlertBuffer.should_alert b raw) = true ->
   TemporalAlertBuffer.buffer_size b
   <= Z.of_nat (length (TemporalAlertBuffer.recent_alerts b)) + 1)
  /\ (length (TemporalAlertBuffer.recent_alerts
                (fst (TemporalAlertBuffer.should_alert b raw)))
      <= length (TemporalAlertBuffer.recent_alerts b) + 1)%nat.
Proof.
  rewrite should_alert_answer, should_alert_state. cbn [TemporalAlertBuffer.recent_alerts].
  assert (Hlen : (length (TemporalAlertBuffer.push_evict b raw)
                  <= length (TemporalAlertBuffer.recent_alerts b) + 1)%nat).
  { unfold TemporalAlertBuffer.push_evict, TemporalAlertBuffer.pop0.
    destruct (_ >? _).
    - destruct (TemporalAlertBuffer.recent_alerts b ++ [raw]) eqn:E;
        apply (f_equal length) in E; rewrite length_app in E; cbn in *; lia.
    - rewrite length_app. cbn. lia. }
  split; [| exact Hlen].
  intros H. apply andb_prop in H. destruct H as [H _]. apply Z.eqb_eq in H. lia.
Qed.

Lemma no_early_confirmation (ws : list Window) : forall (self : t) (k : nat),
  Z.of_nat (length (TemporalAlertBuffer.recent_alerts (alert_buffer self)))
  + Z.of_nat k
  < TemporalAlertBuffer.buffer_size (alert_buffer self) ->
  Forall (fun r => stage (debug_info r) <> confirmed_alert)
         (take k (fst (run self ws))).
Proof.
  induction ws as [| w ws IH]; intros self k Hk; cbn [run].
  - destruct k; constructor.
  - pose proof (calculate_risk_score_effect self (w_features w) (w_anomaly_score w)
                  (w_confidence w)) as He.
    destruct (calculate_risk_score _ _ _ _) as [r s1].
    specialize (IH s1). destruct (run s1 ws) as [rs s']. cbn [fst] in *.
    destruct k as [| k]; [constructor |]. cbn [take].
    destruct (should_alert_needs_length (alert_buffer self)
                (fgt (risk_score r) (Z2SF 70))) as [Hneed Hgrow].
    pose proof (should_alert_state (alert_buffer self)
                  (fgt (risk_score r) (Z2SF 70))) as Hst.
    constructor.
    + intros Hc. rewrite Hc in He. destruct He as (_ & Ha & Hiff).
      rewrite Ha in Hiff.
      assert (Hfull : snd (TemporalAlertBuffer.should_alert (alert_buffer self)
                             (fgt (risk_score r) (Z2SF 70))) = true)
        by now apply Hiff.
      apply Hneed in Hfull. lia.
    + apply IH.
      destruct (stage (debug_info r));
        try (destruct He as [-> _]; lia);
        destruct He as (-> & _); cbn [alert_buffer with_buffer];
        rewrite Hst in Hgrow |- *;
        cbn [TemporalAlertBuffer.buffer_size TemporalAlertBuffer.recent_alerts] in *;
        lia.
Qed.

End WarmUp.

(** X10.  Temporal confirmation needs a warm-up: a scorer built with
    [temporal_buffer_size = N] never returns [confirmed_alert] for any of its
    first [N - 1] windows (an alert among them can only be a critical
    override). *)
Theorem X10_no_confirmation_before_N_windows (N : Z) (min_confidence : float)
    (min_abnormal_signals : Z) (motion_threshold : float)
    (critical_override : bool) (ws : list EnhancedRiskScorer.Window) :
  Forall (fun r =>
            EnhancedRiskScorer.stage (EnhancedRiskScorer.debug_info r)
              <> EnhancedRiskScorer.confirmed_alert /\
            (EnhancedRiskScorer.should_alert r = true ->
             EnhancedRiskScorer.stage (EnhancedRiskScorer.debug_info r)
               = EnhancedRiskScorer.critical_override_stage))
         (take (Z.to_nat N - 1)
               (fst (EnhancedRiskScorer.run
                       (EnhancedRiskScorer.init N min_confidence
                          min_abnormal_signals motion_threshold critical_override)
                       ws))).
Proof.
  set (self := EnhancedRiskScorer.init N _ _ _ _).
  pose proof (no_early_confirmation ws self (Z.to_nat N - 1)) as H.
  destruct (Z.le_gt_cases N 1) as [Hle | Hgt].
  { replace (Z.to_nat N - 1)%nat with 0%nat by lia. constructor. }
  specialize (H ltac:(cbn; lia)).
  assert (Hsrc : Forall (fun r =>
            EnhancedRiskScorer.should_alert r = true ->
            EnhancedRiskScorer.stage (EnhancedRiskScorer.debug_info r)
              = EnhancedRiskScorer.critical_override_stage \/
            EnhancedRiskScorer.stage (EnhancedRiskScorer.debug_info r)
              = EnhancedRiskScorer.confirmed_alert)
          (fst (EnhancedRiskScorer.run self ws))).
  { clear H. generalize self. clear self.
    induction ws as [| w ws IH]; intros self; cbn [EnhancedRiskScorer.run];
      [constructor |].
    pose proof (calculate_risk_score_effect self (EnhancedRiskScorer.w_features w)
                  (EnhancedRiskScorer.w_anomaly_score w)
                  (EnhancedRiskScorer.w_confidence w)) as He.
    destruct (EnhancedRiskScorer.calculate_risk_score _ _ _ _) as [r s1].
    specialize (IH s1). destruct (EnhancedRiskScorer.run s1 ws) as [rs s'].
    cbn [fst] in *. constructor; [| exact IH].
    intros Ha.
    destruct (EnhancedRiskScorer.stage (EnhancedRiskScorer.debug_info r));
      try (destruct He as [_ He]; congruence); auto.
    destruct He as (_ & _ & Hiff). apply Hiff in Ha. discriminate Ha. }
  apply (Forall_take _ (Z.to_nat N - 1)%nat) in Hsrc.
  rewrite Forall_forall in H, Hsrc |- *. intros r Hr.
  split; [now apply H |]. intros Ha.
  destruct (Hsrc r Hr Ha) as [Hc | Hc]; [exact Hc |].
  now apply H in Hc.
Qed.

Section Confirmation.
Import EnhancedRiskScorer.

Lemma temporal_raw_alert (r : Result) (b : bool) :
  temporal_raw r = Some b -> temporal_alert r = Some (should_alert r).
Proof. unfold temporal_raw, temporal_alert. destruct (stage _); now intros. Qed.

Lemma omap_all_true (rs : list Result) :
  Forall (fun r => temporal_raw r = Some true) rs ->
  omap temporal_raw rs = replicate (length rs) true /\
  omap temporal_alert rs = map should_alert rs.
Proof.
  induction 1 as [| r rs Hr _ [IH1 IH2]]; [now split |].
  cbn [omap list_omap length replicate map].
  rewrite (temporal_raw_alert r true Hr), Hr, IH1, IH2. now split.
Qed.

Lemma length_run (ws : list Window) : forall self : t,
  length (fst (run self ws)) = length ws.
Proof.
  induction ws as [| w ws IH]; intros self; [reflexivity |].
  cbn [run]. destruct (calculate_risk_score _ _ _ _) as [r s1].
  specialize (IH s1). destruct (run s1 ws) as [rs s'].
  cbn in *. now rewrite IH.
Qed.

Lemma run_buffer_size_scorer (ws : list Window) (self : t) :
  snd (run self ws)
  = with_buffer self (alert_buffer (snd (run self ws))) /\
  TemporalAlertBuffer.buffer_size (alert_buffer (snd (run self ws)))
  = TemporalAlertBuffer.buffer_size (alert_buffer self).
Proof.
  pose proof (run_as_buffer_session ws self) as H.
  destruct (run self ws) as [rs self']. destruct H as [-> _].
  cbn [snd alert_buffer with_buffer]. split; [reflexivity |].
  apply run_buffer_size.
Qed.

End Confirmation.

(** A window that passes every gate with a score above 70. *)
Example deteriorating_window_is_raw_alert :
  temporal_raw
    (fst (EnhancedRiskScorer.calculate_risk_score EnhancedRiskScorer.init_default
            {[ "spo2_slope" := Z2SF (-1); "hr_slope" := Z2SF 1 ]} lit_0_8 lit_0_8))
  = Some true.
Proof. reflexivity. Qed.

(** X11.  Sustained deterioration: when every window of a stream passes the
    five gates with a composite score above 70, a scorer built with
    [temporal_buffer_size = N >= 1] stays silent for the first [N - 1]
    windows and alerts on every window from the [N]-th on. *)
Theorem X11_sustained_alerts_confirm_from_Nth (N : Z) (min_confidence : float)
    (min_abnormal_signals : Z) (motion_threshold : float)
    (critical_override : bool) (ws : list EnhancedRiskScorer.Window) :
  1 <= N ->
  let rs := fst (EnhancedRiskScorer.run
                   (EnhancedRiskScorer.init N min_confidence min_abnormal_signals
                      motion_threshold critical_override) ws) in
  Forall (fun r => temporal_raw r = Some true) rs ->
  map EnhancedRiskScorer.should_alert rs
  = map (fun k => N <=? Z.of_nat k + 1) (seq 0 (length ws)).
Proof.
  intros HN rs Hall.
  destruct (omap_all_true rs Hall) as [Hraw Halert].
  pose proof (run_as_buffer_session ws
                (EnhancedRiskScorer.init N min_confidence min_abnormal_signals
                   motion_threshold critical_override)) as H.
  pose proof (length_run ws
                (EnhancedRiskScorer.init N min_confidence min_abnormal_signals
                   motion_threshold critical_override)) as Hlen.
  fold rs in Hlen. subst rs.
  destruct (EnhancedRiskScorer.run _ ws) as [rs self']. cbn [fst] in *.
  destruct H as [_ H]. rewrite Halert, Hraw in H.
  cbn [EnhancedRiskScorer.alert_buffer EnhancedRiskScorer.init] in H.
  rewrite H, feed_all_true, Hlen by exact HN. reflexivity.
Qed.

Lemma X11_witness :
  map EnhancedRiskScorer.should_alert
    (fst (EnhancedRiskScorer.run EnhancedRiskScorer.init_default
            (replicate 4
               {| EnhancedRiskScorer.w_features :=
                    {[ "spo2_slope" := Z2SF (-1); "hr_slope" := Z2SF 1 ]};
                  EnhancedRiskScorer.w_anomaly_score := lit_0_8;
                  EnhancedRiskScorer.w_confidence := lit_0_8 |})))
  = [false; false; true; true].
Proof.
  pose proof (X11_sustained_alerts_confirm_from_Nth 3 lit_0_7 2 lit_0_5 true
    (replicate 4
       {| EnhancedRiskScorer.w_features :=
            {[ "spo2_slope" := Z2SF (-1); "hr_slope" := Z2SF 1 ]};
          EnhancedRiskScorer.w_anomaly_score := lit_0_8;
          EnhancedRiskScorer.w_confidence := lit_0_8 |})
    ltac:(lia)) as H.
  cbv zeta in H. apply H.
  vm_compute. repeat constructor.
Defined.

(** X12.  Temporal confirmation over the history of a scorer: for a window
    that reaches stage 7, the alert is true exactly when the last
    [temporal_buffer_size] windows that reached stage 7 since construction,
    this one included, all had a composite score above 70.  Windows stopped
    by an earlier stage (implausible, critical, too few signals, motion, low
    confidence) are skipped: they neither count towards the streak nor
    break it. *)
Theorem X12_alert_iff_last_N_stage7_windows (N : Z) (min_confidence : float)
    (min_abnormal_signals : Z) (motion_threshold : float)
    (critical_override : bool) (ws : list EnhancedRiskScorer.Window)
    (w : EnhancedRiskScorer.Window) (b : bool) :
  0 <= N ->
  let self := EnhancedRiskScorer.init N min_confidence min_abnormal_signals
                motion_threshold critical_override in
  let rs := fst (EnhancedRiskScorer.run self ws) in
  let r := fst (EnhancedRiskScorer.calculate_risk_score
                  (snd (EnhancedRiskScorer.run self ws))
                  (EnhancedRiskScorer.w_features w)
                  (EnhancedRiskScorer.w_anomaly_score w)
                  (EnhancedRiskScorer.w_confidence w)) in
  temporal_raw r = Some b ->
  let raw := omap temporal_raw rs ++ [b] in
  EnhancedRiskScorer.should_alert r = true <->
  (Z.to_nat N <= length raw)%nat /\
  Forall (fun x => x = true) (drop (length raw - Z.to_nat N) raw).
Proof.
  intros HN self rs r Hr raw.
  pose proof (run_as_buffer_session ws self) as H.
  subst rs r raw. destruct (EnhancedRiskScorer.run self ws) as [rs s].
  cbn [fst snd] in *. destruct H as [Hs _].
  pose proof (calculate_risk_score_effect s (EnhancedRiskScorer.w_features w)
                (EnhancedRiskScorer.w_anomaly_score w)
                (EnhancedRiskScorer.w_confidence w)) as He.
  destruct (EnhancedRiskScorer.calculate_risk_score s _ _ _) as [r s2].
  cbn [fst] in *.
  pose proof (feed_answer N (omap temporal_raw rs) b HN) as Hans.
  cbv zeta in Hans. rewrite <- Hans. clear Hans.
  assert (Hbuf : EnhancedRiskScorer.alert_buffer s
                 = fst (TemporalAlertBuffer.run (TemporalAlertBuffer.init N)
                          (map TemporalAlertBuffer.Should_alert
                               (omap temporal_raw rs)))).
  { rewrite Hs. reflexivity. }
  rewrite <- Hbuf. unfold temporal_raw in Hr.
  destruct (EnhancedRiskScorer.stage (EnhancedRiskScorer.debug_info r));
    try discriminate Hr; destruct He as (_ & -> & _);
    injection Hr as <-; reflexivity.
Qed.

Lemma X12_witness :
  let w := {| EnhancedRiskScorer.w_features :=
                {[ "spo2_slope" := Z2SF (-1); "hr_slope" := Z2SF 1 ]};
              EnhancedRiskScorer.w_anomaly_score := lit_0_8;
              EnhancedRiskScorer.w_confidence := lit_0_8 |} in
  let quiet := {| EnhancedRiskScorer.w_features := ∅;
                  EnhancedRiskScorer.w_anomaly_score := lit_0_8;
                  EnhancedRiskScorer.w_confidence := lit_0_8 |} in
  EnhancedRiskScorer.should_alert
    (fst (EnhancedRiskScorer.calculate_risk_score
            (snd (EnhancedRiskScorer.run EnhancedRiskScorer.init_default
                    [w; quiet; w]))
            (EnhancedRiskScorer.w_features w)
            (EnhancedRiskScorer.w_anomaly_score w)
            (EnhancedRiskScorer.w_confidence w)))
  = true.
Proof.
  intros w quiet.
  pose proof (X12_alert_iff_last_N_stage7_windows 3 lit_0_7 2 lit_0_5 true
                [w; quiet; w] w true ltac:(lia)) as H.
  cbv zeta in H. apply H; [reflexivity |].
  vm_compute. split; [lia | repeat constructor].
Defined.

(** X13.  [reset] after any stream of windows gives back the scorer as it
    was constructed: the configuration and the buffer capacity never change,
    and the history is dropped. *)
Theorem X13_reset_restores_constructed_scorer (N : Z) (min_confidence : float)
    (min_abnormal_signals : Z) (motion_threshold : float)
    (critical_override : bool) (ws : list EnhancedRiskScorer.Window) :
  EnhancedRiskScorer.reset
    (snd (EnhancedRiskScorer.run
            (EnhancedRiskScorer.init N min_confidence min_abnormal_signals
               motion_threshold critical_override) ws))
  = EnhancedRiskScorer.init N min_confidence min_abnormal_signals
      motion_threshold critical_override.
Proof.
  destruct (run_buffer_size_scorer ws
              (EnhancedRiskScorer.init N min_confidence min_abnormal_signals
                 motion_threshold critical_override)) as [Hs Hsize].
  rewrite Hs. unfold EnhancedRiskScorer.reset, TemporalAlertBuffer.reset.
  cbn [EnhancedRiskScorer.alert_buffer EnhancedRiskScorer.with_buffer
       EnhancedRiskScorer.min_confidence EnhancedRiskScorer.min_abnormal_signals
       EnhancedRiskScorer.motion_threshold EnhancedRiskScorer.critical_override
       EnhancedRiskScorer.THRESHOLDS EnhancedRiskScorer.init].
  rewrite Hsize. reflexivity.
Qed.

(* ===================================================================== *)
(** * The abnormal signals *)
(* ===================================================================== *)

Section AbnormalSignals.
Import EnhancedRiskScorer.

(** Below a positive number, hence below every larger one: the left operand
    is any datum (negative, zero, infinite). *)
Lemma flt_below_trans (x c1 c2 : float) :
  is_normal_pos c1 = true -> flt x c1 = true -> flt c1 c2 = true ->
  flt x c2 = true.
Proof.
  intros Hc Hx H12.
  destruct c1 as [| | | [|] m1 e1]; try discriminate Hc. clear Hc.
  destruct c2 as [| [|] | | [|] m2 e2]; try discriminate H12;
    destruct x as [[|] | [|] | | [|] mx ex]; try discriminate Hx;
    try reflexivity.
  revert Hx H12. unfold flt, SFltb.
  rewrite !SFcompare_finite_pos.
  repeat match goal with
         | |- context [?a ?= ?b] => destruct (Z.compare_spec a b)
         end; intros; try reflexivity; try discriminate; try lia.
Qed.

Lemma sbp_critical_is_low (x : float) :
  flt x (Z2SF 90) = true -> flt x (Z2SF 100) = true.
Proof. intros H. now apply (flt_below_trans x (Z2SF 90) (Z2SF 100)). Qed.

Lemma append_if_sublist (cond : bool) (tag : string) (l tags : list string) :
  sublist l tags -> sublist (append_if cond tag l) (tags ++ [tag]).
Proof.
  intros H. unfold append_if. destruct cond.
  - apply sublist_app; [exact H | reflexivity].
  - apply sublist_inserts_r, H.
Qed.

Lemma count_abnormal_signals_tags (self : t) (features : Features) :
  sublist (snd (count_abnormal_signals self features)) abnormal_tags.
Proof.
  unfold count_abnormal_signals. cbn [snd].
  change abnormal_tags
    with (((((((([] ++ ["spo2_low"]) ++ ["spo2_critical"]) ++ ["hr_high"])
                ++ ["hr_critical"]) ++ ["sbp_low"]) ++ ["spo2_dropping"])
            ++ ["hr_rising"])%list).
  repeat apply append_if_sublist. constructor.
Qed.

Lemma critical_has_abnormal_signal (self : t) (features : Features) :
  THRESHOLDS self = init_THRESHOLDS ->
  fst (check_critical_condition self features) = true ->
  1 <= fst (count_abnormal_signals self features).
Proof.
  intros Hth Hcr. rewrite (critical_test self Hth) in Hcr.
  unfold count_abnormal_signals. rewrite Hth.
  cbn [fst spo2_critical hr_critical sbp_warning spo2_warning hr_warning
       init_THRESHOLDS].
  pose proof (sbp_critical_is_low (get features "sbp_mean" (Z2SF 120))) as Hsbp.
  destruct (flt (get features "spo2_mean" (Z2SF 100)) (Z2SF 92));
    destruct (flt (get features "spo2_min" (Z2SF 100)) (Z2SF 88));
    destruct (fgt (get features "hr_mean" (Z2SF 70)) (Z2SF 120));
    destruct (fgt (get features "hr_max" (Z2SF 100)) (Z2SF 140));
    destruct (flt (get features "sbp_mean" (Z2SF 120)) (Z2SF 90));
    try discriminate Hcr;
    try (rewrite Hsbp by reflexivity);
    unfold append_if;
    repeat match goal with
           | |- context [if ?b then _ else _] => destruct b
           end; cbn; lia.
Qed.

End AbnormalSignals.

(** X14.  [count_abnormal_signals] returns the number of the tags it lists;
    the tags are a selection of the seven signal names in their fixed order,
    without repetition, so the count lies between 0 and 7; and with the
    constructor's thresholds every window that [check_critical_condition]
    calls critical shows at least one abnormal signal. *)
Theorem X14_abnormal_signals_counted (self : EnhancedRiskScorer.t)
    (features : Features) :
  EnhancedRiskScorer.THRESHOLDS self = EnhancedRiskScorer.init_THRESHOLDS ->
  let '(abnormal_count, abnormal_signals) :=
    EnhancedRiskScorer.count_abnormal_signals self features in
  abnormal_count = Z.of_nat (length abnormal_signals)
  /\ sublist abnormal_signals abnormal_tags
  /\ NoDup abnormal_signals
  /\ 0 <= abnormal_count <= 7
  /\ (fst (EnhancedRiskScorer.check_critical_condition self features) = true ->
      1 <= abnormal_count).
Proof.
  intros Hth.
  pose proof (count_abnormal_signals_tags self features) as Hsub.
  pose proof (critical_has_abnormal_signal self features Hth) as Hcr.
  assert (Hlen : fst (EnhancedRiskScorer.count_abnormal_signals self features)
                 = Z.of_nat (length (snd (EnhancedRiskScorer.count_abnormal_signals
                                            self features)))) by reflexivity.
  destruct (EnhancedRiskScorer.count_abnormal_signals self features) as [n tags].
  cbn [fst snd] in *.
  assert (Hnodup : NoDup abnormal_tags).
  { apply (bool_decide_unpack _). vm_compute. exact I. }
  repeat split; try assumption.
  - eapply sublist_NoDup; eassumption.
  - lia.
  - apply sublist_length in Hsub. cbn in Hsub. lia.
Qed.

Lemma X14_witness :
  1 <= fst (EnhancedRiskScorer.count_abnormal_signals
              EnhancedRiskScorer.init_default {[ "sbp_mean" := Z2SF 85 ]}).
Proof.
  pose proof (X14_abnormal_signals_counted EnhancedRiskScorer.init_default
                {[ "sbp_mean" := Z2SF 85 ]} eq_refl) as H.
  destruct (EnhancedRiskScorer.count_abnormal_signals _ _) as [n tags].
  destruct H as (_ & _ & _ & _ & H). apply H. reflexivity.
Defined.

(* ===================================================================== *)
(** * The safety gate and the rest of [predict] *)
(* ===================================================================== *)

(** The values of the gate over the truth values of its nine comparisons. *)
Lemma safety_override_values (b90 b92 b94 h140 h120 h110 s90 s100 m180 : bool) :
  let st := (false, Z2SF 0) in
  let st := if b90 then App.trigger st (Z2SF 95)
            else if b92 then App.trigger st (Z2SF 80) else st in
  let st := if h140 then App.trigger st (Z2SF 95)
            else if h120 then App.trigger st (Z2SF 75) else st in
  let st := if s90 then App.trigger st (Z2SF 95)
            else if s100 then App.trigger st (Z2SF 75) else st in
  let st := if m180 then App.trigger st (Z2SF 90) else st in
  let st := if b94 && h110 then App.trigger st (Z2SF 85) else st in
  (fst st = false -> snd st = Z2SF 0)
  /\ (fst st = true ->
      snd st ∈ [Z2SF 75; Z2SF 80; Z2SF 85; Z2SF 90; Z2SF 95])
  /\ (b90 || h140 || s90 = true -> st = (true, Z2SF 95))
  /\ (m180 = true -> fst st = true /\ fle (Z2SF 90) (snd st) = true).
Proof.
  revert b90 b92 b94 h140 h120 h110 s90 s100 m180.
  apply (bool_decide_unpack _). vm_compute. exact I.
Qed.

(** X15.  The values of the safety gate: without a trigger the score is 0;
    with one it is 75, 80, 85, 90 or 95; a critical aggregate
    ([min_spo2 < 90], [max_hr > 140] or [min_sbp < 90]) always gives the
    maximum 95, whatever the other aggregates; and [max_sbp > 180] gives at
    least 90. *)
Theorem X15_safety_gate_values (v : App.RawVitalsSummary) :
  let '(safety_triggered, safety_score) := App.safety_override v in
  (safety_triggered = false -> safety_score = Z2SF 0)
  /\ (safety_triggered = true ->
      safety_score ∈ [Z2SF 75; Z2SF 80; Z2SF 85; Z2SF 90; Z2SF 95])
  /\ (flt (App.min_spo2 v) (Z2SF 90) || fgt (App.max_hr v) (Z2SF 140)
      || flt (App.min_sbp v) (Z2SF 90) = true ->
      (safety_triggered, safety_score) = (true, Z2SF 95))
  /\ (fgt (App.max_sbp v) (Z2SF 180) = true ->
      safety_triggered = true /\ fle (Z2SF 90) safety_score = true).
Proof.
  pose proof (safety_override_values
                (flt (App.min_spo2 v) (Z2SF 90)) (flt (App.min_spo2 v) (Z2SF 92))
                (flt (App.min_spo2 v) (Z2SF 94)) (fgt (App.max_hr v) (Z2SF 140))
                (fgt (App.max_hr v) (Z2SF 120)) (fgt (App.max_hr v) (Z2SF 110))
                (flt (App.min_sbp v) (Z2SF 90)) (flt (App.min_sbp v) (Z2SF 100))
                (fgt (App.max_sbp v) (Z2SF 180))) as H.
  cbv zeta in H. fold (App.safety_override v) in H.
  destruct (App.safety_override v) as [t s]. exact H.
Qed.

(** X16.  A NaN aggregate never triggers the gate: every comparison with NaN
    is false, so the gate answers as if the aggregate had its empty-batch
    default (SpO2 100, HR 60, SBP 120). *)
Theorem X16_nan_aggregates_do_not_trigger (v : App.RawVitalsSummary) :
  App.safety_override v
  = App.safety_override
      {| App.min_spo2 := nan_to (Z2SF 100) (App.min_spo2 v);
         App.max_hr := nan_to (Z2SF 60) (App.max_hr v);
         App.min_sbp := nan_to (Z2SF 120) (App.min_sbp v);
         App.max_sbp := nan_to (Z2SF 120) (App.max_sbp v) |}.
Proof.
  destruct v as [spo2 hr sbp1 sbp2]. unfold App.safety_override.
  cbn [App.min_spo2 App.max_hr App.min_sbp App.max_sbp].
  assert (Hlt : forall x d c : float,
             flt d c = false -> flt (nan_to d x) c = flt x c).
  { intros x d c Hd. destruct x; try reflexivity. exact Hd. }
  assert (Hgt : forall x d c : float,
             fgt d c = false -> fgt (nan_to d x) c = fgt x c).
  { intros x d c Hd. destruct x; try reflexivity. cbn [nan_to]. rewrite Hd.
    unfold fgt, flt, SFltb. now destruct c. }
  rewrite !Hlt, !Hgt by reflexivity. reflexivity.
Qed.

Section Windows.
Import FeaturesPy.
Context {Row Feat : Type}.

Lemma py_range_forward (stop step : Z) :
  1 <= step -> 1 <= stop ->
  py_range stop step
  = Returns (map (fun k => Z.of_nat k * step)
                 (seq 0 (Z.to_nat ((stop - 1) / step) + 1))).
Proof.
  intros Hstep Hstop. unfold py_range.
  destruct (Z.eqb_spec step 0) as [-> | _]; [lia |].
  destruct (Z.ltb_spec 0 step) as [_ | H]; [| lia].
  replace (stop + step - 1) with ((stop - 1) + 1 * step) by lia.
  rewrite Z.div_add by lia.
  assert (H0 : 0 <= (stop - 1) / step) by (apply Z.div_pos; lia).
  unfold seqZ. rewrite Z2Nat.inj_add by lia.
  change (Z.to_nat 1) with 1%nat.
  rewrite <- list_fmap_compose. f_equal.
  apply list_fmap_ext. intros i x _. cbn. f_equal. lia.
Qed.

Lemma py_range_backward (stop step : Z) :
  step < 0 -> 1 <= stop -> py_range stop step = Returns [].
Proof.
  intros Hstep Hstop. unfold py_range.
  destruct (Z.eqb_spec step 0) as [-> | _]; [lia |].
  destruct (Z.ltb_spec 0 step) as [H | _]; [lia |].
  assert (Hq : (stop + step + 1) / step <= 0).
  { destruct (Z.le_gt_cases (stop + step + 1) 0) as [Hle | Hgt].
    - assert ((stop + step + 1) / step = 0); [| lia].
      apply Z.div_small_iff; lia.
    - pose proof (Z.div_le_upper_bound (-(stop + step + 1)) (-step) 0) as Hu.
      rewrite Z.div_opp_opp in Hu by lia. apply Hu; lia. }
  unfold seqZ. replace (Z.to_nat ((stop + step + 1) / step)) with 0%nat by lia.
  reflexivity.
Qed.

Lemma extract_small (summarise : list Row -> Feat) (df : list Row)
    (window_size step_size : Z) :
  Z.of_nat (length df) < 3 \/ window_size < 3 ->
  extract_window_features summarise df window_size step_size = Returns [].
Proof.
  intros H. unfold extract_window_features.
  destruct (Z.eqb_spec (Z.of_nat (length df)) 0); [reflexivity |].
  destruct (Z.ltb_spec (Z.min window_size (Z.of_nat (length df))) 3);
    [reflexivity | lia].
Qed.

Lemma extract_whole (summarise : list Row -> Feat) (df : list Row)
    (window_size step_size : Z) :
  3 <= Z.of_nat (length df) <= window_size ->
  extract_window_features summarise df window_size step_size
  = Returns [summarise df].
Proof.
  intros H. unfold extract_window_features.
  destruct (Z.eqb_spec (Z.of_nat (length df)) 0); [lia |].
  destruct (Z.ltb_spec (Z.min window_size (Z.of_nat (length df))) 3); [lia |].
  destruct (Z.leb_spec (Z.of_nat (length df)) window_size); [reflexivity | lia].
Qed.

Lemma extract_sliding (summarise : list Row -> Feat) (df : list Row)
    (window_size step_size : Z) :
  3 <= window_size < Z.of_nat (length df) ->
  extract_window_features summarise df window_size step_size
  = match py_range (Z.of_nat (length df) - window_size + 1) step_size with
    | Raises e => Raises e
    | Returns starts =>
        Returns (map (fun start =>
                        summarise (iloc df start (start + window_size))) starts)
    end.
Proof.
  intros H. unfold extract_window_features.
  destruct (Z.eqb_spec (Z.of_nat (length df)) 0); [lia |].
  destruct (Z.ltb_spec (Z.min window_size (Z.of_nat (length df))) 3); [lia |].
  destruct (Z.leb_spec (Z.of_nat (length df)) window_size); [lia | reflexivity].
Qed.

End Windows.

(** X17.  The outcome of [extract_window_features] by cases on its
    arguments: it raises (the [ValueError] of [range]) exactly when
    [step_size = 0] and the frame is longer than a window of size at least 3;
    it returns no window exactly when the frame has fewer than 3 rows, or
    [window_size < 3], or the step is negative on a frame longer than the
    window; and a frame of 3 to [window_size] rows gives the single window of
    all its rows. *)
Theorem X17_window_extraction_outcome {Row Feat : Type}
    (summarise : list Row -> Feat) (df : list Row) (window_size step_size : Z) :
  let len := Z.of_nat (length df) in
  let out := FeaturesPy.extract_window_features summarise df window_size step_size in
  (out = Raises "ValueError" <-> step_size = 0 /\ 3 <= window_size < len)
  /\ (out = Returns [] <->
      len < 3 \/ window_size < 3 \/ (step_size < 0 /\ window_size < len))
  /\ (3 <= len <= window_size -> out = Returns [summarise df]).
Proof.
  intros len out. subst len out.
  destruct (Z.lt_ge_cases (Z.of_nat (length df)) 3) as [Hlen | Hlen];
    [rewrite extract_small by lia;
     repeat split; try discriminate; try lia; intros; lia |].
  destruct (Z.lt_ge_cases window_size 3) as [Hw | Hw];
    [rewrite extract_small by lia;
     repeat split; try discriminate; try lia; intros; lia |].
  destruct (Z.le_gt_cases (Z.of_nat (length df)) window_size) as [Hle | Hgt].
  { rewrite extract_whole by lia.
    repeat split; try discriminate; try lia; intros; try lia; reflexivity. }
  rewrite extract_sliding by lia.
  destruct (Z.lt_trichotomy step_size 0) as [Hs | [-> | Hs]].
  - rewrite py_range_backward by lia. cbn [map].
    repeat split; try discriminate; try lia; intros; try lia; auto.
  - cbn. repeat split; try discriminate; try lia; intros; try lia; auto.
  - rewrite py_range_forward by lia. rewrite Nat.add_1_r. cbn [seq map].
    repeat split; try discriminate; try lia; intros; lia.
Qed.

(** X18.  Sliding windows: on a frame longer than [window_size >= 3] and a
    step of at least 1, the result has [(len - window_size) / step_size + 1]
    windows; the [k]-th one summarises the [window_size] consecutive rows
    starting at row [k * step_size], all of them inside the frame; and the
    last window ends fewer than [step_size] rows before the end of the
    frame. *)
Theorem X18_sliding_windows {Row Feat : Type}
    (summarise : list Row -> Feat) (df : list Row) (window_size step_size : Z) :
  3 <= window_size -> 1 <= step_size -> window_size < Z.of_nat (length df) ->
  let len := Z.of_nat (length df) in
  let n := (Z.to_nat ((len - window_size) / step_size) + 1)%nat in
  let window (k : nat) :=
    take (Z.to_nat window_size) (drop (k * Z.to_nat step_size) df) in
  FeaturesPy.extract_window_features summarise df window_size step_size
  = Returns (map (fun k => summarise (window k)) (seq 0 n))
  /\ Forall (fun k => length (window k) = Z.to_nat window_size) (seq 0 n)
  /\ len - step_size < (Z.of_nat n - 1) * step_size + window_size <= len.
Proof.
  intros Hw Hs Hlen len n window.
  assert (Hq : 0 <= (len - window_size) / step_size) by (apply Z.div_pos; lia).
  assert (Hmul : (len - window_size) / step_size * step_size <= len - window_size).
  { rewrite Z.mul_comm. apply Z.mul_div_le. lia. }
  assert (Hmod : len - window_size
                 < ((len - window_size) / step_size + 1) * step_size).
  { pose proof (Z.mul_succ_div_gt (len - window_size) step_size ltac:(lia)). lia. }
  split; [| split].
  - rewrite extract_sliding by lia. fold len.
    replace (len - window_size + 1 - 1) with (len - window_size) by lia.
    rewrite py_range_forward by lia.
    replace (len - window_size + 1 - 1) with (len - window_size) by lia.
    fold n. rewrite <- list_fmap_compose. f_equal.
    apply list_fmap_ext. intros i k _. cbn. f_equal.
    unfold FeaturesPy.iloc, window. f_equal; [f_equal; lia |].
    f_equal. rewrite Z2Nat.inj_mul, Nat2Z.id by lia. reflexivity.
  - apply Forall_forall. intros k Hk. apply elem_of_seq in Hk.
    unfold window. rewrite length_take, length_drop.
    assert (Z.of_nat k * step_size <= (len - window_size) / step_size * step_size)
      by (apply Z.mul_le_mono_nonneg_r; lia).
    assert (Z.of_nat (k * Z.to_nat step_size) = Z.of_nat k * step_size)
      by (rewrite Nat2Z.inj_mul, Z2Nat.id by lia; reflexivity).
    subst len. lia.
  - subst n. rewrite Nat2Z.inj_add, Z2Nat.id by lia.
    change (Z.of_nat 1) with 1. lia.
Qed.

Lemma X18_witness :
  FeaturesPy.extract_window_features (fun window : list Z => window)
    [1; 2; 3; 4; 5; 6; 7; 8] 3 2
  = Returns [[1; 2; 3]; [3; 4; 5]; [5; 6; 7]].
Proof.
  pose proof (X18_sliding_windows (fun window : list Z => window)
                [1; 2; 3; 4; 5; 6; 7; 8] 3 2
                ltac:(lia) ltac:(lia) ltac:(cbn; lia)) as H.
  cbv zeta in H. destruct H as [H _]. rewrite H. reflexivity.
Defined.

(** X19.  The end of [predict]: the response carries [safety_override = true]
    exactly when the gate fired, and then reports an anomaly with the gate's
    score; with the default windows (30 rows, step 5) feature extraction
    never raises, and a cleaned batch of fewer than 3 rows that does not
    fire the gate is answered with the zero-risk default, the model not
    being consulted (the answer is the same for every model). *)
Theorem X19_predict_paths {Row Feat : Type} (v : App.RawVitalsSummary)
    (confidence_mean : float) (summarise : list Row -> Feat)
    (df_clean : list Row) (latest_of : list Feat -> AppTail.Latest) :
  exists feat_df : list Feat,
    FeaturesPy.extract_window_features summarise df_clean 30 5 = Returns feat_df
    /\ (feat_df = [] <-> (length df_clean < 3)%nat)
    /\ let response := AppTail.predict v confidence_mean feat_df latest_of in
       App.safety_override_flag response = fst (App.safety_override v)
       /\ (App.safety_override_flag response = true ->
           App.anomaly response = true /\
           App.risk_score response = snd (App.safety_override v) /\
           App.confidence response = confidence_mean)
       /\ (App.safety_override_flag response = false ->
           (length df_clean < 3)%nat ->
           response = {| App.anomaly := false; App.risk_score := Z2SF 0;
                         App.confidence := confidence_mean;
                         App.safety_override_flag := false |})
       /\ (fst (App.safety_override v) = true \/ (length df_clean < 3)%nat ->
           forall latest_of' : list Feat -> AppTail.Latest,
             AppTail.predict v confidence_mean feat_df latest_of' = response).
Proof.
  assert (Hex : exists feat_df : list Feat,
             FeaturesPy.extract_window_features summarise df_clean 30 5
             = Returns feat_df
             /\ (feat_df = [] <-> (length df_clean < 3)%nat)).
  { destruct (Z.lt_ge_cases (Z.of_nat (length df_clean)) 3) as [H3 | H3].
    - exists []. rewrite extract_small by lia. split; [reflexivity |].
      split; intros; [lia | reflexivity].
    - destruct (Z.le_gt_cases (Z.of_nat (length df_clean)) 30) as [Hle | Hgt].
      + exists [summarise df_clean]. rewrite extract_whole by lia.
        split; [reflexivity |]. split; [discriminate | lia].
      + rewrite extract_sliding by lia. rewrite py_range_forward by lia.
        eexists. split; [reflexivity |].
        rewrite Nat.add_1_r. cbn [seq map]. split; [discriminate | lia]. }
  destruct Hex as (feat_df & Hext & Hempty). exists feat_df.
  split; [exact Hext |]. split; [exact Hempty |].
  unfold AppTail.predict, App.predict, AppTail.model_based.
  destruct (App.safety_override v) as [[|] s]; cbn [fst snd].
  - cbn. repeat split; try discriminate; auto.
  - destruct feat_df as [| f fs].
    + cbn. repeat split; try discriminate; auto.
    + cbn. repeat split; try discriminate; auto.
      * intros _ Hlt. apply Hempty in Hlt. discriminate Hlt.
      * intros [H | H]; [discriminate H |]. apply Hempty in H. discriminate H.
Qed.

(* ===================================================================== *)
(** * [apply_enhanced_risk_scoring] *)
(* ===================================================================== *)

Section ApplyLoop.
Import EnhancedRiskScorer.

(** The loop of [apply_enhanced_risk_scoring] is the scorer run over the
    paired rows, as long as every index has a feature row. *)
Lemma loop_spec (df_features : list Features) (rows : list Apply.PredRow) :
  forall (scorer : t) (idx : nat) (results : list Apply.EnhancedRow),
  Apply.loop scorer df_features idx rows results
  = if decide (idx + length rows <= length df_features)%nat
    then Returns (results ++
                  map Apply.enhanced_row
                      (fst (run scorer
                              (zip_with Apply.scored_window
                                        (drop idx df_features) rows))))
    else if decide (rows = []) then Returns results
    else Raises "IndexError".
Proof.
  induction rows as [| pred_row rows IH]; intros scorer idx results;
    cbn [Apply.loop].
  - destruct (decide _).
    + destruct (drop idx df_features); cbn; now rewrite app_nil_r.
    + reflexivity.
  - destruct (df_features !! idx) as [features |] eqn:Hidx.
    + pose proof (lookup_lt_Some _ _ _ Hidx) as Hlt.
      rewrite (drop_S _ _ _ Hidx). cbn [zip_with run].
      unfold Apply.scored_window at 1 2 3.
      cbn [w_features w_anomaly_score w_confidence].
      destruct (calculate_risk_score scorer features _ _) as [r s].
      rewrite IH. cbn [length].
      destruct (decide (S idx + length rows <= length df_features)%nat);
        destruct (decide (idx + S (length rows) <= length df_features)%nat);
        try lia.
      * destruct (run s _) as [rs s']. cbn [fst map].
        now rewrite <- app_assoc.
      * destruct rows as [| row' rows']; [cbn [length] in *; lia |].
        destruct (decide (row' :: rows' = [])); [discriminate |].
        destruct (decide (pred_row :: row' :: rows' = []));
          [discriminate | reflexivity].
    + apply lookup_ge_None in Hidx. cbn [length].
      destruct (decide (idx + S (length rows) <= length df_features)%nat); [lia |].
      destruct (decide (pred_row :: rows = [])); [discriminate | reflexivity].
Qed.

(** A call the confidence gate stops: with the override enabled it is no
    stage-7 call. *)
Lemma low_confidence_call (self : t) (features : Features)
    (anomaly_score confidence : float) :
  critical_override self = true ->
  flt confidence (min_confidence self) = true ->
  let r := fst (calculate_risk_score self features anomaly_score confidence) in
  snd (calculate_risk_score self features anomaly_score confidence) = self
  /\ temporal_raw r = None
  /\ (should_alert r = true -> stage (debug_info r) = critical_override_stage).
Proof.
  intros Hov Hlow.
  destruct (stage_and_score self features anomaly_score confidence) as [Hstage _].
  pose proof (calculate_risk_score_effect self features anomaly_score confidence) as He.
  destruct (calculate_risk_score self features anomaly_score confidence) as [r self'].
  cbv zeta in Hstage |- *. cbn [fst snd] in Hstage |- *.
  rewrite Hov, Hlow, andb_true_r in Hstage.
  assert (Hnone : temporal_raw r = None).
  { unfold temporal_raw.
    destruct (fst (check_critical_condition self features));
      cbn [negb andb] in Hstage;
      repeat match type of Hstage with
             | context [if ?b then _ else _] => destruct b eqn:?
             end; rewrite Hstage; reflexivity. }
  pose proof Hnone as Hstop. unfold temporal_raw in Hstop.
  destruct (stage (debug_info r));
    try discriminate Hstop; destruct He as [-> Ha];
    repeat split; try reflexivity; try exact Hnone; intros; congruence.
Qed.

Lemma run_low_confidence (ws : list Window) (self : t) :
  critical_override self = true ->
  Forall (fun w => flt (w_confidence w) (min_confidence self) = true) ws ->
  Forall (fun r => temporal_raw r = None /\
                   (should_alert r = true ->
                    stage (debug_info r) = critical_override_stage))
         (fst (run self ws)).
Proof.
  intros Hov Hall. induction Hall as [| w ws Hw _ IH]; cbn [run]; [constructor |].
  destruct (low_confidence_call self (w_features w) (w_anomaly_score w)
              (w_confidence w) Hov Hw) as (Hs & Hnone & Ha).
  destruct (calculate_risk_score self _ _ _) as [r s]. cbn [fst snd] in *.
  subst s. destruct (run self ws) as [rs s']. cbn [fst] in *.
  constructor; [split; assumption | exact IH].
Qed.

End ApplyLoop.


(** X21.  Predictions without a [confidence] column are scored with the
    default confidence 0.5; when that is below [min_confidence] (as with the
    default 0.7) no row reaches the temporal stage, so the only alerts
    [apply_enhanced_risk_scoring] can produce are critical overrides. *)
Theorem X21_no_confidence_column_only_critical_alerts
    (df_features : list Features) (df_predictions : list Apply.PredRow)
    (temporal_buffer_size : Z) (min_confidence : float)
    (min_abnormal_signals : Z)
    (df_enhanced : list (Apply.PredRow * Apply.EnhancedRow)) :
  flt lit_0_5 min_confidence = true ->
  Forall (fun pred_row => pred_row !! "confidence" = None) df_predictions ->
  Apply.apply_enhanced_risk_scoring df_features df_predictions
    temporal_buffer_size min_confidence min_abnormal_signals
  = Returns df_enhanced ->
  map fst df_enhanced = df_predictions /\
  Forall (fun row =>
            Apply.stage (snd row) <> EnhancedRiskScorer.confirmed_alert /\
            Apply.stage (snd row) <> EnhancedRiskScorer.awaiting_confirmation /\
            (Apply.enhanced_alert (snd row) = 1 ->
             Apply.stage (snd row) = EnhancedRiskScorer.critical_override_stage))
         df_enhanced.
Proof.
  intros Hlow Hcols Hret.
  unfold Apply.apply_enhanced_risk_scoring in Hret. rewrite loop_spec in Hret.
  change (drop 0 df_features) with df_features in Hret.
  cbn [Nat.add app] in Hret.
  set (self := EnhancedRiskScorer.init temporal_buffer_size min_confidence
                 min_abnormal_signals lit_0_5 true) in *.
  set (ws := zip_with Apply.scored_window df_features df_predictions) in *.
  assert (Hws : Forall (fun w => flt (EnhancedRiskScorer.w_confidence w)
                                     (EnhancedRiskScorer.min_confidence self) = true)
                       ws).
  { subst ws. clear Hret. revert df_features.
    induction Hcols as [| row rows Hrow _ IH]; intros [| f fs]; cbn [zip_with];
      try constructor; [| apply IH].
    cbn [EnhancedRiskScorer.w_confidence Apply.scored_window].
    unfold get. rewrite Hrow. exact Hlow. }
  pose proof (run_low_confidence ws self eq_refl Hws) as Hrun.
  pose proof (length_run ws self) as Hlen.
  destruct (decide (length df_predictions <= length df_features)%nat) as [Hle |].
  2: { destruct (decide _) as [-> |]; [cbn [length] in *; lia | discriminate Hret]. }
  injection Hret as <-.
  assert (Hlen' : length (fst (EnhancedRiskScorer.run self ws))
                  = length df_predictions).
  { rewrite Hlen. subst ws. rewrite length_zip_with. lia. }
  split.
  - apply fst_zip. rewrite length_map. lia.
  - revert Hrun Hlen'. generalize (fst (EnhancedRiskScorer.run self ws)).
    generalize df_predictions. clear.
    intros preds rs Hrun. revert preds.
    induction Hrun as [| r rs [Hnone Ha] _ IH]; intros [| p preds] Hlen;
      cbn [map zip zip_with]; try constructor; try discriminate Hlen.
    + cbn [snd Apply.stage Apply.enhanced_alert Apply.enhanced_row].
      unfold temporal_raw in Hnone.
      destruct (EnhancedRiskScorer.stage (EnhancedRiskScorer.debug_info r));
        try discriminate Hnone;
        (repeat split; try discriminate;
         destruct (EnhancedRiskScorer.should_alert r); try discriminate;
         intros; auto).
    + apply IH. cbn [length] in Hlen. lia.
Qed.

Lemma X21_witness :
  exists df_enhanced : list (Apply.PredRow * Apply.EnhancedRow),
    Apply.apply_enhanced_risk_scoring
      [ {[ "spo2_slope" := Z2SF (-1); "hr_slope" := Z2SF 1 ]};
        {[ "spo2_min" := Z2SF 80 ]} ]
      [ {[ "anomaly_score" := lit_0_8 ]}; {[ "anomaly_score" := lit_0_8 ]} ]
      1 lit_0_7 2
    = Returns df_enhanced
    /\ map (fun row => Apply.stage (snd row)) df_enhanced
       = [EnhancedRiskScorer.low_confidence;
          EnhancedRiskScorer.critical_override_stage]
    /\ Forall (fun row =>
                 Apply.enhanced_alert (snd row) = 1 ->
                 Apply.stage (snd row) = EnhancedRiskScorer.critical_override_stage)
              df_enhanced.
Proof.
  eexists. split; [reflexivity |]. split; [reflexivity |].
  eapply Forall_impl.
  - apply (X21_no_confidence_column_only_critical_alerts
             [ {[ "spo2_slope" := Z2SF (-1); "hr_slope" := Z2SF 1 ]};
               {[ "spo2_min" := Z2SF 80 ]} ]
             [ {[ "anomaly_score" := lit_0_8 ]}; {[ "anomaly_score" := lit_0_8 ]} ]
             1 lit_0_7 2 _ eq_refl); [| reflexivity].
    repeat constructor.
  - intros row (_ & _ & H). exact H.
Defined.

(* ===================================================================== *)
(** * The temporal buffer as a sliding window *)
(* ===================================================================== *)

Section SlidingWindow.
Import TemporalAlertBuffer.

(** The answer of the [j]-th call of a session of [should_alert] calls. *)
Lemma feed_lookup (self : t) (bs : list bool) (j : nat) (b : bool) :
  bs !! j = Some b ->
  feed self bs !! j
  = Some (snd (should_alert (fst (run self (map Should_alert (take j bs)))) b)).
Proof.
  intros Hj. pose proof (lookup_lt_Some _ _ _ Hj) as Hlt.
  rewrite <- (take_drop_middle bs j b Hj) at 1.
  rewrite feed_app, lookup_app_r; rewrite length_feed, length_take; [| lia].
  replace (j - j `min` length bs)%nat with 0%nat by lia.
  unfold feed at 1. cbn [map run step].
  destruct (should_alert _ b) as [s r].
  destruct (run s _) as [s' rs]. reflexivity.
Qed.

End SlidingWindow.



(* ===================================================================== *)
(** * The evaluation counts and episodes *)
(* ===================================================================== *)

Section ConfusionCounts.
Import Metrics.

Lemma wrap64_small (z : Z) : - 2 ^ 63 <= z < 2 ^ 63 -> wrap64 z = z.
Proof.
  intros H. unfold wrap64. rewrite Z.mod_small; lia.
Qed.

Lemma count_where_cons (mask : Z * Z -> bool) (p : Z * Z) (l : list (Z * Z)) :
  count_where mask (p :: l)
  = (if mask p then 1 else 0) + count_where mask l.
Proof.
  unfold count_where. cbn [List.filter]. destruct (mask p); cbn [length]; lia.
Qed.

Lemma counts_of_pairs (pairs : list (Z * Z)) :
  let n11 := count_where (fun p => (fst p =? 1) && (snd p =? 1)) pairs in
  let n01 := count_where (fun p => (fst p =? 0) && (snd p =? 1)) pairs in
  let n10 := count_where (fun p => (fst p =? 1) && (snd p =? 0)) pairs in
  let n00 := count_where (fun p => (fst p =? 0) && (snd p =? 0)) pairs in
  0 <= n11 /\ 0 <= n01 /\ 0 <= n10 /\ 0 <= n00
  /\ n11 + n01 + n10 + n00 <= Z.of_nat (length pairs)
  /\ (Forall (fun p => binary (fst p) /\ binary (snd p)) pairs ->
      n11 + n01 + n10 + n00 = Z.of_nat (length pairs)
      /\ n11 + n10 = fold_right Z.add 0 (map fst pairs)
      /\ n11 + n01 = fold_right Z.add 0 (map snd pairs)).
Proof.
  induction pairs as [| [a b] pairs IH]; cbv zeta in *.
  - unfold count_where. cbn. intuition (try lia).
  - rewrite !count_where_cons. cbn [fst snd length map fold_right].
    destruct IH as (H1 & H2 & H3 & H4 & Hle & Heq).
    assert (Hcell :
      let i11 := if (a =? 1) && (b =? 1) then 1 else 0 in
      let i01 := if (a =? 0) && (b =? 1) then 1 else 0 in
      let i10 := if (a =? 1) && (b =? 0) then 1 else 0 in
      let i00 := if (a =? 0) && (b =? 0) then 1 else 0 in
      0 <= i11 /\ 0 <= i01 /\ 0 <= i10 /\ 0 <= i00
      /\ i11 + i01 + i10 + i00 <= 1
      /\ (binary a -> binary b ->
          i11 + i01 + i10 + i00 = 1 /\ i11 + i10 = a /\ i11 + i01 = b)).
    { cbv zeta.
      destruct (Z.eqb_spec a 1), (Z.eqb_spec a 0), (Z.eqb_spec b 1),
        (Z.eqb_spec b 0); cbn [andb]; unfold binary; lia. }
    cbv zeta in Hcell. destruct Hcell as (C1 & C2 & C3 & C4 & Cle & Ceq).
    split; [lia |]. split; [lia |]. split; [lia |]. split; [lia |].
    split; [lia |].
    intros Hall. inversion Hall as [| ? ? [Ha Hb] Hall']; subst.
    destruct (Heq Hall') as (E1 & E2 & E3).
    destruct (Ceq Ha Hb) as (D1 & D2 & D3). lia.
Qed.

End ConfusionCounts.

(** X23.  The confusion counts of [compute_metrics] on arrays of equal
    length: the four counts are non-negative and never exceed the number of
    predictions together; on binary arrays (labels 0 and 1) they partition
    the predictions, [tp + fn] is the number of anomalies reported, and
    [tp + fp] is the number of alerts. *)
Theorem X23_confusion_counts_partition (y_true y_pred : list Z) :
  length y_true = length y_pred ->
  Z.of_nat (length y_true) < 2 ^ 63 ->
  exists m : Metrics.Counts,
    Metrics.compute_metrics y_true y_pred = Returns m
    /\ 0 <= Metrics.tp m /\ 0 <= Metrics.fp m
    /\ 0 <= Metrics.fn m /\ 0 <= Metrics.tn m
    /\ Metrics.tp m + Metrics.fp m + Metrics.fn m + Metrics.tn m
       <= Metrics.total_predictions m
    /\ (Forall Metrics.binary y_true -> Forall Metrics.binary y_pred ->
        Metrics.tp m + Metrics.fp m + Metrics.fn m + Metrics.tn m
        = Metrics.total_predictions m
        /\ Metrics.tp m + Metrics.fn m = Metrics.total_anomalies m
        /\ Metrics.tp m + Metrics.fp m = fold_right Z.add 0 y_pred).
Proof.
  intros Hlen Hsmall. unfold Metrics.compute_metrics, Metrics.broadcast.
  rewrite Hlen, Nat.eqb_refl. eexists. split; [reflexivity |].
  cbn [Metrics.tp Metrics.fp Metrics.fn Metrics.tn Metrics.total_predictions
       Metrics.total_anomalies].
  pose proof (counts_of_pairs (zip y_true y_pred)) as H. cbv zeta in H.
  destruct H as (H1 & H2 & H3 & H4 & Hle & Heq).
  assert (Hzl : length (zip y_true y_pred) = length y_pred)
    by (rewrite length_zip_with; lia).
  rewrite Hzl in Hle, Heq.
  split; [lia |]. split; [lia |]. split; [lia |]. split; [lia |].
  split; [lia |].
  intros Ht Hp.
  assert (Hall : Forall (fun p => Metrics.binary (fst p) /\ Metrics.binary (snd p))
                        (zip y_true y_pred)).
  { clear -Ht Hp Hlen. revert y_pred Hp Hlen.
    induction Ht as [| a l Ha _ IH]; intros [| b l'] Hp Hlen;
      try discriminate Hlen; cbn; constructor.
    - inversion Hp. now split.
    - apply IH; [now inversion Hp | now injection Hlen]. }
  destruct (Heq Hall) as (E1 & E2 & E3).
  rewrite fst_zip in E2 by lia. rewrite snd_zip in E3 by lia.
  rewrite <- E2, wrap64_small by lia. lia.
Qed.

Lemma X23_witness :
  exists m : Metrics.Counts,
    Metrics.compute_metrics [1; 1; 0; 0; 1] [1; 0; 0; 1; 1] = Returns m
    /\ (Metrics.tp m, Metrics.fp m, Metrics.fn m, Metrics.tn m) = (2, 1, 1, 1)
    /\ Metrics.tp m + Metrics.fp m + Metrics.fn m + Metrics.tn m
       <= Metrics.total_predictions m.
Proof.
  destruct (X23_confusion_counts_partition [1; 1; 0; 0; 1] [1; 0; 0; 1; 1]
              eq_refl ltac:(cbn; lia)) as (m & Hm & _ & _ & _ & _ & Hle & _).
  exists m. split; [exact Hm |]. split; [| exact Hle].
  injection Hm as <-. reflexivity.
Defined.

Section Episodes.
Import Metrics.

Lemma episode_loop_snoc (y : list Z) (label : Z) : forall (st : EpisodeState) (i : nat),
  episode_loop st i (y ++ [label])
  = episode_step (episode_loop st i y) (i + length y) label.
Proof.
  induction y as [| x y IH]; intros st i; cbn [episode_loop app length].
  - now rewrite Nat.add_0_r.
  - rewrite IH. f_equal. lia.
Qed.

(** What the loop knows after the rows of [y], all binary: the open episode
    (if any) is a run of 1 reaching the end of [y]; the closed episodes are
    maximal runs ended by a 0; every 1 lies in one of them; and they are in
    order. *)
Lemma episode_loop_invariant (y : list Z) :
  Forall binary y ->
  let st := episode_loop {| in_episode := false; episode_start := 0%nat;
                            true_episodes := [] |} 0 y in
  (in_episode st = true ->
   (episode_start st < length y)%nat
   /\ (forall k, (episode_start st <= k < length y)%nat -> y !! k = Some 1)
   /\ (episode_start st = 0%nat \/ y !! (episode_start st - 1)%nat = Some 0)
   /\ Forall (fun ep => (snd ep + 1 < episode_start st)%nat) (true_episodes st))
  /\ (in_episode st = false ->
      length y = 0%nat \/ y !! (length y - 1)%nat = Some 0)
  /\ Forall (fun ep =>
               (fst ep <= snd ep)%nat /\ (snd ep + 1 < length y)%nat
               /\ (forall k, (fst ep <= k <= snd ep)%nat -> y !! k = Some 1)
               /\ (fst ep = 0%nat \/ y !! (fst ep - 1)%nat = Some 0)
               /\ y !! (snd ep + 1)%nat = Some 0)
            (true_episodes st)
  /\ (forall k, y !! k = Some 1 ->
        Exists (fun ep => (fst ep <= k <= snd ep)%nat) (true_episodes st)
        \/ (in_episode st = true /\ (episode_start st <= k)%nat))
  /\ StronglySorted apart (true_episodes st).
Proof.
  induction y as [| x y IH] using rev_ind; intros Hbin st.
  - subst st. cbn. repeat split; try discriminate; try constructor; auto.
  - apply Forall_app in Hbin. destruct Hbin as [Hy Hx].
    specialize (IH Hy). cbv zeta in IH.
    subst st. rewrite episode_loop_snoc. cbn [Nat.add].
    set (st := episode_loop _ 0 y) in *.
    destruct IH as (HA & HB & HC & HD & HE).
    assert (Hext : forall k v, y !! k = Some v -> (y ++ [x]) !! k = Some v).
    { intros k v Hk. rewrite lookup_app_l; [exact Hk |].
      now apply lookup_lt_Some in Hk. }
    assert (Hlast : (y ++ [x]) !! length y = Some x).
    { rewrite lookup_app_r by lia. now rewrite Nat.sub_diag. }
    assert (HC' : Forall (fun ep =>
               (fst ep <= snd ep)%nat /\ (snd ep + 1 < length (y ++ [x]))%nat
               /\ (forall k, (fst ep <= k <= snd ep)%nat -> (y ++ [x]) !! k = Some 1)
               /\ (fst ep = 0%nat \/ (y ++ [x]) !! (fst ep - 1)%nat = Some 0)
               /\ (y ++ [x]) !! (snd ep + 1)%nat = Some 0)
            (true_episodes st)).
    { eapply Forall_impl; [exact HC |]. intros [s e] (H1 & H2 & H3 & H4 & H5).
      cbn [fst snd] in *. rewrite length_app. cbn [length].
      repeat split; try lia; auto.
      destruct H4 as [H4 | H4]; [now left | right; auto]. }
    assert (Hlen : length (y ++ [x]) = S (length y))
      by (rewrite length_app; cbn; lia).
    inversion Hx as [| ? ? Hxb _]; subst. clear Hx.
    unfold episode_step.
    destruct Hxb as [-> | ->]; cbn [Z.eqb andb Pos.eqb];
      destruct (in_episode st) eqn:Hin;
      cbn [negb andb in_episode episode_start true_episodes]; rewrite ?Hin.
    + (* label 0 closes the open episode *)
      destruct (HA eq_refl) as (A1 & A2 & A3 & A4).
      split; [discriminate |]. split.
      { intros _. right. rewrite Hlen. now replace (S (length y) - 1)%nat
          with (length y) by lia. }
      split.
      { apply Forall_app. split; [exact HC' |]. constructor; [| constructor].
        cbn [fst snd]. rewrite Hlen.
        repeat split; try lia.
        - intros k Hk. apply Hext, A2. lia.
        - destruct A3 as [A3 | A3]; [now left | right; auto].
        - now replace (length y - 1 + 1)%nat with (length y) by lia. }
      split.
      { intros k Hk. left. apply Exists_app.
        destruct (Nat.lt_ge_cases k (length y)) as [Hlt | Hge].
        - rewrite lookup_app_l in Hk by lia.
          destruct (HD k Hk) as [Hex | [_ Hs]]; [now left | right].
          constructor. cbn [fst snd]. lia.
        - apply lookup_lt_Some in Hk as Hk'. rewrite Hlen in Hk'.
          assert (k = length y) by lia. subst k.
          rewrite Hlast in Hk. discriminate Hk. }
      apply StronglySorted_app_2; [| exact HE | repeat constructor].
      intros a b Ha Hb. apply list_elem_of_singleton in Hb. subst b.
      rewrite Forall_forall in A4. unfold apart. cbn [fst]. now apply A4.
    + (* label 0 outside an episode *)
      split; [discriminate |]. split.
      { intros _. right. rewrite Hlen. now replace (S (length y) - 1)%nat
          with (length y) by lia. }
      split; [exact HC' |]. split; [| exact HE].
      intros k Hk.
      destruct (Nat.lt_ge_cases k (length y)) as [Hlt | Hge].
      * rewrite lookup_app_l in Hk by lia.
        destruct (HD k Hk) as [Hex | [Hc _]]; [now left | congruence].
      * apply lookup_lt_Some in Hk as Hk'. rewrite Hlen in Hk'.
        assert (k = length y) by lia. subst k.
        rewrite Hlast in Hk. discriminate Hk.
    + (* label 1 inside an episode *)
      destruct (HA eq_refl) as (A1 & A2 & A3 & A4).
      split.
      { intros _. rewrite Hlen. repeat split; try lia; auto.
        - intros k Hk. destruct (Nat.lt_ge_cases k (length y)) as [Hlt | Hge].
          + apply Hext, A2. lia.
          + assert (k = length y) by lia. subst k. exact Hlast.
        - destruct A3 as [A3 | A3]; [now left | right; auto]. }
      split; [discriminate |]. split; [exact HC' |]. split; [| exact HE].
      intros k Hk.
      destruct (Nat.lt_ge_cases k (length y)) as [Hlt | Hge].
      * rewrite lookup_app_l in Hk by lia.
        destruct (HD k Hk) as [Hex | [_ Hs]]; [now left | right; now split].
      * right. split; [reflexivity | lia].
    + (* label 1 opens an episode *)
      split.
      { intros _. rewrite Hlen. split; [lia |]. split; [| split].
        - intros k Hk. assert (k = length y) by lia. subst k. exact Hlast.
        - destruct (HB eq_refl) as [H0 | H0]; [now left | right; auto].
        - eapply Forall_impl; [exact HC |]. intros [s e] (_ & H2 & _).
          cbn [fst snd] in *. exact H2. }
      split; [discriminate |]. split; [exact HC' |]. split; [| exact HE].
      intros k Hk.
      destruct (Nat.lt_ge_cases k (length y)) as [Hlt | Hge].
      * rewrite lookup_app_l in Hk by lia.
        destruct (HD k Hk) as [Hex | [Hc _]]; [now left | congruence].
      * right. split; [reflexivity | lia].
Qed.

(** Two maximal runs that share a row are the same run. *)
Lemma maximal_run_unique (y : list Z) (s e s' e' k : nat) :
  maximal_run y s e -> maximal_run y s' e' ->
  (s <= k <= e)%nat -> (s' <= k <= e')%nat -> s = s' /\ e = e'.
Proof.
  intros (R1 & R2 & R3 & R4) (R1' & R2' & R3' & R4') Hk Hk'.
  assert (Hs : s = s').
  { destruct (Nat.lt_trichotomy s s') as [Hlt | [Heq | Hgt]]; [| exact Heq |].
    - destruct R3' as [-> | R3']; [lia |].
      rewrite R2 in R3' by lia. discriminate R3'.
    - destruct R3 as [-> | R3]; [lia |].
      rewrite R2' in R3 by lia. discriminate R3. }
  split; [exact Hs |]. subst s'.
  destruct (Nat.lt_trichotomy e e') as [Hlt | [Heq | Hgt]]; [| exact Heq |].
  - destruct R4 as [R4 | R4]; [lia |].
    rewrite R2' in R4 by lia. discriminate R4.
  - destruct R4' as [R4' | R4']; [lia |].
    rewrite R2 in R4' by lia. discriminate R4'.
Qed.

Lemma find_episodes_runs (y : list Z) :
  Forall binary y ->
  Forall (fun ep => maximal_run y (fst ep) (snd ep)) (find_episodes y)
  /\ (forall k, y !! k = Some 1 ->
        Exists (fun ep => (fst ep <= k <= snd ep)%nat) (find_episodes y))
  /\ StronglySorted apart (find_episodes y).
Proof.
  intros Hbin. pose proof (episode_loop_invariant y Hbin) as H.
  cbv zeta in H. unfold find_episodes.
  set (st := episode_loop _ 0 y) in *.
  destruct H as (HA & HB & HC & HD & HE).
  assert (HC' : Forall (fun ep => maximal_run y (fst ep) (snd ep))
                       (true_episodes st)).
  { eapply Forall_impl; [exact HC |]. intros [s e] (H1 & H2 & H3 & H4 & H5).
    cbn [fst snd] in *. unfold maximal_run. repeat split; try lia; auto. }
  destruct (in_episode st) eqn:Hin.
  - destruct (HA eq_refl) as (A1 & A2 & A3 & A4).
    split; [| split].
    + apply Forall_app. split; [exact HC' |]. constructor; [| constructor].
      cbn [fst snd]. unfold maximal_run.
      repeat split; try lia; auto;
        try (intros k Hk; apply A2; lia); try (left; lia).
    + intros k Hk. apply Exists_app.
      destruct (HD k Hk) as [Hex | [_ Hs]]; [now left | right].
      constructor. cbn [fst snd]. apply lookup_lt_Some in Hk. lia.
    + apply StronglySorted_app_2; [| exact HE | repeat constructor].
      intros a b Ha Hb. apply list_elem_of_singleton in Hb. subst b.
      rewrite Forall_forall in A4. unfold apart. cbn [fst]. now apply A4.
  - split; [exact HC' |]. split; [| exact HE].
    intros k Hk. destruct (HD k Hk) as [Hex | [Hc _]]; [exact Hex | discriminate Hc].
Qed.

End Episodes.

(** X24.  The episodes found by [compute_alert_latency] in a binary label
    array are exactly its maximal runs of label 1: [(s, e)] is in the list
    if and only if rows [s] to [e] carry 1 and the run is bounded on each
    side by a 0 or by the end of the array; the list is in increasing order,
    with at least one row between two episodes. *)
Theorem X24_episodes_are_maximal_runs (y_true : list Z) :
  Forall Metrics.binary y_true ->
  (forall s e : nat,
     (s, e) ∈ Metrics.find_episodes y_true <-> Metrics.maximal_run y_true s e)
  /\ StronglySorted Metrics.apart (Metrics.find_episodes y_true).
Proof.
  intros Hbin.
  destruct (find_episodes_runs y_true Hbin) as (Hruns & Hcover & Hsorted).
  split; [| exact Hsorted].
  intros s e. split.
  - intros Hin. rewrite Forall_forall in Hruns. exact (Hruns (s, e) Hin).
  - intros Hrun. pose proof Hrun as (R1 & R2 & _).
    destruct (proj1 (Exists_exists _ _) (Hcover s (R2 s ltac:(lia))))
      as ([s' e'] & Hin & Hk).
    cbn [fst snd] in Hk. rewrite Forall_forall in Hruns.
    pose proof (Hruns (s', e') Hin) as Hrun'. cbn [fst snd] in Hrun'.
    destruct (maximal_run_unique y_true s e s' e' s Hrun Hrun' ltac:(lia) Hk)
      as [-> ->].
    exact Hin.
Qed.

Lemma X24_witness :
  Metrics.find_episodes [0; 1; 1; 0; 0; 1; 0; 1; 1; 1]
  = [(1, 2); (5, 5); (7, 9)]%nat
  /\ StronglySorted Metrics.apart
       (Metrics.find_episodes [0; 1; 1; 0; 0; 1; 0; 1; 1; 1]).
Proof.
  split; [reflexivity |].
  apply (X24_episodes_are_maximal_runs [0; 1; 1; 0; 0; 1; 0; 1; 1; 1]).
  repeat (constructor; [first [left; reflexivity | right; reflexivity] |]).
  constructor.
Defined.

Section Latency.
Import Metrics.

Lemma first_alert_offset_Some (y_pred : list Z) (start_idx off : nat) :
  first_alert_offset y_pred start_idx = Some off <->
  y_pred !! (start_idx + off)%nat = Some 1
  /\ (forall j, (j < off)%nat -> y_pred !! (start_idx + j)%nat <> Some 1).
Proof.
  unfold first_alert_offset. split.
  - intros H. destruct (list_find _ _) as [[i x] |] eqn:E; [| discriminate H].
    injection H as <-. apply list_find_Some in E. destruct E as (E1 & -> & E3).
    rewrite lookup_drop in E1. split; [exact E1 |].
    intros j Hj Hc. rewrite <- lookup_drop in Hc. exact (E3 j 1 Hc Hj eq_refl).
  - intros [H1 H2].
    assert (E : list_find (fun p => p = 1) (drop start_idx y_pred) = Some (off, 1)).
    { apply list_find_Some. rewrite lookup_drop. split; [exact H1 |].
      split; [reflexivity |]. intros j x Hj Hlt ->.
      rewrite lookup_drop in Hj. exact (H2 j Hlt Hj). }
    now rewrite E.
Qed.

Lemma first_alert_offset_None (y_pred : list Z) (start_idx : nat) :
  first_alert_offset y_pred start_idx = None <->
  forall k, (start_idx <= k)%nat -> y_pred !! k <> Some 1.
Proof.
  unfold first_alert_offset. split.
  - intros H k Hk Hc.
    destruct (list_find _ _) as [[i x] |] eqn:E; [discriminate H |].
    apply list_find_None in E. rewrite Forall_forall in E.
    apply (E 1); [| reflexivity].
    apply list_elem_of_lookup. exists (k - start_idx)%nat.
    rewrite lookup_drop. now replace (start_idx + (k - start_idx))%nat with k by lia.
  - intros H. destruct (list_find _ _) as [[i x] |] eqn:E; [| reflexivity].
    apply list_find_Some in E. destruct E as (E1 & -> & _).
    rewrite lookup_drop in E1. exfalso. apply (H (start_idx + i)%nat); [lia | exact E1].
Qed.

(** What one entry of [latencies] says about its episode. *)
Lemma latency_spec (time_sec y_pred : list Z) (start_idx : nat) (l : option Z) :
  latency time_sec y_pred start_idx = Returns l ->
  match l with
  | None => forall k, (start_idx <= k)%nat -> y_pred !! k <> Some 1
  | Some d =>
      exists (k : nat) (t_alert t_start : Z),
        (start_idx <= k)%nat /\ y_pred !! k = Some 1
        /\ (forall j, (start_idx <= j < k)%nat -> y_pred !! j <> Some 1)
        /\ time_sec !! k = Some t_alert /\ time_sec !! start_idx = Some t_start
        /\ d = wrap64 (t_alert - t_start)
  end.
Proof.
  unfold latency.
  destruct (first_alert_offset y_pred start_idx) as [off |] eqn:E.
  - apply first_alert_offset_Some in E. destruct E as [E1 E2].
    destruct (time_sec !! (start_idx + off)%nat) as [ta |] eqn:Ha;
      [| discriminate].
    destruct (time_sec !! start_idx) as [ts |] eqn:Hs; [| discriminate].
    intros H. injection H as <-.
    exists (start_idx + off)%nat, ta, ts.
    repeat split; try lia; auto.
    intros j Hj. replace j with (start_idx + (j - start_idx))%nat by lia.
    apply E2. lia.
  - intros H. injection H as <-. now apply first_alert_offset_None.
Qed.

Lemma latency_returns (time_sec y_pred : list Z) (start_idx : nat) :
  (length y_pred <= length time_sec)%nat ->
  exists l, latency time_sec y_pred start_idx = Returns l.
Proof.
  intros Hlen. unfold latency.
  destruct (first_alert_offset y_pred start_idx) as [off |] eqn:E;
    [| now eexists].
  apply first_alert_offset_Some in E. destruct E as [E1 _].
  apply lookup_lt_Some in E1.
  destruct (lookup_lt_is_Some_2 time_sec (start_idx + off)%nat ltac:(lia))
    as [ta ->].
  destruct (lookup_lt_is_Some_2 time_sec start_idx ltac:(lia)) as [ts ->].
  now eexists.
Qed.

Lemma latencies_loop_spec (time_sec y_pred : list Z) (episodes : list (nat * nat)) :
  forall (acc out : list (option Z)),
  latencies_loop time_sec y_pred episodes acc = Returns out ->
  exists ls, out = acc ++ ls
             /\ Forall2 (fun ep l => latency time_sec y_pred (fst ep) = Returns l)
                        episodes ls.
Proof.
  induction episodes as [| [s e] episodes IH]; intros acc out H;
    cbn [latencies_loop] in H.
  - injection H as <-. exists []. rewrite app_nil_r. split; [reflexivity | constructor].
  - destruct (latency time_sec y_pred s) as [l | err] eqn:El; [| discriminate H].
    destruct (IH _ _ H) as (ls & -> & Hall).
    exists (l :: ls). rewrite <- app_assoc. split; [reflexivity |].
    constructor; [exact El | exact Hall].
Qed.

Lemma latencies_loop_returns (time_sec y_pred : list Z)
    (episodes : list (nat * nat)) :
  (length y_pred <= length time_sec)%nat ->
  forall acc, exists out, latencies_loop time_sec y_pred episodes acc = Returns out.
Proof.
  intros Hlen. induction episodes as [| [s e] episodes IH]; intros acc;
    cbn [latencies_loop]; [now eexists |].
  destruct (latency_returns time_sec y_pred s Hlen) as [l ->]. apply IH.
Qed.

Lemma count_nan_bound (ls : list (option Z)) :
  (length (List.filter is_nan ls) <= length ls)%nat.
Proof.
  induction ls as [| l ls IH]; cbn [List.filter length]; [lia |].
  destruct (is_nan l); cbn [length]; lia.
Qed.

Lemma count_nan_zero (ls : list (option Z)) :
  Forall (fun l => l <> None) ls -> length (List.filter is_nan ls) = 0%nat.
Proof.
  induction 1 as [| l ls Hl _ IH]; [reflexivity |].
  cbn [List.filter]. destruct l as [d |]; [exact IH | congruence].
Qed.

Lemma compute_alert_latency_spec (time_sec y_true y_pred : list Z)
    (stats : LatencyStats) :
  compute_alert_latency time_sec y_true y_pred = Returns stats ->
  num_episodes stats = Z.of_nat (length (find_episodes y_true))
  /\ missed_episodes stats
     = Z.of_nat (length (List.filter is_nan (latencies stats)))
  /\ Forall2 (fun ep l => latency time_sec y_pred (fst ep) = Returns l)
             (find_episodes y_true) (latencies stats).
Proof.
  unfold compute_alert_latency.
  destruct (latencies_loop _ _ _ _) as [out | err] eqn:E; [| discriminate].
  intros H. injection H as <-. cbn [latencies num_episodes missed_episodes].
  destruct (latencies_loop_spec _ _ _ _ _ E) as (ls & -> & Hall).
  cbn [app]. split; [| split; [reflexivity | exact Hall]].
  now rewrite (Forall2_length _ _ _ Hall).
Qed.

End Latency.

(** X25.  [compute_alert_latency] returns whenever [time_sec] is at least as
    long as [y_pred].  It reports one latency per episode, in order: NaN
    when no prediction at or after the start of the episode is 1, and
    otherwise the time of the first such prediction minus the time of the
    start; [missed_episodes] counts the NaN entries and is at most
    [num_episodes]. *)
Theorem X25_alert_latency_per_episode (time_sec y_true y_pred : list Z) :
  (length y_pred <= length time_sec)%nat ->
  exists stats : Metrics.LatencyStats,
    Metrics.compute_alert_latency time_sec y_true y_pred = Returns stats
    /\ Metrics.num_episodes stats
       = Z.of_nat (length (Metrics.find_episodes y_true))
    /\ 0 <= Metrics.missed_episodes stats <= Metrics.num_episodes stats
    /\ Forall2
         (fun ep l =>
            match l with
            | None => forall k, (fst ep <= k)%nat -> y_pred !! k <> Some 1
            | Some d =>
                exists (k : nat) (t_alert t_start : Z),
                  (fst ep <= k)%nat /\ y_pred !! k = Some 1
                  /\ (forall j, (fst ep <= j < k)%nat -> y_pred !! j <> Some 1)
                  /\ time_sec !! k = Some t_alert
                  /\ time_sec !! fst ep = Some t_start
                  /\ d = Metrics.wrap64 (t_alert - t_start)
            end)
         (Metrics.find_episodes y_true) (Metrics.latencies stats).
Proof.
  intros Hlen.
  destruct (latencies_loop_returns time_sec y_pred (Metrics.find_episodes y_true)
              Hlen []) as [out Hout].
  assert (Hret : exists stats,
             Metrics.compute_alert_latency time_sec y_true y_pred = Returns stats).
  { unfold Metrics.compute_alert_latency. rewrite Hout. now eexists. }
  destruct Hret as [stats Hret]. exists stats. split; [exact Hret |].
  destruct (compute_alert_latency_spec _ _ _ _ Hret) as (Hnum & Hmiss & Hall).
  split; [exact Hnum |]. split.
  - rewrite Hmiss, Hnum, (Forall2_length _ _ _ Hall).
    pose proof (count_nan_bound (Metrics.latencies stats)). lia.
  - eapply Forall2_impl; [exact Hall |]. intros ep l Hl.
    exact (latency_spec _ _ _ _ Hl).
Qed.

Lemma X25_witness :
  exists stats : Metrics.LatencyStats,
    Metrics.compute_alert_latency [0; 5; 10; 15; 20; 25] [0; 1; 1; 0; 1; 0]
      [0; 0; 1; 0; 0; 0]
    = Returns stats
    /\ Metrics.latencies stats = [Some 5; None].
Proof.
  destruct (X25_alert_latency_per_episode [0; 5; 10; 15; 20; 25]
              [0; 1; 1; 0; 1; 0] [0; 0; 1; 0; 0; 0] ltac:(cbn; lia))
    as (stats & Hret & _).
  exists stats. split; [exact Hret |]. injection Hret as <-. reflexivity.
Defined.

(** X26.  The search for an alert is not bounded by the end of the episode:
    a prediction 1 at row [a] counts as the detection of every episode that
    starts at or before [a], however long before [a] it ended.  So an
    episode is reported as missed only when no alert at all follows its
    start, and when every episode starts at or before some alert,
    [missed_episodes] is 0. *)
Theorem X26_late_alert_counts_for_earlier_episodes
    (time_sec y_true y_pred : list Z) (stats : Metrics.LatencyStats) (a : nat) :
  y_pred !! a = Some 1 ->
  Metrics.compute_alert_latency time_sec y_true y_pred = Returns stats ->
  Forall2 (fun ep l => (fst ep <= a)%nat -> l <> None)
          (Metrics.find_episodes y_true) (Metrics.latencies stats)
  /\ (Forall (fun ep => (fst ep <= a)%nat) (Metrics.find_episodes y_true) ->
      Metrics.missed_episodes stats = 0).
Proof.
  intros Ha Hret.
  destruct (compute_alert_latency_spec _ _ _ _ Hret) as (Hnum & Hmiss & Hall).
  assert (Hdet : Forall2 (fun ep l => (fst ep <= a)%nat -> l <> None)
                   (Metrics.find_episodes y_true) (Metrics.latencies stats)).
  { eapply Forall2_impl; [exact Hall |]. intros ep l Hl Hle ->.
    apply latency_spec in Hl. exact (Hl a Hle Ha). }
  split; [exact Hdet |].
  intros Hbefore. rewrite Hmiss.
  rewrite count_nan_zero; [reflexivity |].
  clear -Hdet Hbefore.
  induction Hdet as [| ep l eps ls H _ IH]; [constructor |].
  inversion Hbefore; subst. constructor; auto.
Qed.

Lemma X26_witness :
  exists stats : Metrics.LatencyStats,
    Metrics.compute_alert_latency [0; 5; 10; 15; 20; 25] [1; 0; 0; 1; 0; 0]
      [0; 0; 0; 0; 0; 1]
    = Returns stats
    /\ Metrics.latencies stats = [Some 25; Some 10]
    /\ Metrics.missed_episodes stats = 0.
Proof.
  eexists. split; [reflexivity |]. split; [reflexivity |].
  eapply (X26_late_alert_counts_for_earlier_episodes
            [0; 5; 10; 15; 20; 25] [1; 0; 0; 1; 0; 0] [0; 0; 0; 0; 0; 1] _ 5);
    [reflexivity | reflexivity |].
  repeat constructor.
Defined.

(* ===================================================================== *)
(** * Alert persistence in [risk_score.py] *)
(* ===================================================================== *)

Section Persistence.

Lemma sum_of_flags (bs : list bool) :
  let flags := map (fun b : bool => if b then 1 else 0) bs in
  0 <= fold_right Z.add 0 flags <= Z.of_nat (length bs)
  /\ (Z.of_nat (length bs) <= fold_right Z.add 0 flags <->
      Forall (fun b => b = true) bs).
Proof.
  induction bs as [| b bs IH]; cbv zeta in *.
  - cbn. split; [lia |]. split; [constructor | lia].
  - cbn [map fold_right length]. destruct IH as [Hr Hiff].
    rewrite Nat2Z.inj_succ. destruct b.
    + split; [lia |]. split.
      * intros H. constructor; [reflexivity |]. apply Hiff. lia.
      * intros H. inversion H; subst. apply Hiff in H3. lia.
    + split; [lia |]. split; [lia |].
      intros H. inversion H; subst. discriminate.
Qed.

Lemma rolling_sum_lookup (window : nat) (series : list Z) (i : nat) :
  (i < length series)%nat ->
  RiskScore.rolling_sum window series !! i
  = Some (fold_right Z.add 0 (drop (i + 1 - window) (take (i + 1) series))).
Proof.
  intros Hi. unfold RiskScore.rolling_sum.
  rewrite list_lookup_fmap, lookup_seq_lt by lia. reflexivity.
Qed.

End Persistence.

(** X27.  The alert column of [compute_risk_score] is a temporal
    confirmation of the same kind as [TemporalAlertBuffer]: for
    [min_persistence >= 1] it equals, row by row, the answers of a new buffer
    of capacity [min_persistence] fed with the raw alerts
    ([risk_score > 50] and [confidence_mean >= confidence_threshold]); a
    [min_persistence] below 1 is refused. *)
Theorem X27_persistence_is_a_temporal_buffer (min_persistence : Z)
    (confidence_threshold : float) (df : list RiskScore.Row) :
  (min_persistence < 1 ->
   RiskScore.alert min_persistence (RiskScore.alert_raw confidence_threshold df)
   = Raises "ValueError")
  /\ (1 <= min_persistence ->
      RiskScore.alert min_persistence (RiskScore.alert_raw confidence_threshold df)
      = Returns
          (map (fun b : bool => if b then 1 else 0)
               (TemporalAlertBuffer.feed
                  (TemporalAlertBuffer.init min_persistence)
                  (map (RiskScore.alert_raw_bool confidence_threshold) df)))).
Proof.
  unfold RiskScore.alert. split; intros Hmp.
  - destruct (Z.ltb_spec min_persistence 1); [reflexivity | lia].
  - destruct (Z.ltb_spec min_persistence 1); [lia |]. f_equal.
    set (bs := map (RiskScore.alert_raw_bool confidence_threshold) df).
    assert (Hraw : RiskScore.alert_raw confidence_threshold df
                   = map (fun b : bool => if b then 1 else 0) bs).
    { unfold RiskScore.alert_raw, bs. now rewrite map_map. }
    rewrite Hraw. clear Hraw. generalize bs. clear bs. intros bs.
    apply list_eq. intros j.
    rewrite !list_lookup_fmap.
    destruct (Nat.lt_ge_cases j (length bs)) as [Hj | Hj].
    + rewrite rolling_sum_lookup by (now rewrite length_map).
      destruct (lookup_lt_is_Some_2 bs j Hj) as [b Hb].
      rewrite (feed_lookup _ bs j b Hb). cbn [fmap option_fmap option_map].
      f_equal.
      pose proof (feed_answer min_persistence (take j bs) b ltac:(lia)) as Hans.
      cbv zeta in Hans. rewrite <- (take_S_r bs j b Hb) in Hans.
      replace (S j) with (j + 1)%nat in Hans by lia.
      rewrite length_take in Hans.
      replace ((j + 1) `min` length bs)%nat with (j + 1)%nat in Hans by lia.
      rewrite firstn_map, skipn_map.
      pose proof (sum_of_flags
                    (drop (j + 1 - Z.to_nat min_persistence) (take (j + 1) bs)))
        as [Hrange Hall].
      cbv zeta in Hrange, Hall.
      rewrite length_drop, length_take in Hrange, Hall.
      replace ((j + 1) `min` length bs)%nat with (j + 1)%nat in Hrange, Hall by lia.
      destruct (snd (TemporalAlertBuffer.should_alert _ b)).
      * destruct Hans as [Hans _]. destruct (Hans eq_refl) as [Hlen Hforall].
        apply Hall in Hforall.
        destruct (Z.leb_spec min_persistence
                    (fold_right Z.add 0
                       (map (fun b : bool => if b then 1 else 0)
                          (drop (j + 1 - Z.to_nat min_persistence)
                                (take (j + 1) bs))))); [reflexivity | lia].
      * destruct (Z.leb_spec min_persistence
                    (fold_right Z.add 0
                       (map (fun b : bool => if b then 1 else 0)
                          (drop (j + 1 - Z.to_nat min_persistence)
                                (take (j + 1) bs))))) as [Hle | Hgt];
          [| reflexivity].
        destruct Hans as [_ Hans].
        assert (Hfalse : false = true); [| discriminate Hfalse].
        apply Hans. split; [lia |]. apply Hall. lia.
    + rewrite (lookup_ge_None_2 (RiskScore.rolling_sum _ _)).
      * rewrite (lookup_ge_None_2 (TemporalAlertBuffer.feed _ _));
          [reflexivity | now rewrite length_feed].
      * unfold RiskScore.rolling_sum.
        now rewrite length_map, length_seq, length_map.
Qed.

Lemma X27_witness :
  RiskScore.alert 2
    (RiskScore.alert_raw lit_0_5
       [ {| RiskScore.risk_score := Z2SF 60; RiskScore.confidence_mean := lit_0_8 |};
         {| RiskScore.risk_score := Z2SF 70; RiskScore.confidence_mean := lit_0_8 |};
         {| RiskScore.risk_score := Z2SF 40; RiskScore.confidence_mean := lit_0_8 |};
         {| RiskScore.risk_score := Z2SF 80; RiskScore.confidence_mean := lit_0_5 |} ])
  = Returns [0; 1; 0; 0].
Proof.
  rewrite (proj2 (X27_persistence_is_a_temporal_buffer 2 lit_0_5 _)) by lia.
  reflexivity.
Defined.
